(** * BQSKit: LEAP synthesis and the standard compile workflow

    A shallow embedding of
      - [bqskit/passes/synthesis/leap.py]  (class [LEAPSynthesisPass]), and
      - [bqskit/compiler/compile.py]       ([compile], [_gen_replace_filter],
        the workflow builders and their helpers),
    together with the properties of these two modules that the
    specification states, and with further properties that the code has.

    Python [float]s are IEEE 754 binary64 numbers; they are embedded as
    [spec_float] with [prec = 53] and [emax = 1024], so that comparisons
    with NaN, infinities and signed zeros behave as they do in the
    interpreter.  Python [int]s are embedded as [Z].

    The file has two parts: the embedding of the code (definitions only),
    then the properties. *)

From Stdlib Require Import ZArith Bool List Lia Sorted Permutation.
From Stdlib Require Import SpecFloat.
From stdpp Require Import base option list gmap.

Open Scope Z_scope.

(* ===================================================================== *)
(** * Part I. The embedding *)
(* ===================================================================== *)

(** ** Python floats *)

Module PyFloat.

Definition float : Type := spec_float.

Definition prec : Z := 53.
Definition emax : Z := 1024.

(** [a < b], [a <= b], [a >= b] and [a == b] on floats. *)
Definition flt (a b : float) : bool := SFltb a b.
Definition fle (a b : float) : bool := SFleb a b.
Definition fge (a b : float) : bool := SFleb b a.
Definition feq (a b : float) : bool := SFeqb a b.

Definition fmul (a b : float) : float := SFmul prec emax a b.
Definition fadd (a b : float) : float := SFadd prec emax a b.
Definition fsub (a b : float) : float := SFsub prec emax a b.

(** [np.isnan] *)
Definition isnan (a : float) : bool :=
  match a with S754_nan => true | _ => false end.

(** Implicit conversion of an [int] operand in mixed arithmetic and
    comparisons: the nearest float, ties to even.  (The interpreter
    refuses integers of magnitude [2^1024] and above; below that bound
    this is the value it converts to.) *)
Definition of_int (n : Z) : float := binary_normalize prec emax n 0 false.

End PyFloat.

(** ** The LEAP synthesis pass ([bqskit/passes/synthesis/leap.py]) *)

Module Leap.

Import PyFloat.

(** *** Collaborators

    The pass is parameterised by objects whose classes live in other
    modules of the package.  Each is an interface here; the target
    [utry], the pass data and the instantiation options are fixed for
    the duration of one [synthesize] call and are closed over. *)

(** [self.cost]: [calc_cost(circuit, utry)]. *)
Class CostFunctionGenerator (Circuit : Type) := {
  calc_cost : Circuit → float
}.

(** [layer_gen]: [gen_initial_layer(utry, data)] and
    [gen_successors(circuit, data)]. *)
Class LayerGenerator (Circuit : Type) := {
  gen_initial_layer : Circuit;
  gen_successors : Circuit → list Circuit
}.

(** [self.heuristic_function]: [get_value(circuit, utry)]. *)
Class HeuristicFunction (Circuit : Type) := {
  get_value : Circuit → float
}.

(** [Circuit.instantiate(circuit, target=utry, **instantiate_options)]. *)
Class Instantiater (Circuit : Type) := {
  instantiate : Circuit → Circuit
}.

(** Exceptions the embedded code can raise. *)
Inductive Exn := ZeroDivisionError | IndexError | ValueError.

(** How a call ends that may raise: with a value, or with an
    exception. *)
Inductive Call (A : Type) :=
| Returns (a : A)
| Raises (e : Exn).
Arguments Returns {A} a.
Arguments Raises {A} e.

(** [scipy.stats.linregress(x, y)], of which only the slope and the
    intercept are used.  The function belongs to a library.  It refuses
    some arguments with a [ValueError]; for the others, the slope and the
    intercept it computes are an interface.  The call is made under
    [np.errstate(invalid='ignore', divide='ignore')], so the fit through
    a single point surfaces as NaN values. *)
Class Regression := {
  fit : list Z → list float → float * float
}.

(** [np.amax(x)] and [np.amin(x)] *)
Definition amax (x : list Z) : Z := foldr Z.max (hd 0 x) x.
Definition amin (x : list Z) : Z := foldr Z.min (hd 0 x) x.

(** The arguments [linregress] refuses: an empty [x] or [y] ("Inputs
    must not be empty"), several values of [x] that are all identical
    ("Cannot calculate a linear regression if all x values are
    identical"), and an [x] and a [y] of different lengths. *)
Definition linregress_rejects (x : list Z) (y : list float) : bool :=
  (length x =? 0)%nat || (length y =? 0)%nat
  || ((amax x =? amin x) && (1 <? length x)%nat)
  || negb (length x =? length y)%nat.

Definition linregress `{!Regression} (x : list Z) (y : list float)
    : Call (float * float) :=
  if linregress_rejects x y then Raises ValueError else Returns (fit x y).

(** [list.sort(key=lambda x: x[1])] on a bucket of partial solutions.
    The method is a built-in of the interpreter, and an interface here,
    with what the language promises of it: the list is rearranged,
    however its keys compare; when [<] orders the keys (none of them is a
    NaN), the result ascends and entries with equal keys keep their
    order. *)
Class ListSort (Circuit : Type) := {
  sort_by_cost : list (Circuit * float) → list (Circuit * float);
  sort_by_cost_perm : ∀ l, sort_by_cost l ≡ₚ l;
  sort_by_cost_ascending :
    ∀ l, Forall (λ x, isnan x.2 = false) l →
         StronglySorted (λ a b, fle a.2 b.2 = true) (sort_by_cost l);
  sort_by_cost_stable :
    ∀ l d, Forall (λ x, isnan x.2 = false) l →
           filter (λ x, feq x.2 d = true) (sort_by_cost l)
           = filter (λ x, feq x.2 d = true) l
}.

(** *** Logger records and traced operations *)

Inductive Message :=
| SearchStarted (best_dist : float)
| SuccessfulSynthesis (layers : Z)
| NewBestCircuit (layers : Z) (dist : float)
| PredictedBest (predicted_best delta : float)
| PrefixFormed (layers : Z)
| NoImprovement (no_progress_layers_allowed : Z)
| FrontierEmptied
| ReturningBest (best_layer : Z) (best_dist : float).

(** A run is observed through the sequence, in program order, of its
    logger records ([_logger.debug], [_logger.warning]) and of the
    operations the properties of Part II speak about. *)
Inductive Event :=
| Debug (m : Message)
| Warning (m : Message)
| Pop (layer : Z)
    (** [top_circuit, layer = frontier.pop()] *)
| CallCheckNewBest (layer : Z) (dist : float) (best_layer : Z) (best_dist : float)
    (** a call [self.check_new_best(layer, dist, best_layer, best_dist)] *)
| AssignBestDist (dist : float)
    (** an assignment [best_dist = dist] (lines 191 and 248) *)
| AssignLastPrefixLayer (layer : Z).
    (** the assignment [last_prefix_layer = layer] that records a prefix
        freeze (line 260) *)

(** *** The frontier ([bqskit.passes.search.frontier.Frontier]) *)

Section Frontier.
Context {Circuit : Type} `{!HeuristicFunction Circuit}.

(** Modelled from the spec: an entry of the frontier (see [Frontier]
    below), a circuit with its layer depth, its heuristic value and its
    insertion ticket. *)
Record Entry := {
  heuristic_value : float;
  count : Z;
  item : Circuit;
  extra_data : Z
}.

(** Modelled from the spec: the class [Frontier] is not part of the
    sources at hand.  It is "a priority queue of (circuit, layer_depth)
    ordered by heuristic(circuit, target)", with "ties broken by
    insertion order" and operations [add], [pop] (min), [empty] and
    [clear].  Entries are kept in insertion order together with the
    ticket that breaks ties. *)
Record Frontier := {
  entries : list Entry;
  counter : Z
}.

Definition Frontier_init : Frontier := {| entries := []; counter := 0 |}.

Definition add (fr : Frontier) (circuit : Circuit) (layer : Z) : Frontier :=
  {| entries := entries fr ++
       [{| heuristic_value := get_value circuit; count := counter fr;
           item := circuit; extra_data := layer |}];
     counter := counter fr + 1 |}.

(** Order on [(heuristic_value, count)] pairs, as tuples compare: the
    first components decide unless they are equal. *)
Definition entry_lt (a b : Entry) : bool :=
  if feq (heuristic_value a) (heuristic_value b)
  then count a <? count b
  else flt (heuristic_value a) (heuristic_value b).

(** The least entry and the remaining ones, in their order. *)
Fixpoint pop_min (l : list Entry) : option (Entry * list Entry) :=
  match l with
  | [] => None
  | e :: l' =>
      match pop_min l' with
      | None => Some (e, [])
      | Some (m, rest) =>
          if entry_lt m e then Some (m, e :: rest) else Some (e, l')
      end
  end.

(** [pop] on an empty frontier is an error in the source; [synthesize]
    only pops under [not frontier.empty()]. *)
Definition pop (fr : Frontier) : option (Circuit * Z * Frontier) :=
  match pop_min (entries fr) with
  | None => None
  | Some (m, rest) =>
      Some (item m, extra_data m, {| entries := rest; counter := counter fr |})
  end.

Definition empty (fr : Frontier) : bool :=
  match entries fr with [] => true | _ => false end.

Definition clear (fr : Frontier) : Frontier :=
  {| entries := []; counter := counter fr |}.

(** The [(circuit, layer)] pairs held by a frontier. *)
Definition contents (fr : Frontier) : list (Circuit * Z) :=
  map (λ e, (item e, extra_data e)) (entries fr).

End Frontier.

Arguments Entry : clear implicits.
Arguments Frontier : clear implicits.

(** *** The pass object *)

(** The fields of [self] that [synthesize] and its helpers read; the
    other constructor arguments are the collaborators above. *)
Record LEAPSynthesisPass := {
  success_threshold : float;
  max_layer : option Z;
  no_progress_layers_allowed : Z;
  store_partial_solutions : bool;
  partials_per_depth : Z;
  min_prefix_size : Z
}.

(** [check_new_best] (lines 300-329). *)
Definition check_new_best (self : LEAPSynthesisPass)
    (layer : Z) (dist : float) (best_layer : Z) (best_dist : float) : bool :=
  let better_layer :=
    flt dist best_dist
    && (fge best_dist (success_threshold self) || (layer <=? best_layer)) in
  let better_dist_and_layer :=
    flt dist (success_threshold self) && (layer <? best_layer) in
  better_layer || better_dist_and_layer.

(** [check_leap_condition] (lines 331-378).  The two history lists are
    mutated in place by the source; the embedding returns them next to
    the boolean result, followed by the records logged.  When
    [linregress] raises (line 358), nothing has been appended yet and
    the exception leaves the method. *)
Definition check_leap_condition `{!Regression} (self : LEAPSynthesisPass)
    (new_layer : Z) (best_dist : float)
    (best_layers : list Z) (best_dists : list float)
    (last_prefix_layer : Z)
    : Call (bool * list Z * list float * list Event) :=
  match linregress best_layers best_dists with
  | Raises e => Raises e
  | Returns (m, y_int) =>
      let predicted_best := fadd (fmul m (of_int new_layer)) y_int in
      let best_layers := best_layers ++ [new_layer] in
      let best_dists := best_dists ++ [best_dist] in
      if isnan predicted_best then Returns (false, best_layers, best_dists, [])
      else
        let delta := fsub predicted_best best_dist in
        let layers_added := new_layer - last_prefix_layer in
        Returns
          (flt delta (of_int 0) && (min_prefix_size self <=? layers_added),
           best_layers, best_dists,
           [Debug (PredictedBest predicted_best delta)])
  end.

(** The value [m * new_layer + y_int] that [check_leap_condition]
    compares with [best_dist]. *)
Definition predicted (m y_int : float) (new_layer : Z) : float :=
  fadd (fmul m (of_int new_layer)) y_int.

(** *** [synthesize] (lines 168-298) *)

Section Synthesize.
Context {Circuit : Type}.
Context `{!CostFunctionGenerator Circuit} `{!LayerGenerator Circuit}.
Context `{!HeuristicFunction Circuit} `{!Instantiater Circuit} `{!Regression}.
Context `{!ListSort Circuit}.

(** The local variables of [synthesize] that live across iterations. *)
Record State := {
  frontier : Frontier Circuit;
  best_dist : float;
  best_circ : Circuit;
  best_layer : Z;
  best_dists : list float;
  best_layers : list Z;
  last_prefix_layer : Z;
  psols : gmap Z (list (Circuit * float));
  warned_layers : list Z
}.

Definition set_frontier (fr : Frontier Circuit) (st : State) : State :=
  {| frontier := fr; best_dist := best_dist st; best_circ := best_circ st;
     best_layer := best_layer st; best_dists := best_dists st;
     best_layers := best_layers st; last_prefix_layer := last_prefix_layer st;
     psols := psols st; warned_layers := warned_layers st |}.

Definition set_best (dist : float) (circuit : Circuit) (layer : Z)
    (st : State) : State :=
  {| frontier := frontier st; best_dist := dist; best_circ := circuit;
     best_layer := layer; best_dists := best_dists st;
     best_layers := best_layers st; last_prefix_layer := last_prefix_layer st;
     psols := psols st; warned_layers := warned_layers st |}.

Definition set_history (layers : list Z) (dists : list float)
    (st : State) : State :=
  {| frontier := frontier st; best_dist := best_dist st;
     best_circ := best_circ st; best_layer := best_layer st;
     best_dists := dists; best_layers := layers;
     last_prefix_layer := last_prefix_layer st;
     psols := psols st; warned_layers := warned_layers st |}.

Definition set_last_prefix_layer (layer : Z) (st : State) : State :=
  {| frontier := frontier st; best_dist := best_dist st;
     best_circ := best_circ st; best_layer := best_layer st;
     best_dists := best_dists st; best_layers := best_layers st;
     last_prefix_layer := layer;
     psols := psols st; warned_layers := warned_layers st |}.

Definition set_psols (ps : gmap Z (list (Circuit * float)))
    (st : State) : State :=
  {| frontier := frontier st; best_dist := best_dist st;
     best_circ := best_circ st; best_layer := best_layer st;
     best_dists := best_dists st; best_layers := best_layers st;
     last_prefix_layer := last_prefix_layer st;
     psols := ps; warned_layers := warned_layers st |}.

Definition set_warned_layers (ws : list Z) (st : State) : State :=
  {| frontier := frontier st; best_dist := best_dist st;
     best_circ := best_circ st; best_layer := best_layer st;
     best_dists := best_dists st; best_layers := best_layers st;
     last_prefix_layer := last_prefix_layer st;
     psols := psols st; warned_layers := ws |}.

(** How a call ends: with a circuit, [data_psols] being the value stored
    under [data['psols']] by the call (if it stored one), or with an
    exception. *)
Inductive Outcome :=
| Returned (circuit : Circuit)
           (data_psols : option (gmap Z (list (Circuit * float))))
| Raised (e : Exn).

(** Control after a loop body: go on with the next round, or leave
    [synthesize]. *)
Inductive Flow :=
| Next (st : State)
| Stop (o : Outcome).

(** [self.max_layer is None or layer < self.max_layer] *)
Definition below_max_layer (self : LEAPSynthesisPass) (layer : Z) : bool :=
  match max_layer self with
  | None => true
  | Some ml => layer <? ml
  end.

(** [data['psols'] = psols] under [if self.store_partial_solutions]. *)
Definition stored_psols (self : LEAPSynthesisPass) (st : State)
    : option (gmap Z (list (Circuit * float))) :=
  if store_partial_solutions self then Some (psols st) else None.

(** Lines 271-273: a bucket longer than [partials_per_depth] is sorted
    and loses its last entry. *)
Definition trim_bucket (self : LEAPSynthesisPass)
    (bucket : list (Circuit * float)) : list (Circuit * float) :=
  if partials_per_depth self <? Z.of_nat (length bucket)
  then removelast (sort_by_cost bucket)
  else bucket.

(** Lines 266-273.  [circuit.copy()] is the circuit itself, circuits
    being values here. *)
Definition store_partial (self : LEAPSynthesisPass) (layer : Z)
    (circuit : Circuit) (dist : float)
    (ps : gmap Z (list (Circuit * float))) : gmap Z (list (Circuit * float)) :=
  let bucket := default [] (ps !! layer) ++ [(circuit, dist)] in
  <[layer := trim_bucket self bucket]> ps.

(** Lines 259-263: the prefix is frozen at [layer + 1]. *)
Definition form_prefix (self : LEAPSynthesisPass) (layer : Z)
    (circuit : Circuit) (st : State) : State :=
  let st := set_last_prefix_layer (layer + 1) st in
  let st := set_frontier (clear (frontier st)) st in
  if below_max_layer self (layer + 1)
  then set_frontier (add (frontier st) circuit (layer + 1)) st
  else st.

(** Lines 243-263: the body of [if self.check_new_best(...)]. *)
Definition new_best (self : LEAPSynthesisPass) (layer : Z)
    (circuit : Circuit) (dist : float) (st : State) : list Event * Flow :=
  let st := set_best dist circuit (layer + 1) st in
  match check_leap_condition self (layer + 1) (best_dist st)
          (best_layers st) (best_dists st) (last_prefix_layer st) with
  | Raises e =>
      ([Debug (NewBestCircuit (layer + 1) dist); AssignBestDist dist],
       Stop (Raised e))
  | Returns (leap, layers, dists, evs) =>
      let st := set_history layers dists st in
      let ev :=
        Debug (NewBestCircuit (layer + 1) dist) :: AssignBestDist dist :: evs in
      if leap
      then (ev ++ [Debug (PrefixFormed (layer + 1));
                   AssignLastPrefixLayer (layer + 1)],
            Next (form_prefix self layer circuit st))
      else (ev, Next st)
  end.

(** Lines 232-276: the body of [for circuit in circuits]. *)
Definition eval_successor (self : LEAPSynthesisPass) (layer : Z)
    (st : State) (circuit : Circuit) : list Event * Flow :=
  let dist := calc_cost circuit in
  if flt dist (success_threshold self) then
    ([Debug (SuccessfulSynthesis (layer + 1))],
     Stop (Returned circuit (stored_psols self st)))
  else
    let call := CallCheckNewBest (layer + 1) dist (best_layer st) (best_dist st) in
    match
      if check_new_best self (layer + 1) dist (best_layer st) (best_dist st)
      then new_best self layer circuit dist st
      else ([], Next st)
    with
    | (ev, Stop o) => (call :: ev, Stop o)
    | (ev, Next st) =>
        let st :=
          if store_partial_solutions self
          then set_psols (store_partial self layer circuit dist (psols st)) st
          else st in
        let st :=
          if below_max_layer self (layer + 1)
          then set_frontier (add (frontier st) circuit (layer + 1)) st
          else st in
        (call :: ev, Next st)
    end.

(** Lines 231-276: the [for] loop. *)
Fixpoint eval_successors (self : LEAPSynthesisPass) (layer : Z)
    (circuits : list Circuit) (st : State) : list Event * Flow :=
  match circuits with
  | [] => ([], Next st)
  | circuit :: circuits =>
      match eval_successor self layer st circuit with
      | (ev, Stop o) => (ev, Stop o)
      | (ev, Next st) =>
          let '(ev', fl) := eval_successors self layer circuits st in
          (ev ++ ev', fl)
      end
  end.

(** Lines 278-288: the no-progress warning.  [%] by zero raises. *)
Definition warn_no_progress (self : LEAPSynthesisPass) (layer : Z)
    (st : State) : list Event * Flow :=
  let layer_diff := Z.abs (best_layer st - layer) in
  if no_progress_layers_allowed self =? 0 then ([], Stop (Raised ZeroDivisionError))
  else if (layer_diff mod no_progress_layers_allowed self =? 0)
          && (0 <? layer_diff)
          && negb (bool_decide (layer ∈ warned_layers st))
  then ([Warning (NoImprovement (no_progress_layers_allowed self))],
        Next (set_warned_layers (warned_layers st ++ [layer]) st))
  else ([], Next st).

(** Lines 214-288: the body of [while not frontier.empty()]. *)
Definition iteration (self : LEAPSynthesisPass) (st : State)
    : list Event * Flow :=
  match pop (frontier st) with
  | None => ([], Stop (Raised IndexError))
  | Some (top_circuit, layer, fr) =>
      let st := set_frontier fr st in
      let successors := gen_successors top_circuit in
      if (length successors =? 0)%nat then ([Pop layer], Next st)
      else
        let circuits := map instantiate successors in
        match eval_successors self layer circuits st with
        | (ev, Stop o) => (Pop layer :: ev, Stop o)
        | (ev, Next st) =>
            let '(ev', fl) := warn_no_progress self layer st in
            (Pop layer :: ev ++ ev', fl)
        end
  end.

(** Lines 290-298: what follows the [while] loop. *)
Definition frontier_emptied (self : LEAPSynthesisPass) (st : State)
    : list Event * Outcome :=
  ([Warning FrontierEmptied;
    Warning (ReturningBest (best_layer st) (best_dist st))],
   Returned (best_circ st) (stored_psols self st)).

(** Lines 213-298.  The loop need not terminate; [fuel] bounds the number
    of rounds, and a run that is cut short has no outcome but keeps the
    events it produced. *)
Fixpoint while_loop (self : LEAPSynthesisPass) (fuel : nat) (st : State)
    : list Event * option Outcome :=
  if empty (frontier st) then
    let '(ev, o) := frontier_emptied self st in (ev, Some o)
  else
    match fuel with
    | O => ([], None)
    | S fuel =>
        match iteration self st with
        | (ev, Stop o) => (ev, Some o)
        | (ev, Next st) =>
            let '(ev', r) := while_loop self fuel st in (ev ++ ev', r)
        end
    end.

(** Lines 185-199: the state on entry to the main loop. *)
Definition initial_state : State :=
  let initial_layer := instantiate gen_initial_layer in
  {| frontier := add Frontier_init initial_layer 0;
     best_dist := calc_cost initial_layer;
     best_circ := initial_layer;
     best_layer := 0;
     best_dists := [calc_cost initial_layer];
     best_layers := [0];
     last_prefix_layer := 0;
     psols := ∅;
     warned_layers := [] |}.

Definition synthesize (self : LEAPSynthesisPass) (fuel : nat)
    : list Event * option Outcome :=
  let st := initial_state in
  let ev0 := [AssignBestDist (best_dist st); Debug (SearchStarted (best_dist st))] in
  if flt (best_dist st) (success_threshold self) then
    (ev0 ++ [Debug (SuccessfulSynthesis 0)], Some (Returned (best_circ st) None))
  else
    let '(ev, r) := while_loop self fuel st in (ev0 ++ ev, r).

End Synthesize.

Arguments State : clear implicits.
Arguments Outcome : clear implicits.
Arguments Flow : clear implicits.

(** *** Vocabulary for the properties of a run *)

(** The values assigned to [best_dist], in order. *)
Definition assigned_best_dists (tr : list Event) : list float :=
  omap (λ e, match e with AssignBestDist d => Some d | _ => None end) tr.

(** Every entry of the frontier sits at depth [b] or deeper. *)
Definition depth_ge {Circuit : Type} (b : Z) (fr : Frontier Circuit) : Prop :=
  Forall (λ e, b ≤ extra_data e) (entries fr).

(** A monitor that reads a trace from left to right.  It carries the
    layer [b] of the last prefix freeze and the current value [cur] of
    [best_dist] (none before the first assignment), and accepts
    - a pop at depth [b] or deeper,
    - a freeze at layer [b] or deeper,
    - an assignment to [best_dist] of a value strictly below the
      current one,
    - a call of [check_new_best] whose [best_dist] argument is the
      current value and whose [dist] argument satisfies [ok_dist]. *)
Fixpoint accepts (ok_dist : float → Prop) (b : Z) (cur : option float)
    (tr : list Event) : Prop :=
  match tr with
  | [] => True
  | Pop layer :: tr => b ≤ layer ∧ accepts ok_dist b cur tr
  | AssignLastPrefixLayer layer :: tr =>
      b ≤ layer ∧ accepts ok_dist layer cur tr
  | AssignBestDist dist :: tr =>
      match cur with Some d => flt dist d = true | None => True end
      ∧ accepts ok_dist b (Some dist) tr
  | CallCheckNewBest _ dist _ best_dist :: tr =>
      cur = Some best_dist ∧ ok_dist dist ∧ accepts ok_dist b cur tr
  | _ :: tr => accepts ok_dist b cur tr
  end.

(** The monitor's freeze layer after a trace ... *)
Fixpoint bound_after (b : Z) (tr : list Event) : Z :=
  match tr with
  | [] => b
  | AssignLastPrefixLayer layer :: tr => bound_after layer tr
  | _ :: tr => bound_after b tr
  end.

(** ... and its current [best_dist]. *)
Fixpoint best_after (cur : option float) (tr : list Event) : option float :=
  match tr with
  | [] => cur
  | AssignBestDist dist :: tr => best_after (Some dist) tr
  | _ :: tr => best_after cur tr
  end.

(** The records that accompany the two ways out of [synthesize] with a
    circuit: success, and the exhaustion of the frontier. *)
Definition is_exit_record (e : Event) : bool :=
  match e with
  | Debug (SuccessfulSynthesis _)
  | Warning FrontierEmptied
  | Warning (ReturningBest _ _) => true
  | _ => false
  end.

Section RunVocabulary.
Context {Circuit : Type}.
Context `{!CostFunctionGenerator Circuit} `{!Regression}.

(** The prefix-freeze condition for the candidate [circuit] of a node
    popped at depth [layer]: the candidate is not the successful one, it
    is a new best, and the leap condition holds for it. *)
Definition prefix_freeze_condition (self : LEAPSynthesisPass) (layer : Z)
    (st : State Circuit) (circuit : Circuit) : bool :=
  let dist := calc_cost circuit in
  negb (flt dist (success_threshold self))
  && check_new_best self (layer + 1) dist (best_layer st) (best_dist st)
  && match check_leap_condition self (layer + 1) dist
             (best_layers st) (best_dists st) (last_prefix_layer st) with
     | Returns (leap, _, _, _) => leap
     | Raises _ => false
     end.

(** The history of the bests as [synthesize] keeps it: as many layers
    as distances, the layer [0] of the initial circuit first, positive
    layers after it. *)
Definition history_from_zero (layers : list Z) (dists : list float) : Prop :=
  length layers = length dists
  ∧ ∃ rest, layers = 0 :: rest ∧ Forall (λ layer, 0 < layer) rest.

(** The states of the main loop in which such a history goes with a
    frontier of circuits at depth [0] or deeper. *)
Definition regular (st : State Circuit) : Prop :=
  history_from_zero (best_layers st) (best_dists st)
  ∧ depth_ge 0 (frontier st).

(** No bucket holds more than [partials_per_depth] entries. *)
Definition buckets_bounded (self : LEAPSynthesisPass)
    (ps : gmap Z (list (Circuit * float))) : Prop :=
  ∀ layer bucket, ps !! layer = Some bucket →
    Z.of_nat (length bucket) ≤ partials_per_depth self.

(** Order of partial solutions by cost. *)
Definition cost_le (a b : Circuit * float) : Prop :=
  fle (snd a) (snd b) = true.

(** The recorded best distance is the cost of the recorded best
    circuit. *)
Definition best_recorded (st : State Circuit) : Prop :=
  best_dist st = calc_cost (best_circ st).

(** A property of [psols] holds of the state a loop body hands on, or of
    the value it stores under [data['psols']] when it returns. *)
Definition flow_psols (I : gmap Z (list (Circuit * float)) → Prop)
    (fl : Flow Circuit) : Prop :=
  match fl with
  | Next st' => I (psols st')
  | Stop (Returned _ (Some ps)) => I ps
  | Stop _ => True
  end.

End RunVocabulary.

(** What the monitor asks of the [dist] argument of [check_new_best]: it
    is the cost of some circuit and is not below the threshold. *)
Definition evaluated_not_success {Circuit : Type}
    `{!CostFunctionGenerator Circuit} (self : LEAPSynthesisPass)
    (dist : float) : Prop :=
  flt dist (success_threshold self) = false ∧ ∃ c : Circuit, dist = calc_cost c.

End Leap.

(** ** The standard workflow ([bqskit/compiler/compile.py]) *)

Module Compile.

Import PyFloat.

Inductive Exn := TypeError | ValueError | IndexError.

(** A value or a raised exception. *)
Inductive Res (A : Type) :=
| Ok (a : A)
| Raise (e : Exn).
Arguments Ok {A} a.
Arguments Raise {A} e.

(** *** Gates, operations, circuits and machine models

    The classes [Gate], [Operation], [Circuit] and [MachineModel] belong
    to other modules of the package; what [compile.py] uses of them is
    listed here. *)

(** Gates: structural equality, [g.num_qudits],
    [isinstance(g, MeasurementPlaceholder)], and the two gates of the
    default machine model. *)
Class GateCatalog (Gate : Type) := {
  gate_eq_dec :: EqDecision Gate;
  num_qudits : Gate → Z;
  is_measurement_placeholder : Gate → bool;
  CNOTGate : Gate;
  U3Gate : Gate
}.

(** Modelled from the spec: the class [Operation] is not part of the
    sources at hand.  It is "a triple [(gate, location, params)]". *)
Record Operation (Gate : Type) := {
  gate : Gate;
  location : list Z;
  params : list float
}.
Arguments gate {Gate} _.
Arguments location {Gate} _.
Arguments params {Gate} _.

(** Modelled from the spec: the class [Circuit] is not part of the
    sources at hand.  It is "an ordered sequence of operations over a
    fixed qudit width [n]", here with its radixes. *)
Record Circuit (Gate : Type) := {
  circuit_num_qudits : Z;
  circuit_radixes : list Z;
  operations : list (Operation Gate)
}.
Arguments circuit_num_qudits {Gate} _.
Arguments circuit_radixes {Gate} _.
Arguments operations {Gate} _.

(** [isinstance(g, CircuitGate)], with [g._circuit] when it holds. *)
Class CircuitGates (Gate : Type) := {
  as_circuit_gate : Gate → option (Circuit Gate)
}.

(** Modelled from the spec: the class [MachineModel] is not part of the
    sources at hand.  It is "[(num_qudits, coupling_graph, gate_set)]",
    here with its radixes. *)
Record MachineModel (Gate : Type) := {
  model_num_qudits : Z;
  model_radixes : list Z;
  model_coupling_graph : list (Z * Z);
  model_gate_set : list Gate
}.
Arguments model_num_qudits {Gate} _.
Arguments model_radixes {Gate} _.
Arguments model_coupling_graph {Gate} _.
Arguments model_gate_set {Gate} _.

Section Workflow.
Context {Gate : Type} `{!GateCatalog Gate} `{!CircuitGates Gate}.

(** Modelled from the spec: [Circuit.gate_set] is the derived view of the
    "distinct gates present". *)
Definition gate_set (c : Circuit Gate) : list Gate :=
  remove_dups (map gate (operations c)).

(** Modelled from the spec: [Circuit.count(gate)], the number of
    operations of the circuit that carry [gate]. *)
Definition count (c : Circuit Gate) (g : Gate) : Z :=
  Z.of_nat (length (filter (λ op, gate op = g) (operations c))).

(** The unordered pairs of a location, smaller index first in the list. *)
Fixpoint pairs (l : list Z) : list (Z * Z) :=
  match l with
  | [] => []
  | a :: l' => map (λ b, (a, b)) l' ++ pairs l'
  end.

(** Modelled from the spec: [Circuit.coupling_graph] is the derived view
    of the "undirected pairs of qudits co-acted on by any multi-qudit
    op". *)
Definition coupling_graph (c : Circuit Gate) : list (Z * Z) :=
  remove_dups (concat (map (λ op, pairs (location op)) (operations c))).

(** Modelled from the spec: the coupling graph of a model "is a set of
    unordered qudit pairs", so membership ignores the order of the pair. *)
Definition in_coupling_graph (e : Z * Z) (cg : list (Z * Z)) : bool :=
  bool_decide (e ∈ cg) || bool_decide ((snd e, fst e) ∈ cg).

(** Subscription [l[i]] of a sequence: negative indices count from the
    end, anything out of range raises [IndexError]. *)
Definition subscript (l : list Z) (i : Z) : Res Z :=
  let n := Z.of_nat (length l) in
  let j := if i <? 0 then i + n else i in
  if (0 <=? j) && (j <? n)
  then match l !! Z.to_nat j with Some x => Ok x | None => Raise IndexError end
  else Raise IndexError.

(** Order of pairs, as tuples compare. *)
Definition tuple_lt (a b : Z * Z) : bool :=
  if fst a =? fst b then snd a <? snd b else fst a <? fst b.

Definition sum (l : list Z) : Z := foldr Z.add 0 l.

(** [(loc[e[0]], loc[e[1]])] *)
Definition map_edge (loc : list Z) (e : Z * Z) : Res (Z * Z) :=
  match subscript loc (fst e) with
  | Ok a =>
      match subscript loc (snd e) with
      | Ok b => Ok (a, b)
      | Raise x => Raise x
      end
  | Raise x => Raise x
  end.

(** Every endpoint of [edges] is an index into [loc]. *)
Definition location_covers (loc : list Z) (edges : list (Z * Z)) : Prop :=
  ∀ e, e ∈ edges →
    0 ≤ fst e < Z.of_nat (length loc) ∧ 0 ≤ snd e < Z.of_nat (length loc).

(** [any((old.location[e[0]], old.location[e[1]]) not in
    model.coupling_graph for e in edges)], the edges being visited in
    order. *)
Fixpoint any_edge_outside (model : MachineModel Gate) (loc : list Z)
    (edges : list (Z * Z)) : Res bool :=
  match edges with
  | [] => Ok false
  | e :: edges =>
      match map_edge loc e with
      | Ok p =>
          if negb (in_coupling_graph p (model_coupling_graph model))
          then Ok true
          else any_edge_outside model loc edges
      | Raise x => Raise x
      end
  end.

(** [sum(c.count(g) for g in c.gate_set if g.num_qudits == 1)] *)
Definition sq_count (c : Circuit Gate) : Z :=
  sum (map (count c) (filter (λ g, num_qudits g = 1) (gate_set c))).

(** [sum(c.count(g) for g in c.gate_set if g.num_qudits >= 2)] *)
Definition mq_count (c : Circuit Gate) : Z :=
  sum (map (count c) (filter (λ g, 2 ≤ num_qudits g) (gate_set c))).

(** [_replace_filter] (lines 696-717), closed over [model]. *)
Definition _replace_filter (model : MachineModel Gate)
    (new : Circuit Gate) (old : Operation Gate) : Res bool :=
  match as_circuit_gate (gate old) with
  | None => Ok true
  | Some org =>
      if existsb (λ g, negb (bool_decide (g ∈ model_gate_set model)))
                 (gate_set org)
      then Ok true
      else
        match any_edge_outside model (location old) (coupling_graph org) with
        | Raise x => Raise x
        | Ok true => Ok true
        | Ok false =>
            let org_sq_n := sq_count org in
            let org_mq_n := mq_count org in
            let new_sq_n := sq_count new in
            let new_mq_n := mq_count new in
            Ok (tuple_lt (new_mq_n, new_sq_n) (org_mq_n, org_sq_n))
        end
  end.

(** [_gen_replace_filter] (lines 692-718). *)
Definition _gen_replace_filter (model : MachineModel Gate)
    : Circuit Gate → Operation Gate → Res bool :=
  _replace_filter model.

(** The numbers of operations of a circuit that act on two qudits or
    more, and on a single qudit. *)
Definition multi_qudit_operations (c : Circuit Gate) : Z :=
  Z.of_nat (length (filter (λ op, 2 ≤ num_qudits (gate op)) (operations c))).

Definition single_qudit_operations (c : Circuit Gate) : Z :=
  Z.of_nat (length (filter (λ op, num_qudits (gate op) = 1) (operations c))).

(** *** [compile] (lines 35-268) *)

(** Modelled from the spec: the classes [UnitaryMatrix] and
    [StateVector] are not part of the sources at hand; [compile] reads
    their number of qudits and their radixes. *)
Record Shape := {
  shape_num_qudits : Z;
  shape_radixes : list Z
}.

(** The [input] argument after the dispatch of lines 91-104: a circuit,
    something [UnitaryMatrix.is_unitary] accepts (converted), something
    [StateVector.is_pure_state] accepts (converted), or anything else. *)
Inductive Input :=
| InCircuit (c : Circuit Gate)
| InUnitary (u : Shape)
| InState (s : Shape)
| InOther.

Definition input_radixes (i : Input) : list Z :=
  match i with
  | InCircuit c => circuit_radixes c
  | InUnitary u => shape_radixes u
  | InState s => shape_radixes s
  | InOther => []
  end.

Definition input_num_qudits (i : Input) : Z :=
  match i with
  | InCircuit c => circuit_num_qudits c
  | InUnitary u => shape_num_qudits u
  | InState s => shape_num_qudits s
  | InOther => 0
  end.

(** [all(r == 2 for r in radixes)] *)
Definition all_qubits (radixes : list Z) : bool :=
  forallb (λ r, r =? 2) radixes.

(** Modelled from the spec: [MachineModel(n)] is the "all-to-all
    [n]-qubit hardware with [{CNOT, U3}] native set". *)
Definition default_model (n : Z) : MachineModel Gate :=
  {| model_num_qudits := n;
     model_radixes := replicate (Z.to_nat n) 2;
     model_coupling_graph := pairs (map Z.of_nat (seq 0 (Z.to_nat n)));
     model_gate_set := [CNOTGate; U3Gate] |}.

(** Lines 114-115: [if model is None: model = MachineModel(input.num_qudits)]. *)
Definition chosen_model (input : Input) (model : option (MachineModel Gate))
    : MachineModel Gate :=
  match model with
  | None => default_model (input_num_qudits input)
  | Some m => m
  end.

(** No gate of the circuit acts on more qudits than the circuit has. *)
Definition circuit_wf (c : Circuit Gate) : Prop :=
  ∀ g, g ∈ gate_set c → num_qudits g ≤ circuit_num_qudits c.

(** The workflow builder [compile] hands its input to once the checks
    have passed. *)
Inductive WorkflowCall :=
| CircuitWorkflow (c : Circuit Gate) (model : MachineModel Gate)
| UnitaryWorkflow (u : Shape) (model : MachineModel Gate)
| StateprepWorkflow (s : Shape) (model : MachineModel Gate).

(** Lines 207-217: the widest-gate check on circuit inputs. *)
Definition has_oversized_gate (c : Circuit Gate) (max_synthesis_size : Z)
    : bool :=
  existsb (λ g, (max_synthesis_size <? num_qudits g)
                && negb (is_measurement_placeholder g))
          (gate_set c).

(** [compile], up to and including the choice of the workflow builder;
    no pass runs before that point.  [model], [optimization_level] and
    [max_synthesis_size] have their declared types, so the [isinstance]
    and [is_integer] guards on them pass; the warning of lines 134-138
    has no bearing on the result and is left out. *)
Definition compile (input : Input) (model : option (MachineModel Gate))
    (optimization_level max_synthesis_size : Z) : Res WorkflowCall :=
  match input with
  | InOther => Raise TypeError
  | _ =>
    if negb (all_qubits (input_radixes input)) then Raise ValueError else
    let model := chosen_model input model in
    if model_num_qudits model <? input_num_qudits input then Raise ValueError else
    if negb (all_qubits (model_radixes model)) then Raise ValueError else
    let model_mq_gates :=
      length (filter (λ g, 2 ≤ num_qudits g) (model_gate_set model)) in
    if (model_mq_gates =? 0)%nat && (1 <? input_num_qudits input)
    then Raise ValueError else
    if (optimization_level <? 1) || (4 <? optimization_level)
    then Raise ValueError else
    if max_synthesis_size <? 2 then Raise ValueError else
    match input with
    | InCircuit c =>
        if (max_synthesis_size <? circuit_num_qudits c)
           && has_oversized_gate c max_synthesis_size
        then Raise ValueError
        else Ok (CircuitWorkflow c model)
    | InUnitary utry =>
        if max_synthesis_size <? shape_num_qudits utry then Raise ValueError
        else Ok (UnitaryWorkflow utry model)
    | InState state =>
        if max_synthesis_size <? shape_num_qudits state then Raise ValueError
        else Ok (StateprepWorkflow state model)
    | InOther => Raise TypeError
    end
  end.

End Workflow.

End Compile.

(** ** Concrete instances

    Small instances of the interfaces above, on which the code is run in
    Part II. *)

Module LeapExample.

Import PyFloat Leap.

(** The float [m * 2^e]. *)
Definition dyadic (m e : Z) : float := binary_normalize prec emax m e false.

Definition fdiv (a b : float) : float := SFdiv prec emax a b.

(** A circuit is the list of the choices made layer after layer; a good
    choice halves the distance to the target, a bad one leaves it as it
    is. *)
Definition Choices : Type := list bool.

Definition good_layers (c : Choices) : Z :=
  Z.of_nat (length (filter (λ x, x = true) c)).

(** [2^-n] for the circuit with [n] good layers ([n] capped at 1000 to
    stay among the normal floats). *)
#[export] Instance halving_cost : CostFunctionGenerator Choices :=
  {| calc_cost c :=
       S754_finite false 4503599627370496 (-52 - Z.min (good_layers c) 1000) |}.

#[export] Instance two_way_generator : LayerGenerator Choices :=
  {| gen_initial_layer := [];
     gen_successors c := [c ++ [true]; c ++ [false]] |}.

(** Dijkstra's heuristic: the cost alone. *)
#[export] Instance dijkstra : HeuristicFunction Choices :=
  {| get_value c := calc_cost c |}.

#[export] Instance no_parameters : Instantiater Choices :=
  {| instantiate c := c |}.

Definition fsum (l : list float) : float := foldl fadd (of_int 0) l.

Definition mean (l : list float) : float :=
  fdiv (fsum l) (of_int (Z.of_nat (length l))).

(** Ordinary least squares, in floats; a single point, or equal
    abscissas, give [0/0]. *)
#[export] Instance least_squares : Regression :=
  {| fit xs ys :=
       let xs := map of_int xs in
       let xmean := mean xs in
       let ymean := mean ys in
       let ssxm := mean (map (λ x, fmul (fsub x xmean) (fsub x xmean)) xs) in
       let ssxym :=
         mean (zip_with (λ x y, fmul (fsub x xmean) (fsub y ymean)) xs ys) in
       let slope := fdiv ssxym ssxm in
       (slope, fsub ymean (fmul slope xmean)) |}.

(** A stable sort of a bucket by cost: insertion, from the right, of
    each entry before the first one that is not cheaper. *)
Fixpoint insert_by_cost {Circuit : Type} (x : Circuit * float)
    (l : list (Circuit * float)) : list (Circuit * float) :=
  match l with
  | [] => [x]
  | y :: l' => if flt (snd y) (snd x) then y :: insert_by_cost x l'
               else x :: y :: l'
  end.

Definition insertion_sort {Circuit : Type} (l : list (Circuit * float))
    : list (Circuit * float) :=
  foldr insert_by_cost [] l.

(** Success below [2^-6]; prefixes of at least three layers; at most two
    partial solutions per depth. *)
Definition leap : LEAPSynthesisPass :=
  {| success_threshold := dyadic 1 (-6);
     max_layer := None;
     no_progress_layers_allowed := 10;
     store_partial_solutions := true;
     partials_per_depth := 2;
     min_prefix_size := 3 |}.

(** The same pass, limited to two layers. *)
Definition shallow_leap : LEAPSynthesisPass :=
  {| success_threshold := dyadic 1 (-6);
     max_layer := Some 2;
     no_progress_layers_allowed := 10;
     store_partial_solutions := true;
     partials_per_depth := 2;
     min_prefix_size := 3 |}.

(** The same pass with a negative [partials_per_depth]. *)
Definition odd_leap : LEAPSynthesisPass :=
  {| success_threshold := dyadic 1 (-6);
     max_layer := None;
     no_progress_layers_allowed := 10;
     store_partial_solutions := true;
     partials_per_depth := -1;
     min_prefix_size := 3 |}.

(** The same pass, limited to three layers, and to ten. *)
Definition capped_leap : LEAPSynthesisPass :=
  {| success_threshold := dyadic 1 (-6);
     max_layer := Some 3;
     no_progress_layers_allowed := 10;
     store_partial_solutions := true;
     partials_per_depth := 2;
     min_prefix_size := 3 |}.

Definition roomy_leap : LEAPSynthesisPass :=
  {| success_threshold := dyadic 1 (-6);
     max_layer := Some 10;
     no_progress_layers_allowed := 10;
     store_partial_solutions := true;
     partials_per_depth := 2;
     min_prefix_size := 3 |}.

(** The same pass with room for one partial solution per depth. *)
Definition tight_leap : LEAPSynthesisPass :=
  {| success_threshold := dyadic 1 (-6);
     max_layer := None;
     no_progress_layers_allowed := 10;
     store_partial_solutions := true;
     partials_per_depth := 1;
     min_prefix_size := 3 |}.

(** A bucket of three partial solutions, the worst one first. *)
Definition three_partials : list (Choices * float) :=
  [([false], dyadic 1 0); ([true], dyadic 1 (-1));
   ([true; true], dyadic 1 (-2))].

(** A bucket with a cost that is not a number. *)
Definition nan_partials : list (Choices * float) :=
  [([true], S754_nan); ([false], dyadic 1 0)].

(** The state of a search that found a new best at each of the layers 1
    and 2 and is about to evaluate the successors of the node popped at
    depth 2. *)
Definition two_layers_deep : State Choices :=
  {| frontier :=
       add (add (add (add Frontier_init [] 0) [false] 1)
                [true; false] 2) [true; true; false] 3;
     best_dist := dyadic 1 (-2);
     best_circ := [true; true];
     best_layer := 2;
     best_dists := [dyadic 1 0; dyadic 1 (-1); dyadic 1 (-2)];
     best_layers := [0; 1; 2];
     last_prefix_layer := 0;
     psols := ∅;
     warned_layers := [] |}.

(** A state whose frontier is empty. *)
Definition exhausted : State Choices :=
  set_frontier (clear (frontier two_layers_deep)) two_layers_deep.

(** The circuit a run returned, and the partial solutions it stored. *)
Definition returned_circuit (r : list Event * option (Outcome Choices))
    : Choices :=
  match snd r with Some (Returned c _) => c | _ => [] end.

Definition returned_psols (r : list Event * option (Outcome Choices))
    : gmap Z (list (Choices * float)) :=
  match snd r with Some (Returned _ (Some ps)) => ps | _ => ∅ end.

End LeapExample.

(** ** A cost function that is not always a number *)

Module LeapNanExample.

Import PyFloat Leap LeapExample.

(** Circuits told apart by their number of layers. *)
Inductive Layers := Depth (n : nat).

(** Every circuit but the initial one has a cost that is not a number. *)
#[export] Instance undefined_cost : CostFunctionGenerator Layers :=
  {| calc_cost c := match c with
                    | Depth O => dyadic 1 0
                    | Depth (S _) => S754_nan
                    end |}.

#[export] Instance one_way_generator : LayerGenerator Layers :=
  {| gen_initial_layer := Depth 0;
     gen_successors c := match c with Depth n => [Depth (S n)] end |}.

#[export] Instance by_cost : HeuristicFunction Layers :=
  {| get_value c := calc_cost c |}.

#[export] Instance as_is : Instantiater Layers :=
  {| instantiate c := c |}.

End LeapNanExample.

Module CompileExample.

Import PyFloat Compile.

Inductive ExGate :=
| CNOT
| U3
| ISwap
| Toffoli
| Measure (width : Z)
| Block (id : nat).

#[export] Instance ExGate_eq_dec : EqDecision ExGate.
Proof. solve_decision. Defined.

#[export] Instance catalog : GateCatalog ExGate :=
  {| num_qudits g :=
       match g with
       | CNOT | ISwap | Block _ => 2
       | U3 => 1
       | Toffoli => 3
       | Measure width => width
       end;
     is_measurement_placeholder g :=
       match g with Measure _ => true | _ => false end;
     CNOTGate := CNOT;
     U3Gate := U3 |}.

Definition op (g : ExGate) (loc : list Z) : Operation ExGate :=
  {| gate := g; location := loc; params := [] |}.

Definition circuit (n : nat) (ops : list (Operation ExGate)) : Circuit ExGate :=
  {| circuit_num_qudits := Z.of_nat n;
     circuit_radixes := replicate n 2;
     operations := ops |}.

Definition cnot_u3_cnot : Circuit ExGate :=
  circuit 2 [op CNOT [0; 1]; op U3 [0]; op CNOT [0; 1]].

Definition iswap_only : Circuit ExGate :=
  circuit 2 [op ISwap [0; 1]].

(** Block 0 holds two CNOTs around a U3, block 1 an iSWAP. *)
#[export] Instance blocks : CircuitGates ExGate :=
  {| as_circuit_gate g :=
       match g with
       | Block 0 => Some cnot_u3_cnot
       | Block 1 => Some iswap_only
       | Block _ => Some (circuit 2 [])
       | _ => None
       end |}.

(** Three qubits in a line, with CNOT and U3 native. *)
Definition line : MachineModel ExGate :=
  {| model_num_qudits := 3;
     model_radixes := [2; 2; 2];
     model_coupling_graph := [(0, 1); (1, 2)];
     model_gate_set := [CNOT; U3] |}.

(** A model with single-qudit gates only. *)
Definition no_entangler : MachineModel ExGate :=
  {| model_num_qudits := 3;
     model_radixes := [2; 2; 2];
     model_coupling_graph := [(0, 1); (1, 2)];
     model_gate_set := [U3] |}.

(** A model with a qutrit. *)
Definition with_qutrit : MachineModel ExGate :=
  {| model_num_qudits := 3;
     model_radixes := [2; 3; 2];
     model_coupling_graph := [(0, 1); (1, 2)];
     model_gate_set := [CNOT; U3] |}.

(** A re-synthesised block with one CNOT and one U3. *)
Definition shorter : Circuit ExGate :=
  circuit 2 [op CNOT [0; 1]; op U3 [1]].

(** A re-synthesised block with the two CNOTs of block 0 and no U3. *)
Definition two_cnots : Circuit ExGate :=
  circuit 2 [op CNOT [0; 1]; op CNOT [0; 1]].

(** A re-synthesised block with the counts of block 0. *)
Definition same_counts : Circuit ExGate :=
  circuit 2 [op U3 [1]; op CNOT [0; 1]; op CNOT [0; 1]].

(** Four qubits measured at once. *)
Definition measured : Circuit ExGate :=
  circuit 4 [op U3 [0]; op (Measure 4) [0; 1; 2; 3]].

(** A three-qubit circuit with a gate on three qubits. *)
Definition wide : Circuit ExGate :=
  circuit 3 [op U3 [0]; op Toffoli [0; 1; 2]].

(** A unitary on three qubits. *)
Definition unitary3 : Input (Gate:=ExGate) :=
  InUnitary {| shape_num_qudits := 3; shape_radixes := [2; 2; 2] |}.

End CompileExample.

(** ** Further vocabulary for runs of [synthesize] *)

Module LeapObservations.

Import PyFloat Leap.

(** The depths of the nodes popped, in order. *)
Definition popped_layers (tr : list Event) : list Z :=
  omap (λ e, match e with Pop layer => Some layer | _ => None end) tr.

(** The layers at which a prefix was frozen, in order. *)
Definition freeze_layers (tr : list Event) : list Z :=
  omap (λ e, match e with AssignLastPrefixLayer layer => Some layer
                     | _ => None end) tr.

(** The [dist] arguments of the calls of [check_new_best], in order. *)
Definition checked_dists (tr : list Event) : list float :=
  omap (λ e, match e with CallCheckNewBest _ dist _ _ => Some dist
                     | _ => None end) tr.

(** The no-progress warnings logged. *)
Definition no_progress_warnings (tr : list Event) : list Z :=
  omap (λ e, match e with Warning (NoImprovement n) => Some n
                     | _ => None end) tr.

(** The layer counts of the successes logged. *)
Definition successes (tr : list Event) : list Z :=
  omap (λ e, match e with Debug (SuccessfulSynthesis n) => Some n
                     | _ => None end) tr.

(** Every entry of the frontier sits at a depth from [0] up to, and
    excluding, [ml]. *)
Definition depth_lt {Circuit : Type} (ml : Z) (fr : Frontier Circuit) : Prop :=
  Forall (λ e, 0 ≤ extra_data e < ml) (entries fr).

(** A bound on the rounds an entry at depth [d] can still cause when no
    node has more than [k] successors and layers stop at [ml]. *)
Definition weight (k : nat) (ml d : Z) : nat :=
  ((k + 2) ^ Z.to_nat (ml - d))%nat.

Definition work {Circuit : Type} (k : nat) (ml : Z) (fr : Frontier Circuit)
    : nat :=
  sum_list (map (λ e, weight k ml (extra_data e)) (entries fr)).

(** What a call has stored under [data['psols']] when it ends: a call
    that raises has stored nothing. *)
Definition written_psols {Circuit : Type} (o : Outcome Circuit)
    : option (gmap Z (list (Circuit * float))) :=
  match o with
  | Returned _ data_psols => data_psols
  | Raised _ => None
  end.

(** An entry of [psols] that pairs a circuit with its own cost, a cost
    that is not below the threshold. *)
Definition candidate_entry {Circuit : Type} `{!CostFunctionGenerator Circuit}
    (self : LEAPSynthesisPass) (p : Circuit * float) : Prop :=
  p.2 = calc_cost p.1 ∧ flt p.2 (success_threshold self) = false.

(** Every key of [ps] is among the depths [seen], and every bucket holds
    such entries only. *)
Definition psols_from {Circuit : Type} `{!CostFunctionGenerator Circuit}
    (self : LEAPSynthesisPass) (seen : list Z)
    (ps : gmap Z (list (Circuit * float))) : Prop :=
  ∀ layer bucket, ps !! layer = Some bucket →
    layer ∈ seen ∧ Forall (candidate_entry self) bucket.

End LeapObservations.

(** ** A pass that tolerates no layer without progress *)

Module LeapExampleMore.

Import PyFloat Leap LeapExample.

(** The pass of the example with [no_progress_layers_allowed = 0], a
    value the constructor lets through. *)
Definition zero_leap : LEAPSynthesisPass :=
  {| success_threshold := dyadic 1 (-6);
     max_layer := None;
     no_progress_layers_allowed := 0;
     store_partial_solutions := true;
     partials_per_depth := 2;
     min_prefix_size := 3 |}.

End LeapExampleMore.

(** ** Chains of replacements *)

Module ReplaceOrder.

Import PyFloat Compile.

Section Workflow.
Context {Gate : Type} `{!GateCatalog Gate} `{!CircuitGates Gate}.

(** [new] is accepted by the replace filter in place of a block of
    body [org] that satisfies the model: every gate of [org] is native,
    the edge test finds every edge on the coupling graph, and the
    filter answers true. *)
Definition replaces (model : MachineModel Gate) (new org : Circuit Gate)
    : Prop :=
  ∃ old : Operation Gate,
    as_circuit_gate (gate old) = Some org
    ∧ (∀ g, g ∈ gate_set org → g ∈ model_gate_set model)
    ∧ any_edge_outside model (location old) (coupling_graph org) = Ok false
    ∧ _gen_replace_filter model new old = Ok true.

End Workflow.

End ReplaceOrder.

(** ** Results of calls that may raise *)

Module Py.

Inductive Exn := TypeError | ValueError | IndexError | NotImplementedError.

(** A value or a raised exception; sequencing stops at the first
    exception. *)
Inductive Res (A : Type) :=
| Ok (a : A)
| Raise (e : Exn).
Arguments Ok {A} a.
Arguments Raise {A} e.

#[export] Instance Res_ret : MRet Res := λ A a, Ok a.

#[export] Instance Res_bind : MBind Res :=
  λ A B f r, match r with Ok a => f a | Raise e => Raise e end.

(** Subscription [l[i]] of a list: negative indices count from the end,
    anything out of range raises [IndexError]. *)
Definition subscript {A : Type} (l : list A) (i : Z) : Res A :=
  let n := Z.of_nat (length l) in
  let j := if i <? 0 then i + n else i in
  if (0 <=? j) && (j <? n)
  then match l !! Z.to_nat j with Some x => Ok x | None => Raise IndexError end
  else Raise IndexError.

(** [min(...)] of integers: an empty argument raises [ValueError]. *)
Definition min (l : list Z) : Res Z :=
  match l with
  | [] => Raise ValueError
  | n :: l' => Ok (foldl Z.min n l')
  end.

(** The exceptions of the checks of [compile]. *)
Definition of_check {A : Type} (r : Compile.Res A) : Res A :=
  match r with
  | Compile.Ok a => Ok a
  | Compile.Raise Compile.TypeError => Raise TypeError
  | Compile.Raise Compile.ValueError => Raise ValueError
  | Compile.Raise Compile.IndexError => Raise IndexError
  end.

End Py.

(** ** The construction of a LEAP pass ([leap.py], lines 42-179) *)

Module LeapConstruction.

Import PyFloat Py.
Import (notations) Stdlib.Strings.String.

Section Construction.
(** Python objects ([Any]) and layer generators. *)
Context {Value LayerGen : Type}.

(** The arguments of [LEAPSynthesisPass.__init__].  They have their
    declared types, so the [isinstance], [is_real_number] and
    [is_integer] guards of lines 102-129, 136-140 and 148-152 pass, and
    [min_prefix_size] is an integer. *)
Record InitArgs := {
  heuristic_function : Value;
  layer_generator : option LayerGen;
  success_threshold : float;
  cost : Value;
  max_layer : option Z;
  no_progress_layers_allowed : Z;
  store_partial_solutions : bool;
  partials_per_depth : Z;
  min_prefix_size : Z;
  instantiate_options : gmap String.string Value
}.

(** The attributes of the constructed object: those that [synthesize]
    and its helpers read, as the record of the embedding of
    [synthesize], and the others. *)
Record LEAPObject := {
  self_heuristic_function : Value;
  self_layer_gen : option LayerGen;
  self_cost : Value;
  self_instantiate_options : gmap String.string Value;
  self_fields : Leap.LEAPSynthesisPass
}.

(** [d.update(new)]: the entries of [new] replace those of [d]. *)
Definition update (d new : gmap String.string Value)
    : gmap String.string Value :=
  new ∪ d.

(** [__init__] (lines 131-166). *)
Definition __init__ (a : InitArgs) : Res LEAPObject :=
  if match max_layer a with Some ml => ml <=? 0 | None => false end
  then Raise ValueError
  else if min_prefix_size a <=? 0 then Raise ValueError
  else
    Ok {| self_heuristic_function := heuristic_function a;
          self_layer_gen := layer_generator a;
          self_cost := cost a;
          self_instantiate_options :=
            update {[ "cost_fn_gen"%string := cost a ]} (instantiate_options a);
          self_fields :=
            {| Leap.success_threshold := success_threshold a;
               Leap.max_layer := max_layer a;
               Leap.no_progress_layers_allowed := no_progress_layers_allowed a;
               Leap.store_partial_solutions := store_partial_solutions a;
               Leap.partials_per_depth := partials_per_depth a;
               Leap.min_prefix_size := min_prefix_size a |} |}.

(** Lines 175-179 of [synthesize]: the options every call of
    [instantiate] of one run receives, [seed] being [data.seed]. *)
Definition run_instantiate_options (self : LEAPObject) (seed : Value)
    : gmap String.string Value :=
  let instantiate_options := self_instantiate_options self in
  if bool_decide ("seed"%string ∉ dom instantiate_options)
  then <[ "seed"%string := seed ]> instantiate_options
  else instantiate_options.

End Construction.

Arguments InitArgs : clear implicits.
Arguments LEAPObject : clear implicits.

End LeapConstruction.

(** ** The workflows of [compile.py] (lines 219-689, 721-723) *)

Module CompileWorkflows.

Import PyFloat Compile Py.
Import (notations) Stdlib.Strings.String.

(** The gates that [compile.py] names besides [CNOTGate()] and
    [U3Gate()]. *)
Class StandardGates (Gate : Type) := {
  RZGate : Gate;
  SqrtXGate : Gate;
  SwapGate : Gate
}.

(** Modelled from the spec: [Circuit.from_unitary(U)] is to "wrap [U]
    as a single [CircuitGate] over [n = log2(dim)] qudits". *)
Class UnitaryCircuits (Gate : Type) := {
  from_unitary : Shape → Circuit Gate
}.

(** The float a decimal literal [m e x] denotes, for literals whose
    mantissa and power of ten are floats themselves: the quotient, or
    the product, rounded once. *)
Definition decimal (m e : Z) : float :=
  if e <? 0 then SFdiv prec emax (of_int m) (of_int (10 ^ (- e)))
  else of_int (m * 10 ^ e).

(** The objects found in option dictionaries and among the default
    arguments of the LEAP pass. *)
Inductive PyObject :=
| PyInt (n : Z)
| PyReal (x : float)
| PyStr (s : String.string)
| ScipyMinimizer
| HilbertSchmidtCostGenerator
| HilbertSchmidtResidualsGenerator
| AStarHeuristic.

Definition Options : Type := gmap String.string PyObject.

Section Passes.
Context {Gate : Type} `{!GateCatalog Gate} `{!CircuitGates Gate}.
Context `{!StandardGates Gate} `{!UnitaryCircuits Gate}.

(** Modelled from the spec: the layer generators of §4.3, each
    represented by its constructor call. *)
Inductive LayerGenerator :=
| FourParamGenerator
| SimpleLayerGenerator (two_qudit_gate : Gate)
| WideLayerGenerator (multi_qudit_gates : list Gate)
| SingleQuditLayerGenerator (gates : list Gate) (allow_repeats : bool).

Inductive HeuristicFunction := DijkstraHeuristic.

(** Modelled from the spec: the "key predicates" of §4.7. *)
Inductive PassPredicate :=
| WidthPredicate (width : Z)
| NotPredicate (predicate : PassPredicate)
| MultiPhysicalPredicate
| SinglePhysicalPredicate
| ChangePredicate
| GateCountPredicate (gates : list Gate).

(** Modelled from the spec: the passes of §4.7 to §4.10.  The classes
    belong to other modules; [compile.py] only constructs them.  A pass
    is represented by its constructor call, a keyword argument that is
    not given by [None], and the constructors are taken to accept what
    they are given, except the one of the LEAP pass, which is
    [LeapConstruction.__init__].  Where a constructor takes a workflow,
    the call gives one pass or a list of passes. *)
#[warnings="-register-all"]
Inductive BasePass :=
| UnfoldPass
| ExtractMeasurements
| RestoreMeasurements
| SetModelPass (model : MachineModel Gate)
| LogPass (msg : String.string)
| GreedyPlacementPass
| GeneralizedSabreLayoutPass
| GeneralizedSabreRoutingPass
| QuickPartitioner (block_size : Z)
| ExtendBlockSizePass (minimum_size : Z)
| ForEachBlockPass (loop_body : WorkflowLike)
    (replace_filter : option (Circuit Gate → Operation Gate → Compile.Res bool))
    (calculate_error_bound : option bool)
| IfThenElsePass (condition : PassPredicate) (on_true : WorkflowLike)
    (on_false : option WorkflowLike)
| WhileLoopPass (condition : PassPredicate) (loop_body : WorkflowLike)
| ScanningGateRemovalPass (success_threshold : float)
    (collection_filter : option (Operation Gate → bool))
    (instantiate_options : option Options)
| QSearchSynthesisPass (success_threshold : option float)
    (layer_generator : option LayerGenerator)
    (heuristic_function : option HeuristicFunction)
    (instantiate_options : option Options)
| LEAPSynthesisPass
    (self : LeapConstruction.LEAPObject PyObject LayerGenerator)
| Rebase2QuditGatePass (gate_in_circuit new_gate : list Gate)
    (max_depth max_retries : Z)
| FillSingleQuditGatesPass (success_threshold : float)
| LogErrorPass
| ApplyPlacement
| NOOPPass
| PassGroup (passes : WorkflowLike)
| U3Decomposition
| ZXZXZDecomposition
| GroupSingleQuditGatePass
with WorkflowLike :=
| OnePass (pass : BasePass)
| Passes (passes : list BasePass).

(** Modelled from the spec: [CompilationTask(circuit, workflow)]. *)
Record CompilationTask := {
  task_input : Circuit Gate;
  task_workflow : list BasePass
}.

(** Every pass constructed within a pass, itself included. *)
Fixpoint subpasses (p : BasePass) : list BasePass :=
  p :: match p with
       | ForEachBlockPass loop_body _ _ => subpasses_of loop_body
       | IfThenElsePass _ on_true on_false =>
           subpasses_of on_true
           ++ match on_false with Some w => subpasses_of w | None => [] end
       | WhileLoopPass _ loop_body => subpasses_of loop_body
       | PassGroup passes => subpasses_of passes
       | _ => []
       end
with subpasses_of (w : WorkflowLike) : list BasePass :=
  match w with
  | OnePass p => subpasses p
  | Passes ps =>
      (fix all (ps : list BasePass) : list BasePass :=
         match ps with
         | [] => []
         | p :: ps => subpasses p ++ all ps
         end) ps
  end.

Definition all_passes (workflow : list BasePass) : list BasePass :=
  subpasses_of (Passes workflow).

(** The LEAP passes among them. *)
Definition leap_passes (workflow : list BasePass)
    : list (LeapConstruction.LEAPObject PyObject LayerGenerator) :=
  omap (λ p, match p with LEAPSynthesisPass self => Some self | _ => None end)
    (all_passes workflow).

(** [_mq_gate_collection_filter] (lines 721-723).  Modelled from the
    spec: the location of an operation has "length [gate.num_qudits]",
    so [op.num_qudits] is the number of qudits of its gate. *)
Definition _mq_gate_collection_filter (op : Operation Gate) : bool :=
  1 <? num_qudits (gate op).

(** [_get_layer_gen] (lines 624-635). *)
Definition _get_layer_gen (circuit : Circuit Gate) (model : MachineModel Gate)
    : Res LayerGenerator :=
  let tq_gates := filter (λ gate, num_qudits gate = 2) (model_gate_set model) in
  let mq_gates := filter (λ gate, 2 < num_qudits gate) (model_gate_set model) in
  if (length tq_gates =? 1)%nat && (length mq_gates =? 0)%nat then
    if bool_decide (CNOTGate ∈ tq_gates) then Ok FourParamGenerator
    else
      g ← subscript tq_gates 0;
      Ok (SimpleLayerGenerator g)
  else Ok (WideLayerGenerator (tq_gates ++ mq_gates)).

(** [_get_single_qudit_gate_rebase_pass] (lines 638-689).  The warning
    of lines 645-650 has no bearing on the result and is left out. *)
Definition _get_single_qudit_gate_rebase_pass (model : MachineModel Gate)
    : Res BasePass :=
  let sq_gates := filter (λ g, num_qudits g = 1) (model_gate_set model) in
  if (length sq_gates =? 0)%nat then Ok NOOPPass
  else
    let instantiate_options : Options :=
      {[ "method"%string := PyStr "minimization";
         "minimizer"%string := ScipyMinimizer;
         "cost_fn_gen"%string := HilbertSchmidtCostGenerator ]} in
    let layer_generator := SingleQuditLayerGenerator sq_gates true in
    core_sq_rebase ←
      (if (length sq_gates =? 1)%nat then
         g ← subscript sq_gates 0;
         Ok (if bool_decide (g = U3Gate) then U3Decomposition else NOOPPass)
       else if (2 <=? length sq_gates)%nat then
         Ok (if bool_decide (RZGate ∈ sq_gates)
                && bool_decide (SqrtXGate ∈ sq_gates)
             then ZXZXZDecomposition else NOOPPass)
       else Ok NOOPPass);
    let core_sq_rebase :=
      match core_sq_rebase with
      | NOOPPass =>
          QSearchSynthesisPass None (Some layer_generator)
            (Some DijkstraHeuristic) (Some instantiate_options)
      | _ => core_sq_rebase
      end in
    Ok (PassGroup (Passes [
      IfThenElsePass (NotPredicate SinglePhysicalPredicate)
        (Passes [
          GroupSingleQuditGatePass;
          ForEachBlockPass (Passes [
            IfThenElsePass (NotPredicate SinglePhysicalPredicate)
              (OnePass core_sq_rebase) None
          ]) None None;
          UnfoldPass
        ]) None
    ])).

(** The lists that the three builders compute alike (lines 327-337,
    403-413 and 498-509). *)
Definition smallest_entangler_size (model : MachineModel Gate) : Res Z :=
  min (map num_qudits
         (filter (λ g, num_qudits g ≠ 1) (model_gate_set model))).

Definition non_native_gates (circuit : Circuit Gate)
    (model : MachineModel Gate) : list Gate :=
  filter (λ g, g ∉ model_gate_set model) (gate_set circuit).

Definition non_native_tq_gates (circuit : Circuit Gate)
    (model : MachineModel Gate) : list Gate :=
  let non_native_tq_gates :=
    filter (λ g, num_qudits g = 2) (non_native_gates circuit model) in
  if bool_decide (SwapGate ∉ model_gate_set model)
  then non_native_tq_gates ++ [SwapGate]
  else non_native_tq_gates.

Definition native_tq_gates (model : MachineModel Gate) : list Gate :=
  filter (λ g, num_qudits g = 2) (model_gate_set model).

Definition native_mq_gates (model : MachineModel Gate) : list Gate :=
  filter (λ g, 2 ≤ num_qudits g) (model_gate_set model).

Definition non_native_mq (circuit : Circuit Gate) (model : MachineModel Gate)
    : bool :=
  existsb (λ g, 2 <? num_qudits g) (non_native_gates circuit model).

(** [LEAPSynthesisPass(success_threshold=..., layer_generator=...,
    min_prefix_size=..., instantiate_options=...)], the other arguments
    at their defaults (lines 44-53). *)
Definition leap_arguments (success_threshold : float)
    (layer_generator : LayerGenerator) (min_prefix_size : Z)
    (instantiate_options : Options)
    : LeapConstruction.InitArgs PyObject LayerGenerator :=
  {| LeapConstruction.heuristic_function := AStarHeuristic;
     LeapConstruction.layer_generator := Some layer_generator;
     LeapConstruction.success_threshold := success_threshold;
     LeapConstruction.cost := HilbertSchmidtResidualsGenerator;
     LeapConstruction.max_layer := None;
     LeapConstruction.no_progress_layers_allowed := 10;
     LeapConstruction.store_partial_solutions := false;
     LeapConstruction.partials_per_depth := 25;
     LeapConstruction.min_prefix_size := min_prefix_size;
     LeapConstruction.instantiate_options := instantiate_options |}.

(** The fields of the pass so constructed. *)
Definition leap_fields (synthesis_epsilon : float) (min_prefix_size : Z)
    : Leap.LEAPSynthesisPass :=
  {| Leap.success_threshold := synthesis_epsilon;
     Leap.max_layer := None;
     Leap.no_progress_layers_allowed := 10;
     Leap.store_partial_solutions := false;
     Leap.partials_per_depth := 25;
     Leap.min_prefix_size := min_prefix_size |}.

(** [error_threshold is not None] *)
Definition is_not_None {A : Type} (x : option A) : bool :=
  match x with Some _ => true | None => false end.

(** [_opt1_workflow] (lines 301-375). *)
Definition _opt1_workflow (circuit : Circuit Gate) (model : MachineModel Gate)
    (synthesis_epsilon : float) (max_synthesis_size : Z)
    (error_threshold : option float) (error_sim_size : Z)
    : Res (list BasePass) :=
  layer_gen ← _get_layer_gen circuit model;
  let scan_mq :=
    ScanningGateRemovalPass synthesis_epsilon
      (Some _mq_gate_collection_filter)
      (Some {[ "multistarts"%string := PyInt 4;
               "ftol"%string := PyReal (decimal 5 (-16));
               "gtol"%string := PyReal (decimal 1 (-15)) ]}) in
  let qsearch :=
    QSearchSynthesisPass (Some synthesis_epsilon) (Some layer_gen) None None in
  leap ← LeapConstruction.__init__
           (leap_arguments synthesis_epsilon layer_gen 3 ∅);
  let direct_synthesis :=
    IfThenElsePass (WidthPredicate 3) (OnePass qsearch)
      (Some (OnePass (LEAPSynthesisPass leap))) in
  single_qudit_gate_rebase ← _get_single_qudit_gate_rebase_pass model;
  smallest_entangler_size ← smallest_entangler_size model;
  let irebase :=
    Rebase2QuditGatePass (non_native_tq_gates circuit model)
      (native_tq_gates model) 3 5 in
  let multi_qudit_gate_rebase :=
    if non_native_mq circuit model then direct_synthesis else irebase in
  Ok [
    SetModelPass model;

    LogPass "Mapping circuit.";
    GreedyPlacementPass;
    GeneralizedSabreLayoutPass;
    GeneralizedSabreRoutingPass;

    LogPass "Retargeting multi-qudit gates.";
    QuickPartitioner max_synthesis_size;
    ExtendBlockSizePass smallest_entangler_size;
    QuickPartitioner error_sim_size;
    ForEachBlockPass
      (OnePass (ForEachBlockPass
         (OnePass (IfThenElsePass
            (NotPredicate MultiPhysicalPredicate)
            (OnePass multi_qudit_gate_rebase)
            (Some (Passes [FillSingleQuditGatesPass synthesis_epsilon;
                           scan_mq]))))
         (Some (_gen_replace_filter model)) None))
      None (Some (is_not_None error_threshold));
    UnfoldPass;

    LogPass "Retargeting single-qudit gates.";
    single_qudit_gate_rebase;

    LogErrorPass;
    ApplyPlacement
  ].

(** [_opt2_workflow] (lines 378-461). *)
Definition _opt2_workflow (circuit : Circuit Gate) (model : MachineModel Gate)
    (synthesis_epsilon : float) (max_synthesis_size : Z)
    (error_threshold : option float) (error_sim_size : Z)
    : Res (list BasePass) :=
  let inst_ops : Options :=
    {[ "multistarts"%string := PyInt 4;
       "ftol"%string := PyReal (decimal 5 (-12));
       "gtol"%string := PyReal (decimal 1 (-14)) ]} in
  layer_gen ← _get_layer_gen circuit model;
  let scan := ScanningGateRemovalPass synthesis_epsilon None None in
  let qsearch :=
    QSearchSynthesisPass (Some synthesis_epsilon) (Some layer_gen) None
      (Some inst_ops) in
  leap ← LeapConstruction.__init__
           (leap_arguments synthesis_epsilon layer_gen 5 inst_ops);
  let direct_synthesis :=
    IfThenElsePass (WidthPredicate 3) (OnePass qsearch)
      (Some (OnePass (LEAPSynthesisPass leap))) in
  single_qudit_gate_rebase ← _get_single_qudit_gate_rebase_pass model;
  smallest_entangler_size ← smallest_entangler_size model;
  let irebase :=
    Rebase2QuditGatePass (non_native_tq_gates circuit model)
      (native_tq_gates model) 3 5 in
  let multi_qudit_gate_rebase :=
    if non_native_mq circuit model then direct_synthesis else irebase in
  Ok [
    SetModelPass model;

    LogPass "Mapping circuit.";
    GreedyPlacementPass;
    GeneralizedSabreLayoutPass;
    GeneralizedSabreRoutingPass;

    LogPass "Retargeting multi-qudit gates.";
    QuickPartitioner max_synthesis_size;
    ExtendBlockSizePass smallest_entangler_size;
    QuickPartitioner error_sim_size;
    ForEachBlockPass
      (OnePass (ForEachBlockPass
         (OnePass (IfThenElsePass
            (NotPredicate MultiPhysicalPredicate)
            (OnePass multi_qudit_gate_rebase)
            None))
         (Some (_gen_replace_filter model)) None))
      None (Some (is_not_None error_threshold));
    UnfoldPass;

    LogPass "Retargeting single-qudit gates.";
    single_qudit_gate_rebase;

    LogPass "Attempting to delete gates.";
    QuickPartitioner max_synthesis_size;
    ExtendBlockSizePass smallest_entangler_size;
    QuickPartitioner error_sim_size;
    ForEachBlockPass
      (OnePass (ForEachBlockPass (OnePass scan) None None))
      None (Some (is_not_None error_threshold));
    UnfoldPass;

    LogErrorPass;
    ApplyPlacement
  ].

(** [_opt3_workflow] (lines 464-595). *)
Definition _opt3_workflow (circuit : Circuit Gate) (model : MachineModel Gate)
    (synthesis_epsilon : float) (max_synthesis_size : Z)
    (error_threshold : option float) (error_sim_size : Z)
    : Res (list BasePass) :=
  let inst_ops : Options :=
    {[ "multistarts"%string := PyInt 8;
       "method"%string := PyStr "minimization";
       "ftol"%string := PyReal (decimal 5 (-16));
       "gtol"%string := PyReal (decimal 1 (-15)) ]} in
  layer_gen ← _get_layer_gen circuit model;
  let scan := ScanningGateRemovalPass synthesis_epsilon None None in
  let scan_mq :=
    ScanningGateRemovalPass synthesis_epsilon
      (Some _mq_gate_collection_filter) None in
  let qsearch :=
    QSearchSynthesisPass (Some synthesis_epsilon) (Some layer_gen) None
      (Some inst_ops) in
  leap ← LeapConstruction.__init__
           (leap_arguments synthesis_epsilon layer_gen 7 inst_ops);
  let direct_synthesis :=
    IfThenElsePass (WidthPredicate 4) (OnePass qsearch)
      (Some (OnePass (LEAPSynthesisPass leap))) in
  single_qudit_gate_rebase ← _get_single_qudit_gate_rebase_pass model;
  smallest_entangler_size ← smallest_entangler_size model;
  let irebase :=
    Rebase2QuditGatePass (non_native_tq_gates circuit model)
      (native_tq_gates model) 3 5 in
  let multi_qudit_gate_rebase :=
    if non_native_mq circuit model then direct_synthesis else irebase in
  Ok [
    SetModelPass model;

    LogPass "Attempting to delete multi-qudit gates.";
    WhileLoopPass ChangePredicate
      (Passes [
        QuickPartitioner max_synthesis_size;
        QuickPartitioner error_sim_size;
        ForEachBlockPass
          (OnePass (ForEachBlockPass (OnePass scan_mq) None None))
          None (Some (is_not_None error_threshold));
        UnfoldPass
      ]);

    LogPass "Mapping circuit.";
    GreedyPlacementPass;
    GeneralizedSabreLayoutPass;
    GeneralizedSabreRoutingPass;

    LogPass "Retargeting multi-qudit gates.";
    QuickPartitioner max_synthesis_size;
    ExtendBlockSizePass smallest_entangler_size;
    QuickPartitioner error_sim_size;
    ForEachBlockPass
      (OnePass (ForEachBlockPass
         (OnePass (IfThenElsePass
            (NotPredicate MultiPhysicalPredicate)
            (OnePass multi_qudit_gate_rebase)
            None))
         (Some (_gen_replace_filter model)) None))
      None (Some (is_not_None error_threshold));
    UnfoldPass;

    WhileLoopPass (GateCountPredicate (native_mq_gates model))
      (Passes [
        LogPass "Resynthesizing blocks.";
        QuickPartitioner max_synthesis_size;
        ExtendBlockSizePass smallest_entangler_size;
        QuickPartitioner error_sim_size;
        ForEachBlockPass
          (OnePass (ForEachBlockPass (OnePass direct_synthesis)
             (Some (_gen_replace_filter model)) None))
          None (Some (is_not_None error_threshold));
        UnfoldPass
      ]);

    LogPass "Retargeting single-qudit gates.";
    single_qudit_gate_rebase;

    WhileLoopPass ChangePredicate
      (Passes [
        LogPass "Attempting to delete gates.";
        QuickPartitioner max_synthesis_size;
        QuickPartitioner error_sim_size;
        ForEachBlockPass
          (OnePass (ForEachBlockPass (OnePass scan) None None))
          None (Some (is_not_None error_threshold));
        UnfoldPass
      ]);

    LogErrorPass;
    ApplyPlacement
  ].

(** [_opt4_workflow] (lines 598-608). *)
Definition _opt4_workflow (circuit : Circuit Gate) (model : MachineModel Gate)
    (synthesis_epsilon : float) (max_synthesis_size : Z)
    (error_threshold : option float) (error_sim_size : Z)
    : Res (list BasePass) :=
  Raise NotImplementedError.

(** [_stateprep_workflow] (lines 611-621). *)
Definition _stateprep_workflow (state : Shape) (model : MachineModel Gate)
    (optimization_level : Z) (synthesis_epsilon : float)
    (max_synthesis_size : Z) (error_threshold : option float)
    (error_sim_size : Z) : Res CompilationTask :=
  Raise NotImplementedError.

(** [_circuit_workflow] (lines 271-298). *)
Definition _circuit_workflow (circuit : Circuit Gate)
    (model : MachineModel Gate) (optimization_level : Z)
    (synthesis_epsilon : float) (max_synthesis_size : Z)
    (error_threshold : option float) (error_sim_size : Z)
    : Res CompilationTask :=
  let workflow_builders :=
    [_opt1_workflow; _opt2_workflow; _opt3_workflow; _opt4_workflow] in
  workflow_builder ← subscript workflow_builders (optimization_level - 1);
  let workflow := [UnfoldPass; ExtractMeasurements] in
  built ← workflow_builder circuit model synthesis_epsilon max_synthesis_size
             error_threshold error_sim_size;
  let workflow := workflow ++ built in
  let workflow := workflow ++ [RestoreMeasurements] in
  Ok {| task_input := circuit; task_workflow := workflow |}.

(** [compile] (lines 35-265), up to the task that is handed to the
    compiler: the checks, then the workflow of the kind of input. *)
Definition compile_task (input : Input) (model : option (MachineModel Gate))
    (optimization_level max_synthesis_size : Z) (synthesis_epsilon : float)
    (error_threshold : option float) (error_sim_size : Z)
    : Res CompilationTask :=
  call ← of_check (compile input model optimization_level max_synthesis_size);
  match call with
  | CircuitWorkflow input model =>
      _circuit_workflow input model optimization_level synthesis_epsilon
        max_synthesis_size error_threshold error_sim_size
  | UnitaryWorkflow utry model =>
      _circuit_workflow (from_unitary utry) model optimization_level
        synthesis_epsilon max_synthesis_size error_threshold error_sim_size
  | StateprepWorkflow state model =>
      _stateprep_workflow state model optimization_level synthesis_epsilon
        max_synthesis_size error_threshold error_sim_size
  end.

End Passes.

End CompileWorkflows.

(** ** Gates for the examples of the workflows *)

Module WorkflowExample.

Import PyFloat Compile Py CompileWorkflows.

Inductive StdGate := CX | U | RZ | SX | Swap | ISwap | CCX | Whole (n : Z).

#[export] Instance StdGate_eq_dec : EqDecision StdGate.
Proof. solve_decision. Defined.

#[export] Instance std_catalog : GateCatalog StdGate :=
  {| num_qudits g :=
       match g with
       | CX | Swap | ISwap => 2
       | U | RZ | SX => 1
       | CCX => 3
       | Whole n => n
       end;
     is_measurement_placeholder g := false;
     CNOTGate := CX;
     U3Gate := U |}.

#[export] Instance std_gates : StandardGates StdGate :=
  {| RZGate := RZ; SqrtXGate := SX; SwapGate := Swap |}.

#[export] Instance no_blocks : CircuitGates StdGate :=
  {| as_circuit_gate g := None |}.

#[export] Instance whole : UnitaryCircuits StdGate :=
  {| from_unitary u :=
       {| circuit_num_qudits := shape_num_qudits u;
          circuit_radixes := shape_radixes u;
          operations :=
            [{| gate := Whole (shape_num_qudits u);
                location := map Z.of_nat (seq 0 (Z.to_nat (shape_num_qudits u)));
                params := [] |}] |} |}.

(** Two qubits, CNOT and U3 native. *)
Definition cx_u3 : MachineModel StdGate :=
  {| model_num_qudits := 2;
     model_radixes := [2; 2];
     model_coupling_graph := [(0, 1)];
     model_gate_set := [CX; U] |}.

(** One qubit, U3 alone native. *)
Definition u3_only : MachineModel StdGate :=
  {| model_num_qudits := 1;
     model_radixes := [2];
     model_coupling_graph := [];
     model_gate_set := [U] |}.

(** Three qubits in a line, iSWAP, RZ and SqrtX native. *)
Definition iswap_rz_sx : MachineModel StdGate :=
  {| model_num_qudits := 3;
     model_radixes := [2; 2; 2];
     model_coupling_graph := [(0, 1); (1, 2)];
     model_gate_set := [ISwap; RZ; SX] |}.

Definition std_op (g : StdGate) (loc : list Z) : Operation StdGate :=
  {| gate := g; location := loc; params := [] |}.

(** An iSWAP on two qubits. *)
Definition one_iswap : Circuit StdGate :=
  {| circuit_num_qudits := 2;
     circuit_radixes := [2; 2];
     operations := [std_op ISwap [0; 1]] |}.

(** A U3 on one qubit. *)
Definition one_u3 : Circuit StdGate :=
  {| circuit_num_qudits := 1;
     circuit_radixes := [2];
     operations := [std_op U [0]] |}.

(** A Toffoli among CNOTs on three qubits. *)
Definition toffoli_cx : Circuit StdGate :=
  {| circuit_num_qudits := 3;
     circuit_radixes := [2; 2; 2];
     operations := [std_op CX [0; 1]; std_op CCX [0; 1; 2]; std_op CX [1; 2]] |}.

(** A state on two qubits. *)
Definition state2 : Input (Gate:=StdGate) :=
  InState {| shape_num_qudits := 2; shape_radixes := [2; 2] |}.

(** A state on one qubit. *)
Definition state1 : Input (Gate:=StdGate) :=
  InState {| shape_num_qudits := 1; shape_radixes := [2] |}.

(** Two qubits with CNOT alone native, and with CNOT and RZ. *)
Definition cx_only : MachineModel StdGate :=
  {| model_num_qudits := 2;
     model_radixes := [2; 2];
     model_coupling_graph := [(0, 1)];
     model_gate_set := [CX] |}.

Definition cx_rz : MachineModel StdGate :=
  {| model_num_qudits := 2;
     model_radixes := [2; 2];
     model_coupling_graph := [(0, 1)];
     model_gate_set := [CX; RZ] |}.

End WorkflowExample.

(** ** Arguments for the examples of the construction *)

Module ConstructionExample.

Import PyFloat Compile Py CompileWorkflows WorkflowExample.
Import (notations) Stdlib.Strings.String.

(** The arguments that the builder of level 2 gives the constructor,
    with a seed of the caller's among the options. *)
Definition seeded_arguments
    : LeapConstruction.InitArgs PyObject (LayerGenerator (Gate:=StdGate)) :=
  leap_arguments (decimal 1 (-10)) FourParamGenerator 5
    {[ "multistarts"%string := PyInt 4; "seed"%string := PyInt 1 ]}.

(** The arguments of the pass of the example, with a limit of two
    layers. *)
Definition shallow_arguments
    : LeapConstruction.InitArgs PyObject (LayerGenerator (Gate:=StdGate)) :=
  {| LeapConstruction.heuristic_function := AStarHeuristic;
     LeapConstruction.layer_generator := None;
     LeapConstruction.success_threshold := LeapExample.dyadic 1 (-6);
     LeapConstruction.cost := HilbertSchmidtResidualsGenerator;
     LeapConstruction.max_layer := Some 2;
     LeapConstruction.no_progress_layers_allowed := 10;
     LeapConstruction.store_partial_solutions := true;
     LeapConstruction.partials_per_depth := 2;
     LeapConstruction.min_prefix_size := 3;
     LeapConstruction.instantiate_options := ∅ |}.

End ConstructionExample.

(* ===================================================================== *)
(** * Part II. Properties *)
(* ===================================================================== *)

(** ** Facts about float comparisons and arithmetic *)

Module PyFloatFacts.

Import PyFloat.

Lemma flt_nan_l b : flt S754_nan b = false.
Proof. reflexivity. Qed.

Lemma flt_nan_r a : flt a S754_nan = false.
Proof. by destruct a. Qed.

(** A NaN is neither below nor at least any float. *)
Lemma fge_nan_l b : fge S754_nan b = false.
Proof. by destruct b. Qed.

Lemma fmul_nan_l b : fmul S754_nan b = S754_nan.
Proof. reflexivity. Qed.

Lemma fadd_nan_l b : fadd S754_nan b = S754_nan.
Proof. reflexivity. Qed.

Lemma fadd_nan_r a : fadd a S754_nan = S754_nan.
Proof. by destruct a. Qed.

Lemma fsub_nan_l b : fsub S754_nan b = S754_nan.
Proof. reflexivity. Qed.

Lemma isnan_true a : isnan a = true ↔ a = S754_nan.
Proof. destruct a; simpl; split; congruence. Qed.

(** A strict comparison that succeeds entails the non-strict one. *)
Lemma flt_fle a b : flt a b = true → fle a b = true.
Proof. unfold flt, fle, SFltb, SFleb. by destruct (SFcompare a b) as [[]|]. Qed.

(** Swapping the operands of a comparison reverses its outcome. *)
Lemma SFcompare_swap a b : SFcompare b a = CompOpp <$> SFcompare a b.
Proof.
  destruct a as [[]|[]| |[] ma ea], b as [[]|[]| |[] mb eb]; simpl; try done;
    change (Pos.compare_cont Eq) with Pos.compare;
    rewrite (Z.compare_antisym ea eb), (Pos.compare_antisym ma mb);
    destruct (ea ?= eb); simpl; try done;
    destruct (ma ?= mb)%positive; done.
Qed.

Lemma SFcompare_nan a b :
  SFcompare a b = None ↔ isnan a = true ∨ isnan b = true.
Proof.
  destruct a as [[]|[]| |[]], b as [[]|[]| |[]]; simpl; split;
    try done; try tauto; try (intros [|]; done); auto.
Qed.

(** [a < b] and [a >= b] exclude each other ... *)
Lemma flt_fge_excl a b : flt a b = true → fge a b = false.
Proof.
  unfold flt, fge, SFltb, SFleb. rewrite (SFcompare_swap a b).
  by destruct (SFcompare a b) as [[]|].
Qed.

(** ... and one of them holds as soon as neither operand is NaN. *)
Lemma not_flt_fge a b :
  isnan a = false → isnan b = false → flt a b = false → fge a b = true.
Proof.
  intros Ha Hb. unfold flt, fge, SFltb, SFleb. rewrite (SFcompare_swap a b).
  destruct (SFcompare a b) as [[]|] eqn:E; simpl; try done.
  apply SFcompare_nan in E as [E|E]; congruence.
Qed.

(** [<] is asymmetric, NaN included. *)
Lemma flt_asym a b : flt a b = true → flt b a = false.
Proof.
  unfold flt, SFltb. rewrite (SFcompare_swap a b).
  by destruct (SFcompare a b) as [[]|].
Qed.

(** [<=] is transitive (a NaN operand falsifies a premise). *)
Lemma fle_trans a b c : fle a b = true → fle b c = true → fle a c = true.
Proof.
  unfold fle, SFleb.
  destruct a as [[]|[]| |[] ma ea], b as [[]|[]| |[] mb eb],
           c as [[]|[]| |[] mc ec];
    simpl; try reflexivity; try discriminate;
    change (Pos.compare_cont Eq) with Pos.compare;
    destruct (Z.compare_spec ea eb), (Z.compare_spec eb ec),
             (Z.compare_spec ea ec);
    simpl; try reflexivity; try discriminate; try lia; subst;
    destruct (Pos.compare_spec ma mb), (Pos.compare_spec mb mc),
             (Pos.compare_spec ma mc);
    simpl; try reflexivity; try discriminate; try lia.
Qed.

(** Two floats equal to a third are not one below the other. *)
Lemma feq_flt_excl a b d :
  feq a d = true → feq b d = true → flt a b = false.
Proof.
  unfold feq, flt, SFeqb, SFltb.
  destruct a as [[]|[]| |[] ma ea], b as [[]|[]| |[] mb eb],
           d as [[]|[]| |[] md ed];
    simpl; try reflexivity; try discriminate;
    change (Pos.compare_cont Eq) with Pos.compare;
    destruct (Z.compare_spec ea ed), (Z.compare_spec eb ed),
             (Z.compare_spec ea eb);
    simpl; try reflexivity; try discriminate; try lia; subst;
    destruct (Pos.compare_spec ma md), (Pos.compare_spec mb md),
             (Pos.compare_spec ma mb);
    simpl; try reflexivity; try discriminate; try lia.
Qed.

(** Between numbers, "not greater" is [<=]. *)
Lemma not_flt_fle a b :
  isnan a = false → isnan b = false → flt b a = false → fle a b = true.
Proof. intros Ha Hb Hlt. by apply (not_flt_fge b a). Qed.

End PyFloatFacts.

(** ** The two helper methods of the LEAP pass *)

Module LeapHelpers.

Import PyFloat PyFloatFacts Leap.

(** C1.  A call [check_new_best(layer, dist, best_layer, best_dist)]
    answers true exactly when either [dist < best_dist] and
    ([best_dist >= success_threshold] or [layer <= best_layer]), or
    [dist < success_threshold] and [layer < best_layer]. *)
Theorem check_new_best_iff (self : LEAPSynthesisPass)
    (layer : Z) (dist : float) (best_layer : Z) (best_dist : float) :
  check_new_best self layer dist best_layer best_dist = true ↔
    (flt dist best_dist = true
     ∧ (fge best_dist (success_threshold self) = true ∨ layer ≤ best_layer))
    ∨ (flt dist (success_threshold self) = true ∧ layer < best_layer).
Proof.
  unfold check_new_best.
  rewrite orb_true_iff, !andb_true_iff, orb_true_iff.
  rewrite Z.leb_le, Z.ltb_lt. reflexivity.
Qed.

Section LeapCondition.
Context `{!Regression}.

(** A NaN slope or intercept makes the prediction NaN. *)
Lemma predicted_nan m y_int new_layer :
  isnan m = true ∨ isnan y_int = true →
  isnan (predicted m y_int new_layer) = true.
Proof.
  unfold predicted.
  intros [Hm | Hy]; apply isnan_true in Hm || apply isnan_true in Hy; subst.
  - by rewrite fmul_nan_l, fadd_nan_l.
  - by rewrite fadd_nan_r.
Qed.

Lemma amax_ge x a : a ∈ x → a ≤ amax x.
Proof.
  unfold amax. generalize (hd 0 x). intros d.
  induction x as [|b x IH]; [by intros ?%elem_of_nil|].
  intros [->|Hin]%elem_of_cons; simpl; [lia|].
  specialize (IH Hin). lia.
Qed.

Lemma amin_le x a : a ∈ x → amin x ≤ a.
Proof.
  unfold amin. generalize (hd 0 x). intros d.
  induction x as [|b x IH]; [by intros ?%elem_of_nil|].
  intros [->|Hin]%elem_of_cons; simpl; [lia|].
  specialize (IH Hin). lia.
Qed.

Lemma amax_elem x : x ≠ [] → amax x ∈ x.
Proof.
  destruct x as [|a x]; [done|]. intros _. unfold amax. simpl hd.
  assert (Hfold : ∀ l, foldr Z.max a l = a ∨ foldr Z.max a l ∈ l).
  { induction l as [|b l IH]; simpl; [by left|].
    destruct (Z.max_spec b (foldr Z.max a l)) as [[_ ->]|[_ ->]].
    - destruct IH as [IH|IH]; [by left|right; by right].
    - right. by left. }
  destruct (Hfold x) as [E|E]; simpl.
  - rewrite E, Z.max_id. by left.
  - destruct (Z.max_spec a (foldr Z.max a x)) as [[_ ->]|[_ ->]];
      [by right|by left].
Qed.

Lemma amin_elem x : x ≠ [] → amin x ∈ x.
Proof.
  destruct x as [|a x]; [done|]. intros _. unfold amin. simpl hd.
  assert (Hfold : ∀ l, foldr Z.min a l = a ∨ foldr Z.min a l ∈ l).
  { induction l as [|b l IH]; simpl; [by left|].
    destruct (Z.min_spec b (foldr Z.min a l)) as [[_ ->]|[_ ->]].
    - right. by left.
    - destruct IH as [IH|IH]; [by left|right; by right]. }
  destruct (Hfold x) as [E|E]; simpl.
  - rewrite E, Z.min_id. by left.
  - destruct (Z.min_spec a (foldr Z.min a x)) as [[_ ->]|[_ ->]];
      [by left|by right].
Qed.

(** [np.amax(x) == np.amin(x)] says that the values of [x] are all
    identical. *)
Lemma amax_amin_identical x :
  amax x = amin x ↔ ∀ a b, a ∈ x → b ∈ x → a = b.
Proof.
  split.
  - intros E a b Ha Hb.
    pose proof (amax_ge x a Ha). pose proof (amin_le x a Ha).
    pose proof (amax_ge x b Hb). pose proof (amin_le x b Hb). lia.
  - intros Hall. destruct x as [|a x]; [done|].
    apply Hall; [apply amax_elem|apply amin_elem]; done.
Qed.

(** What [linregress] refuses. *)
Lemma linregress_rejects_iff x (y : list float) :
  linregress_rejects x y = true ↔
    x = [] ∨ y = []
    ∨ ((1 < length x)%nat ∧ ∀ a b, a ∈ x → b ∈ x → a = b)
    ∨ length x ≠ length y.
Proof.
  unfold linregress_rejects.
  rewrite !orb_true_iff, andb_true_iff, negb_true_iff, !Nat.eqb_eq,
    Nat.eqb_neq, Nat.ltb_lt, Z.eqb_eq, amax_amin_identical,
    !length_zero_iff_nil.
  tauto.
Qed.

(** C2 (amended).  [linregress] raises [ValueError] exactly when the
    history is empty on either side, holds several layers that are all
    identical, or has lists of different lengths; a call
    [check_leap_condition(new_layer, best_dist, best_layers, best_dists,
    last_prefix_layer)] then raises it too, nothing having been
    appended.  On any other history the call fits the regression, forms
    [predicted = m * new_layer + y_int], and leaves the two history
    lists extended by [new_layer] and [best_dist]; it answers false
    whenever the regression result (hence the prediction) is NaN, and
    otherwise answers true exactly when [predicted - best_dist < 0] and
    [new_layer - last_prefix_layer >= min_prefix_size]. *)
Theorem check_leap_condition_spec (self : LEAPSynthesisPass)
    (new_layer : Z) (best_dist : float)
    (best_layers : list Z) (best_dists : list float)
    (last_prefix_layer : Z) :
  match linregress best_layers best_dists with
  | Raises e =>
      e = ValueError
      ∧ (best_layers = [] ∨ best_dists = []
         ∨ ((1 < length best_layers)%nat
            ∧ ∀ a b, a ∈ best_layers → b ∈ best_layers → a = b)
         ∨ length best_layers ≠ length best_dists)
      ∧ check_leap_condition self new_layer best_dist best_layers best_dists
          last_prefix_layer
        = Raises ValueError
  | Returns (m, y_int) =>
      (m, y_int) = fit best_layers best_dists
      ∧ best_layers ≠ [] ∧ length best_layers = length best_dists
      ∧ (length best_layers = 1%nat
         ∨ ∃ a b, a ∈ best_layers ∧ b ∈ best_layers ∧ a ≠ b)
      ∧ ∃ (answer : bool) (logged : list Event),
          check_leap_condition self new_layer best_dist best_layers
            best_dists last_prefix_layer
          = Returns (answer, best_layers ++ [new_layer],
                     best_dists ++ [best_dist], logged)
          ∧ (isnan m = true ∨ isnan y_int = true
             ∨ isnan (predicted m y_int new_layer) = true → answer = false)
          ∧ (isnan (predicted m y_int new_layer) = false →
             (answer = true ↔
                flt (fsub (predicted m y_int new_layer) best_dist) (of_int 0)
                = true
                ∧ min_prefix_size self ≤ new_layer - last_prefix_layer))
  end.
Proof.
  unfold check_leap_condition, linregress.
  destruct (linregress_rejects best_layers best_dists) eqn:Hrej.
  { split; [done|]. split; [|done]. by apply linregress_rejects_iff. }
  destruct (fit best_layers best_dists) as [m y_int] eqn:Hfit.
  split; [done|].
  assert (Hacc : ¬ (best_layers = [] ∨ best_dists = []
    ∨ ((1 < length best_layers)%nat
       ∧ ∀ a b, a ∈ best_layers → b ∈ best_layers → a = b)
    ∨ length best_layers ≠ length best_dists)).
  { rewrite <- linregress_rejects_iff. by rewrite Hrej. }
  split; [tauto|].
  split; [destruct (decide (length best_layers = length best_dists)); tauto|].
  split.
  { destruct (decide (length best_layers = 1%nat)) as [|Hone]; [by left|].
    right. destruct best_layers as [|a [|b rest]]; [tauto|done|].
    destruct (decide (a = b)) as [->|Hab].
    - destruct (decide (Forall (λ c, c = b) rest)) as [Hall|Hsome].
      + exfalso. apply Hacc. right. right. left. split; [simpl; lia|].
        rewrite Forall_forall in Hall.
        intros x y. rewrite !elem_of_cons.
        intros [->|[->|Hx]] [->|[->|Hy]]; try done;
          rewrite ?(Hall _ Hx), ?(Hall _ Hy); done.
      + apply not_Forall_Exists in Hsome; [|apply _].
        apply Exists_exists in Hsome as (c & Hc & Hne).
        exists b, c. rewrite !elem_of_cons. auto.
    - exists a, b. rewrite !elem_of_cons. auto. }
  pose proof (predicted_nan m y_int new_layer) as Hnan.
  fold (predicted m y_int new_layer).
  destruct (isnan (predicted m y_int new_layer)) eqn:Hn.
  - eexists _, _. split; [reflexivity|]. split; [done|]. intros; done.
  - eexists _, _. split; [reflexivity|]. split.
    + intros [Hm|[Hy|Hq]]; [| |congruence]; discriminate Hnan; auto.
    + intros _. by rewrite andb_true_iff, Z.leb_le.
Qed.

End LeapCondition.

End LeapHelpers.

(** ** Runs of [synthesize] *)

Module LeapRun.

Import PyFloat PyFloatFacts Leap.

(** *** The monitor *)

Section Monitor.
Variable ok_dist : float → Prop.

Lemma bound_after_app b t1 t2 :
  bound_after b (t1 ++ t2) = bound_after (bound_after b t1) t2.
Proof. revert b. induction t1 as [|[] t1 IH]; intros b; simpl; auto. Qed.

Lemma best_after_app cur t1 t2 :
  best_after cur (t1 ++ t2) = best_after (best_after cur t1) t2.
Proof. revert cur. induction t1 as [|[] t1 IH]; intros cur; simpl; auto. Qed.

Lemma accepts_app b cur t1 t2 :
  accepts ok_dist b cur (t1 ++ t2) ↔
  accepts ok_dist b cur t1
  ∧ accepts ok_dist (bound_after b t1) (best_after cur t1) t2.
Proof.
  revert b cur. induction t1 as [|e t1 IH]; intros b cur; simpl.
  - tauto.
  - destruct e; rewrite ?IH; tauto.
Qed.

(** The freeze layer only grows along an accepted trace. *)
Lemma accepts_bound_mono b cur tr :
  accepts ok_dist b cur tr → b ≤ bound_after b tr.
Proof.
  revert b cur. induction tr as [|e tr IH]; intros b cur; simpl; [lia|].
  destruct e; intros H; destruct_and?; try (eapply IH; eassumption).
  etrans; [eassumption|]. eapply IH; eassumption.
Qed.

(** Every pop of an accepted trace is at the freeze layer or deeper. *)
Lemma accepts_pops b cur tr layer :
  accepts ok_dist b cur tr → Pop layer ∈ tr → b ≤ layer.
Proof.
  revert b cur. induction tr as [|e tr IH]; intros b cur Hacc Hin.
  - by apply elem_of_nil in Hin.
  - apply elem_of_cons in Hin as [<- | Hin].
    + simpl in Hacc. tauto.
    + destruct e; simpl in Hacc; destruct_and?;
        try (eapply IH; eassumption).
      etrans; [eassumption|]. eapply IH; eassumption.
Qed.

(** Every call of [check_new_best] in an accepted trace has an
    admissible [dist]. *)
Lemma accepts_calls b cur tr layer dist best_layer best_dist :
  accepts ok_dist b cur tr →
  CallCheckNewBest layer dist best_layer best_dist ∈ tr → ok_dist dist.
Proof.
  revert b cur. induction tr as [|e tr IH]; intros b cur Hacc Hin.
  - by apply elem_of_nil in Hin.
  - apply elem_of_cons in Hin as [<- | Hin].
    + simpl in Hacc. tauto.
    + destruct e; simpl in Hacc; destruct_and?; eapply IH; eassumption.
Qed.

(** The values assigned to [best_dist] along an accepted trace descend
    strictly, starting below the current value. *)
Lemma accepts_descending b cur tr :
  accepts ok_dist b cur tr →
  Sorted (λ prev next, flt next prev = true)
    (from_option (λ d, [d]) [] cur ++ assigned_best_dists tr).
Proof.
  revert b cur. induction tr as [|e tr IH]; intros b cur Hacc.
  - unfold assigned_best_dists. simpl. rewrite app_nil_r.
    destruct cur; simpl; repeat constructor.
  - destruct e; simpl in Hacc;
      try (unfold assigned_best_dists; simpl;
           fold (assigned_best_dists tr); eapply IH; apply Hacc).
    destruct Hacc as [Hd Hacc]. apply IH in Hacc.
    unfold assigned_best_dists in *. simpl in *.
    destruct cur as [d|]; simpl; [|done].
    constructor; [done|]. by constructor.
Qed.

End Monitor.

(** A weaker requirement on [dist] accepts more traces. *)
Lemma accepts_weaken (P Q : float → Prop) b cur tr :
  (∀ d, P d → Q d) → accepts P b cur tr → accepts Q b cur tr.
Proof.
  intros HPQ. revert b cur.
  induction tr as [|e tr IH]; intros b cur; simpl; [done|].
  destruct e; try apply IH; intros Hacc; destruct_and?; repeat split; auto.
Qed.

(** *** The frontier *)

Section FrontierFacts.
Context {Circuit : Type} `{!HeuristicFunction Circuit}.

Lemma pop_min_nil (l : list (Entry Circuit)) : pop_min l = None ↔ l = [].
Proof.
  destruct l as [|e l]; simpl; [done|].
  destruct (pop_min l) as [[m rest]|]; [destruct (entry_lt m e)|]; done.
Qed.

(** [pop_min] splits the entries into one of them and the others. *)
Lemma pop_min_perm (l : list (Entry Circuit)) m rest :
  pop_min l = Some (m, rest) → l ≡ₚ m :: rest.
Proof.
  revert m rest. induction l as [|e l IH]; intros m rest; simpl; [done|].
  destruct (pop_min l) as [[m' rest']|] eqn:E.
  - destruct (entry_lt m' e); intros [= <- <-]; [|done].
    rewrite (IH _ _ eq_refl). apply Permutation_swap.
  - apply pop_min_nil in E as ->. by intros [= <- <-].
Qed.

Lemma empty_true (fr : Frontier Circuit) : empty fr = true ↔ entries fr = [].
Proof. unfold empty. by destruct (entries fr). Qed.

Lemma pop_contents (fr fr' : Frontier Circuit) c layer :
  pop fr = Some (c, layer, fr') →
  contents fr ≡ₚ (c, layer) :: contents fr'.
Proof.
  unfold pop, contents.
  destruct (pop_min (entries fr)) as [[m rest]|] eqn:E; [|done].
  intros [= <- <- <-]. simpl. by rewrite (pop_min_perm _ _ _ E).
Qed.

Lemma pop_depth_ge b (fr fr' : Frontier Circuit) c layer :
  depth_ge b fr → pop fr = Some (c, layer, fr') →
  b ≤ layer ∧ depth_ge b fr'.
Proof.
  unfold depth_ge, pop.
  destruct (pop_min (entries fr)) as [[m rest]|] eqn:E; [|done].
  intros Hfr [= <- <- <-]. simpl.
  rewrite (pop_min_perm _ _ _ E) in Hfr. by apply Forall_cons in Hfr.
Qed.

Lemma pop_nonempty (fr : Frontier Circuit) :
  empty fr = false → is_Some (pop fr).
Proof.
  unfold pop. intros He.
  destruct (pop_min (entries fr)) as [[m rest]|] eqn:E; [done|].
  apply pop_min_nil, empty_true in E. congruence.
Qed.

Lemma add_depth_ge b (fr : Frontier Circuit) c layer :
  depth_ge b (add fr c layer) ↔ depth_ge b fr ∧ b ≤ layer.
Proof.
  unfold depth_ge, add. simpl. rewrite Forall_app, Forall_singleton. done.
Qed.

Lemma clear_depth_ge b (fr : Frontier Circuit) : depth_ge b (clear fr).
Proof. constructor. Qed.

Lemma depth_ge_weaken b b' (fr : Frontier Circuit) :
  b' ≤ b → depth_ge b fr → depth_ge b' fr.
Proof.
  unfold depth_ge. intros Hb Hfr.
  eapply Forall_impl; [exact Hfr|]. simpl. intros; lia.
Qed.

Lemma contents_add (fr : Frontier Circuit) c layer :
  contents (add fr c layer) = contents fr ++ [(c, layer)].
Proof. unfold contents, add. simpl. by rewrite map_app. Qed.

Lemma contents_clear (fr : Frontier Circuit) : contents (clear fr) = [].
Proof. reflexivity. Qed.

End FrontierFacts.

(** *** One candidate, one batch, one round *)

(** Case analysis of [eval_successor]: the successful candidate, then
    the others by new best, refusal of the history by [linregress],
    outcome of the leap test, storing of partial solutions and layer
    limit. *)
Ltac eval_successor_cases_with Hs Hnb Hrej Hleap Hmax :=
  unfold eval_successor;
  destruct (flt (calc_cost _) (success_threshold _)) eqn:Hs;
  [ intros [= <- <-]
  | destruct (check_new_best _ _ _ _ _) eqn:Hnb;
    [ unfold new_best, check_leap_condition, linregress; simpl;
      destruct (linregress_rejects _ _) eqn:Hrej;
      [ intros [= <- <-]; simpl
      | destruct (fit _ _) as [? ?]; simpl;
        destruct (isnan (fadd _ _));
        [|destruct (flt _ _ && (_ <=? _)) eqn:Hleap]; unfold form_prefix;
        destruct (store_partial_solutions _),
                 (below_max_layer _ _) eqn:Hmax;
        intros [= <- <-]; simpl ]
    | destruct (store_partial_solutions _), (below_max_layer _ _) eqn:Hmax;
      intros [= <- <-]; simpl ] ].

Ltac eval_successor_cases Hs Hnb Hleap Hmax :=
  let Hrej := fresh "Hrej" in
  eval_successor_cases_with Hs Hnb Hrej Hleap Hmax.

Section Run.
Context {Circuit : Type}.
Context `{!CostFunctionGenerator Circuit} `{!LayerGenerator Circuit}.
Context `{!HeuristicFunction Circuit} `{!Instantiater Circuit} `{!Regression}.
Context `{!ListSort Circuit}.

Implicit Types (self : LEAPSynthesisPass) (st : State Circuit).
Implicit Types (layer b : Z) (ev : list Event) (fl : Flow Circuit).

(** When [dist] is not below the threshold, only the first clause of
    [check_new_best] can hold. *)
Lemma check_new_best_not_success self layer dist best_layer best_dist :
  flt dist (success_threshold self) = false →
  check_new_best self layer dist best_layer best_dist
  = flt dist best_dist
    && (fge best_dist (success_threshold self) || (layer <=? best_layer)).
Proof.
  intros Hs. unfold check_new_best. rewrite Hs. simpl. apply orb_false_r.
Qed.

Lemma eval_successor_accepts self layer st c b ev fl :
  b ≤ layer + 1 → depth_ge b (frontier st) →
  eval_successor self layer st c = (ev, fl) →
  accepts (evaluated_not_success self) b (Some (best_dist st)) ev
  ∧ match fl with
    | Next st' =>
        depth_ge (bound_after b ev) (frontier st')
        ∧ best_after (Some (best_dist st)) ev = Some (best_dist st')
        ∧ bound_after b ev ≤ layer + 1
    | Stop _ => True
    end.
Proof.
  intros Hb Hfr.
  assert (Hok : flt (calc_cost c) (success_threshold self) = false →
                evaluated_not_success self (calc_cost c)) by (split; eauto).
  eval_successor_cases Hs Hnb Hleap Hmax; try done;
    specialize (Hok eq_refl);
    try (rewrite check_new_best_not_success in Hnb by done;
         apply andb_true_iff in Hnb as [Hlt _]);
    split_and?; try done; try lia;
    rewrite ?add_depth_ge; split_and?; try apply clear_depth_ge;
    try done; lia.
Qed.

Lemma eval_successors_accepts self layer circuits st b ev fl :
  b ≤ layer + 1 → depth_ge b (frontier st) →
  eval_successors self layer circuits st = (ev, fl) →
  accepts (evaluated_not_success self) b (Some (best_dist st)) ev
  ∧ match fl with
    | Next st' =>
        depth_ge (bound_after b ev) (frontier st')
        ∧ best_after (Some (best_dist st)) ev = Some (best_dist st')
        ∧ bound_after b ev ≤ layer + 1
    | Stop _ => True
    end.
Proof.
  revert st b ev fl.
  induction circuits as [|c circuits IH]; intros st b ev fl Hb Hfr; simpl.
  { intros [= <- <-]. done. }
  destruct (eval_successor self layer st c) as [ev1 [st1|o]] eqn:E1;
    pose proof (eval_successor_accepts _ _ _ _ _ _ _ Hb Hfr E1) as [Ha1 H1].
  - destruct (eval_successors self layer circuits st1) as [ev2 fl2] eqn:E2.
    intros [= <- <-]. destruct H1 as (Hfr1 & Hbest1 & Hb1).
    destruct (IH _ _ _ _ Hb1 Hfr1 E2) as [Ha2 H2].
    rewrite accepts_app, bound_after_app, best_after_app, Hbest1. done.
  - intros [= <- <-]. done.
Qed.

Lemma iteration_accepts self st b ev fl :
  depth_ge b (frontier st) →
  iteration self st = (ev, fl) →
  accepts (evaluated_not_success self) b (Some (best_dist st)) ev
  ∧ match fl with
    | Next st' =>
        depth_ge (bound_after b ev) (frontier st')
        ∧ best_after (Some (best_dist st)) ev = Some (best_dist st')
    | Stop _ => True
    end.
Proof.
  intros Hfr. unfold iteration.
  destruct (pop (frontier st)) as [[[top layer] fr]|] eqn:Hpop.
  2: { intros [= <- <-]. done. }
  destruct (pop_depth_ge _ _ _ _ _ Hfr Hpop) as [Hl Hfr'].
  destruct (length (gen_successors top) =? 0)%nat.
  { intros [= <- <-]. simpl. done. }
  destruct (eval_successors _ _ _ _) as [ev1 [st1|o]] eqn:E1.
  - assert (Hb : b ≤ layer + 1) by lia.
    destruct (eval_successors_accepts _ _ _ (set_frontier fr st) _ _ _ Hb Hfr' E1)
      as (Ha & Hfr1 & Hbest1 & _).
    unfold warn_no_progress.
    destruct (no_progress_layers_allowed self =? 0);
      [|destruct (_ && _ && _)]; intros [= <- <-]; simpl;
      rewrite ?app_nil_r, ?accepts_app, ?bound_after_app, ?best_after_app;
      simpl; split_and?; done.
  - assert (Hb : b ≤ layer + 1) by lia.
    destruct (eval_successors_accepts _ _ _ (set_frontier fr st) _ _ _ Hb Hfr' E1)
      as (Ha & _).
    intros [= <- <-]. simpl. done.
Qed.

Lemma while_loop_accepts self fuel st b :
  depth_ge b (frontier st) →
  accepts (evaluated_not_success self) b (Some (best_dist st))
    (fst (while_loop self fuel st)).
Proof.
  revert st b. induction fuel as [|fuel IH]; intros st b Hfr; simpl.
  - by destruct (empty (frontier st)).
  - destruct (empty (frontier st)); [done|].
    destruct (iteration self st) as [ev [st'|o]] eqn:E;
      destruct (iteration_accepts _ _ _ _ _ Hfr E) as [Ha H']; [|done].
    destruct H' as [Hfr' Hbest].
    specialize (IH _ _ Hfr'). rewrite <- Hbest in IH.
    destruct (while_loop self fuel st') as [ev' r]. simpl in *.
    by rewrite accepts_app.
Qed.

(** The whole trace of a run is accepted by the monitor started at layer
    [0] with no current [best_dist]. *)
Lemma synthesize_accepts self fuel :
  accepts (evaluated_not_success self) 0 None (fst (synthesize self fuel)).
Proof.
  unfold synthesize.
  destruct (flt _ _); [simpl; done|].
  pose proof (while_loop_accepts self fuel initial_state 0) as Ha.
  destruct (while_loop self fuel initial_state) as [ev r]. simpl in *.
  split; [done|]. apply Ha.
  unfold initial_state, depth_ge. simpl. by repeat constructor.
Qed.

(** *** Properties of whole runs *)

(** C4.  Once a prefix freeze is recorded at layer [L] (the assignment
    [last_prefix_layer = L]), every circuit popped from the frontier
    afterwards, in a run of any length, sits at depth [L] or deeper. *)
Theorem prefix_freeze_safety self fuel pre L post layer :
  fst (synthesize self fuel) = pre ++ AssignLastPrefixLayer L :: post →
  Pop layer ∈ post →
  L ≤ layer.
Proof.
  intros Htr Hpop.
  pose proof (synthesize_accepts self fuel) as Ha.
  rewrite Htr in Ha. apply accepts_app in Ha as [_ Ha].
  simpl in Ha. destruct Ha as [_ Ha].
  eapply accepts_pops; eassumption.
Qed.

Lemma Sorted_weaken {A} (R S : A → A → Prop) (l : list A) :
  (∀ x y, R x y → S x y) → Sorted R l → Sorted S l.
Proof.
  intros HRS. induction 1 as [|x l Hl IH Hhd]; constructor; [done|].
  destruct Hhd; constructor; auto.
Qed.

(** C5.  Over one call of [synthesize], the values taken by [best_dist]
    never go up: each assignment to [best_dist] stores a value no
    greater than the one it replaces. *)
Theorem best_dist_non_increasing self fuel :
  Sorted (λ prev next, fle next prev = true)
    (assigned_best_dists (fst (synthesize self fuel))).
Proof.
  pose proof (synthesize_accepts self fuel) as Ha.
  apply accepts_descending in Ha. simpl in Ha.
  eapply Sorted_weaken; [|exact Ha]. intros x y. apply flt_fle.
Qed.

(** The facts about the calls of [check_new_best] that hold for every
    cost function, NaN-valued ones included. *)
Lemma check_new_best_calls self fuel layer dist best_layer best_dist :
  CallCheckNewBest layer dist best_layer best_dist ∈ fst (synthesize self fuel) →
  evaluated_not_success self dist
  ∧ flt dist (success_threshold self) && (layer <? best_layer) = false
  ∧ (check_new_best self layer dist best_layer best_dist = true →
     flt dist best_dist = true).
Proof.
  intros Hin.
  pose proof (accepts_calls _ _ _ _ _ _ _ _ (synthesize_accepts self fuel) Hin)
    as Hok.
  split; [done|]. destruct Hok as [Hs _]. split.
  - by rewrite Hs.
  - rewrite check_new_best_not_success by done.
    intros [? _]%andb_true_iff. done.
Qed.

(** C10 (amended).  Within [synthesize], no call of [check_new_best]
    has [dist < success_threshold], a candidate below the threshold
    having been returned beforehand.  Hence the second clause of
    [check_new_best] never holds in such a call, a call that answers true
    has [dist < best_dist], and the values assigned to [best_dist]
    descend strictly.  When no cost is a NaN, and the threshold is none
    either, every call has [dist >= success_threshold]; a NaN [dist] is
    neither below the threshold nor at least the threshold. *)
Theorem check_new_best_in_synthesize self fuel :
  (∀ layer dist best_layer best_dist,
     CallCheckNewBest layer dist best_layer best_dist
       ∈ fst (synthesize self fuel) →
     flt dist (success_threshold self) = false
     ∧ flt dist (success_threshold self) && (layer <? best_layer) = false
     ∧ (check_new_best self layer dist best_layer best_dist = true →
        flt dist best_dist = true)
     ∧ ((∀ c : Circuit, isnan (calc_cost c) = false) →
        isnan (success_threshold self) = false →
        fge dist (success_threshold self) = true))
  ∧ Sorted (λ prev next, flt next prev = true)
      (assigned_best_dists (fst (synthesize self fuel))).
Proof.
  split.
  - intros layer dist best_layer best_dist Hin.
    destruct (check_new_best_calls _ _ _ _ _ _ Hin)
      as ([Hs [c ->]] & Hsnd & Hacc).
    split_and?; try done. intros Hcost Hthr. by apply not_flt_fge.
  - pose proof (synthesize_accepts self fuel) as Ha.
    by apply accepts_descending in Ha.
Qed.

(** *** The prefix freeze *)

(** C3.  Whenever the prefix-freeze condition holds for a new best
    circuit found at depth [layer + 1], the freeze block (lines 259-263)
    records the freeze and leaves a frontier that was cleared and then
    re-seeded with that circuit only, at depth [layer + 1]; the re-seed
    takes place if [max_layer] is [None] or [layer + 1 < max_layer], and
    otherwise the frontier is left empty.  When the candidate has been
    dealt with, the frontier still holds nothing but that circuit at
    depth [layer + 1] (pushed a second time by the common push of line
    276, under the same test), or nothing at all. *)
Theorem freeze_reseeds_frontier self layer st circuit :
  prefix_freeze_condition self layer st circuit = true →
  (∀ st0,
     last_prefix_layer (form_prefix self layer circuit st0) = layer + 1
     ∧ contents (frontier (form_prefix self layer circuit st0))
       = match max_layer self with
         | None => [(circuit, layer + 1)]
         | Some ml =>
             if decide (layer + 1 < ml) then [(circuit, layer + 1)] else []
         end)
  ∧ ∃ ev st',
      eval_successor self layer st circuit = (ev, Next st')
      ∧ AssignLastPrefixLayer (layer + 1) ∈ ev
      ∧ last_prefix_layer st' = layer + 1
      ∧ contents (frontier st')
        = match max_layer self with
          | None => [(circuit, layer + 1); (circuit, layer + 1)]
          | Some ml =>
              if decide (layer + 1 < ml)
              then [(circuit, layer + 1); (circuit, layer + 1)] else []
          end.
Proof.
  unfold prefix_freeze_condition.
  intros [[Hs%negb_true_iff Hnb]%andb_true_iff Hleap]%andb_true_iff.
  assert (Hmax : below_max_layer self (layer + 1)
                 = match max_layer self with
                   | None => true
                   | Some ml => bool_decide (layer + 1 < ml)
                   end).
  { unfold below_max_layer. destruct (max_layer self) as [ml|]; [|done].
    destruct (Z.ltb_spec (layer + 1) ml);
      [by rewrite bool_decide_eq_true_2|by rewrite bool_decide_eq_false_2; [|lia]]. }
  split.
  - intros st0. unfold form_prefix. rewrite Hmax.
    destruct (max_layer self) as [ml|]; [|done].
    by destruct (decide (layer + 1 < ml));
      [rewrite bool_decide_eq_true_2|rewrite bool_decide_eq_false_2].
  - unfold eval_successor. rewrite Hs, Hnb. unfold new_best. simpl.
    destruct (check_leap_condition _ _ _ _ _ _) as [[[[leap ls] ds] evs]|e];
      [|done].
    subst leap. unfold form_prefix. simpl. rewrite Hmax.
    destruct (max_layer self) as [ml|];
      [destruct (decide (layer + 1 < ml));
       [rewrite bool_decide_eq_true_2 by done
       |rewrite bool_decide_eq_false_2 by done]|];
      destruct (store_partial_solutions self);
      simpl; eexists _, _; (split; [reflexivity|]); simpl; split_and?;
      try done;
      rewrite !elem_of_cons, elem_of_app, !elem_of_cons; auto 10.
Qed.

(** *** Exhaustion of the frontier *)

Lemma best_after_last cur tr :
  best_after cur tr
  = match last (assigned_best_dists tr) with Some d => Some d | None => cur end.
Proof.
  revert cur. induction tr as [|e tr IH]; intros cur; [done|].
  destruct e; simpl; try apply IH.
  rewrite IH. unfold assigned_best_dists. simpl.
  fold (assigned_best_dists tr).
  destruct (assigned_best_dists tr) as [|d' l] eqn:E; [reflexivity|].
  change (last (dist :: d' :: l)) with (last (d' :: l)).
  pose proof (last_is_Some (d' :: l)) as [_ [d ->]]; done.
Qed.

(** The events of a candidate, batch or round never include the
    exhaustion warning; when the loop goes on they include no exit
    record at all, and the recorded best stays the cost of the recorded
    best circuit. *)
Lemma eval_successor_records self layer st c ev fl :
  eval_successor self layer st c = (ev, fl) →
  Forall (λ e, e ≠ Warning FrontierEmptied) ev
  ∧ match fl with
    | Next st' =>
        Forall (λ e, is_exit_record e = false) ev
        ∧ (best_recorded st → best_recorded st')
    | Stop _ => True
    end.
Proof.
  unfold best_recorded.
  eval_successor_cases Hs Hnb Hleap Hmax;
    split_and?; try done; by repeat constructor.
Qed.

Lemma eval_successors_records self layer circuits st ev fl :
  eval_successors self layer circuits st = (ev, fl) →
  Forall (λ e, e ≠ Warning FrontierEmptied) ev
  ∧ match fl with
    | Next st' =>
        Forall (λ e, is_exit_record e = false) ev
        ∧ (best_recorded st → best_recorded st')
    | Stop _ => True
    end.
Proof.
  revert st ev fl.
  induction circuits as [|c circuits IH]; intros st ev fl; simpl.
  { intros [= <- <-]. done. }
  destruct (eval_successor self layer st c) as [ev1 [st1|o]] eqn:E1;
    destruct (eval_successor_records _ _ _ _ _ _ E1) as [H1 H1'].
  - destruct (eval_successors self layer circuits st1) as [ev2 fl2] eqn:E2.
    destruct (IH _ _ _ E2) as [H2 H2']. intros [= <- <-].
    rewrite Forall_app. split; [done|].
    destruct fl2; [|done]. rewrite Forall_app.
    destruct H1' as [? Hr1], H2' as [? Hr2]. split_and?; auto.
  - intros [= <- <-]. done.
Qed.

Lemma iteration_records self st ev fl :
  iteration self st = (ev, fl) →
  Forall (λ e, e ≠ Warning FrontierEmptied) ev
  ∧ match fl with
    | Next st' =>
        Forall (λ e, is_exit_record e = false) ev
        ∧ (best_recorded st → best_recorded st')
    | Stop _ => True
    end.
Proof.
  unfold iteration.
  destruct (pop (frontier st)) as [[[top layer] fr]|].
  2: { intros [= <- <-]. done. }
  destruct (length (gen_successors top) =? 0)%nat.
  { intros [= <- <-]. split_and?; try done; by repeat constructor. }
  destruct (eval_successors _ _ _ _) as [ev1 [st1|o]] eqn:E1;
    destruct (eval_successors_records _ _ _ _ _ _ E1) as [H1 H1'].
  - destruct H1' as [H1' Hrec]. unfold warn_no_progress.
    destruct (no_progress_layers_allowed self =? 0);
      [|destruct (_ && _ && _)]; intros [= <- <-]; simpl;
      rewrite ?app_nil_r; split_and?; try done;
      repeat (first [apply Forall_cons; split | apply Forall_app; split
                    | apply Forall_nil ]); done.
  - intros [= <- <-]. split; [|done]. by constructor.
Qed.

Lemma while_loop_emptied self fuel st b tr out :
  depth_ge b (frontier st) → best_recorded st →
  while_loop self fuel st = (tr, out) →
  Warning FrontierEmptied ∈ tr →
  ∃ pre st_f,
    tr = pre ++ [Warning FrontierEmptied;
                 Warning (ReturningBest (best_layer st_f) (best_dist st_f))]
    ∧ out = Some (Returned (best_circ st_f) (stored_psols self st_f))
    ∧ best_recorded st_f
    ∧ best_after (Some (best_dist st)) pre = Some (best_dist st_f)
    ∧ Forall (λ e, is_exit_record e = false) pre.
Proof.
  revert st b tr out.
  induction fuel as [|fuel IH]; intros st b tr out Hfr Hrec; simpl.
  - destruct (empty (frontier st)); intros [= <- <-] Hin.
    + exists [], st. done.
    + by apply elem_of_nil in Hin.
  - destruct (empty (frontier st)).
    { intros [= <- <-] _. exists [], st. done. }
    destruct (iteration self st) as [ev [st'|o]] eqn:E;
      destruct (iteration_records _ _ _ _ E) as [Hne H'];
      destruct (iteration_accepts _ _ _ _ _ Hfr E) as [_ Ha].
    + destruct (while_loop self fuel st') as [ev' r] eqn:E'.
      intros [= <- <-] Hin. destruct H' as [Hex Hrec'], Ha as [Hfr' Hbest].
      apply elem_of_app in Hin as [Hin|Hin].
      { rewrite Forall_forall in Hne. by apply Hne in Hin. }
      destruct (IH _ _ _ _ Hfr' (Hrec' Hrec) E' Hin)
        as (pre & st_f & -> & -> & Hrf & Hbf & Hexf).
      exists (ev ++ pre), st_f. rewrite <- app_assoc. split_and?; try done.
      * by rewrite best_after_app, Hbest.
      * by apply Forall_app.
    + intros [= <- <-] Hin.
      rewrite Forall_forall in Hne. by apply Hne in Hin.
Qed.

(** C8.  When the frontier of [synthesize] is exhausted (no circuit with
    a cost below [success_threshold] having been found), no error is
    raised: the two warnings are logged, the second reporting
    [best_layer] and [best_dist], and the best known circuit [best_circ]
    is returned.  For a whole call: a run that reports the exhaustion
    ends with these two warnings and returns a circuit whose cost is the
    reported [best_dist], the last value assigned to [best_dist], no
    success having been logged; it stores [psols] in the pass data
    exactly when [store_partial_solutions] is set. *)
Theorem frontier_emptied_returns_best self fuel :
  (∀ st,
     empty (frontier st) = true →
     while_loop self fuel st
     = ([Warning FrontierEmptied;
         Warning (ReturningBest (best_layer st) (best_dist st))],
        Some (Returned (best_circ st) (stored_psols self st))))
  ∧ (Warning FrontierEmptied ∈ fst (synthesize self fuel) →
     ∃ pre c ps bl bd,
       synthesize self fuel
       = (pre ++ [Warning FrontierEmptied; Warning (ReturningBest bl bd)],
          Some (Returned c ps))
       ∧ bd = calc_cost c
       ∧ last (assigned_best_dists pre) = Some bd
       ∧ (is_Some ps ↔ store_partial_solutions self = true)
       ∧ Forall (λ e, is_exit_record e = false) pre).
Proof.
  split.
  - intros st He. destruct fuel; simpl; by rewrite He.
  - unfold synthesize.
    destruct (flt _ _).
    { simpl. rewrite !elem_of_cons, elem_of_nil. intros [?|[?|[?|[]]]]; done. }
    destruct (while_loop self fuel initial_state) as [tr out] eqn:E.
    simpl. rewrite !elem_of_cons. intros [?|[?|Hin]]; [done|done|].
    assert (Hfr : depth_ge 0 (frontier (initial_state (Circuit:=Circuit)))).
    { unfold initial_state, depth_ge. simpl. by repeat constructor. }
    destruct (while_loop_emptied _ _ _ _ _ _ Hfr eq_refl E Hin)
      as (pre & st_f & -> & -> & Hrf & Hbf & Hexf).
    eexists (_ :: _ :: pre), _, _, _, _. split; [reflexivity|].
    split; [exact Hrf|]. split; [|split].
    + rewrite best_after_last in Hbf.
      change (assigned_best_dists (_ :: _ :: pre))
        with (best_dist (initial_state (Circuit:=Circuit))
              :: assigned_best_dists pre).
      destruct (assigned_best_dists pre) as [|d l]; [exact Hbf|].
      change (last (_ :: d :: l)) with (last (d :: l)).
      destruct (proj2 (last_is_Some (d :: l))) as [x Hx]; [done|].
      by rewrite Hx in *.
    + unfold stored_psols. destruct (store_partial_solutions self).
      * split; [done|]. intros _. by eexists.
      * split; [intros [? [=]]|done].
    + by repeat constructor.
Qed.

(** *** Partial solutions *)

Implicit Types (bucket : list (Circuit * float)).
Implicit Types (ps : gmap Z (list (Circuit * float))).

Lemma StronglySorted_snoc {A} (R : A → A → Prop) (l : list A) x :
  StronglySorted R (l ++ [x]) → Forall (λ y, R y x) l.
Proof.
  induction l as [|y l IH]; simpl; [constructor|].
  intros [Hs Hall]%StronglySorted_inv.
  constructor; [|by apply IH].
  rewrite Forall_app, Forall_singleton in Hall. tauto.
Qed.

(** What trimming does to a bucket. *)
Lemma trim_bucket_spec self bucket :
  (Z.of_nat (length bucket) ≤ partials_per_depth self →
   trim_bucket self bucket = bucket)
  ∧ (partials_per_depth self < Z.of_nat (length bucket) → bucket ≠ [] →
     ∃ worst,
       sort_by_cost bucket = trim_bucket self bucket ++ [worst]
       ∧ bucket ≡ₚ trim_bucket self bucket ++ [worst]
       ∧ (Forall (λ x, isnan x.2 = false) bucket →
          StronglySorted cost_le (sort_by_cost bucket)
          ∧ Forall (λ x, cost_le x worst) (trim_bucket self bucket))).
Proof.
  unfold trim_bucket. split.
  - intros Hle. apply Z.ltb_ge in Hle. by rewrite Hle.
  - intros Hlt Hne. apply Z.ltb_lt in Hlt. rewrite Hlt.
    destruct bucket as [|x0 bucket]; [done|].
    assert (Hne' : sort_by_cost (x0 :: bucket) ≠ []).
    { intros E. pose proof (sort_by_cost_perm (x0 :: bucket)) as Hp.
      rewrite E in Hp. by apply Permutation_nil_cons in Hp. }
    pose proof (app_removelast_last x0 Hne') as Hsplit.
    exists (List.last (sort_by_cost (x0 :: bucket)) x0).
    split; [done|]. split; [by rewrite <- Hsplit, sort_by_cost_perm|].
    intros Hnum. pose proof (sort_by_cost_ascending _ Hnum) as Hs.
    split; [done|]. rewrite Hsplit in Hs. by apply StronglySorted_snoc in Hs.
Qed.

Lemma trim_bucket_length self bucket :
  0 ≤ partials_per_depth self →
  Z.of_nat (length bucket) ≤ partials_per_depth self + 1 →
  Z.of_nat (length (trim_bucket self bucket)) ≤ partials_per_depth self.
Proof.
  intros Hppd Hlen. unfold trim_bucket.
  destruct (Z.ltb_spec (partials_per_depth self) (Z.of_nat (length bucket)));
    [|done].
  destruct (sort_by_cost bucket) as [|x l] eqn:E using rev_ind.
  { simpl. lia. }
  rewrite removelast_last.
  pose proof (Permutation_length (sort_by_cost_perm bucket)) as Hl.
  rewrite E, length_app in Hl. simpl in Hl. lia.
Qed.

Lemma store_partial_bounded self layer c dist ps :
  0 ≤ partials_per_depth self →
  buckets_bounded self ps →
  buckets_bounded self (store_partial self layer c dist ps).
Proof.
  intros Hppd Hps layer' bucket'. unfold store_partial.
  rewrite lookup_insert. case_decide as Hl.
  - intros [= <-]. apply trim_bucket_length; [done|].
    rewrite length_app. simpl.
    destruct (ps !! layer) as [bucket|] eqn:E; simpl; [|lia].
    apply Hps in E. lia.
  - apply Hps.
Qed.

(** [psols] through a candidate, a batch, a round and a run, for a
    property that storing a partial solution preserves. *)
Section PsolsInvariant.
Variable self : LEAPSynthesisPass.
Variable I : gmap Z (list (Circuit * float)) → Prop.
Hypothesis I_store :
  ∀ layer c ps, I ps → I (store_partial self layer c (calc_cost c) ps).

Lemma eval_successor_psols layer st c ev fl :
  I (psols st) → eval_successor self layer st c = (ev, fl) → flow_psols I fl.
Proof.
  intros HI.
  eval_successor_cases Hs Hnb Hleap Hmax; auto.
  unfold stored_psols. simpl. by destruct (store_partial_solutions self).
Qed.

Lemma eval_successors_psols layer circuits st ev fl :
  I (psols st) → eval_successors self layer circuits st = (ev, fl) →
  flow_psols I fl.
Proof.
  revert st ev fl.
  induction circuits as [|c circuits IH]; intros st ev fl HI; simpl.
  { by intros [= <- <-]. }
  destruct (eval_successor self layer st c) as [ev1 [st1|o]] eqn:E1;
    pose proof (eval_successor_psols _ _ _ _ _ HI E1) as H1.
  - destruct (eval_successors self layer circuits st1) as [ev2 fl2] eqn:E2.
    intros [= <- <-]. eapply IH; [exact H1|exact E2].
  - by intros [= <- <-].
Qed.

Lemma iteration_psols st ev fl :
  I (psols st) → iteration self st = (ev, fl) → flow_psols I fl.
Proof.
  intros HI. unfold iteration.
  destruct (pop (frontier st)) as [[[top layer] fr]|].
  2: { by intros [= <- <-]. }
  destruct (length (gen_successors top) =? 0)%nat.
  { by intros [= <- <-]. }
  destruct (eval_successors _ _ _ _) as [ev1 [st1|o]] eqn:E1;
    pose proof (eval_successors_psols _ _ (set_frontier fr st) _ _ HI E1) as H1.
  - unfold warn_no_progress.
    destruct (no_progress_layers_allowed self =? 0);
      [|destruct (_ && _ && _)]; by intros [= <- <-].
  - by intros [= <- <-].
Qed.

Lemma while_loop_psols fuel st tr c ps :
  I (psols st) →
  while_loop self fuel st = (tr, Some (Returned c (Some ps))) → I ps.
Proof.
  revert st tr. induction fuel as [|fuel IH]; intros st tr HI; simpl;
    unfold stored_psols.
  - destruct (empty (frontier st)); [|done].
    destruct (store_partial_solutions self); by intros [= <- <- <-].
  - destruct (empty (frontier st)).
    { destruct (store_partial_solutions self); by intros [= <- <- <-]. }
    destruct (iteration self st) as [ev [st'|o]] eqn:E;
      pose proof (iteration_psols _ _ _ HI E) as H'.
    + destruct (while_loop self fuel st') as [ev' r] eqn:E'.
      intros [= <- ->]. eapply IH; [exact H'|exact E'].
    + intros [= <- ->]. exact H'.
Qed.

End PsolsInvariant.

(** A candidate that is not returned leaves [psols] extended at [layer],
    or untouched when partial solutions are not stored. *)
Lemma eval_successor_store self layer st c ev st' :
  eval_successor self layer st c = (ev, Next st') →
  flt (calc_cost c) (success_threshold self) = false
  ∧ psols st'
    = if store_partial_solutions self
      then store_partial self layer c (calc_cost c) (psols st)
      else psols st.
Proof.
  revert ev st'. intros ev st'.
  eval_successor_cases Hs Hnb Hleap Hmax; auto.
Qed.

(** *** The history of the bests along a run *)

Lemma history_from_zero_snoc layers dists layer dist :
  0 < layer → history_from_zero layers dists →
  history_from_zero (layers ++ [layer]) (dists ++ [dist]).
Proof.
  intros Hl (Hlen & rest & -> & Hpos). split.
  - rewrite !length_app, Hlen. done.
  - exists (rest ++ [layer]). split; [done|].
    apply Forall_app. split; [done|]. by apply Forall_singleton.
Qed.

(** A history that starts at layer [0] and goes on with positive layers,
    the distances being as many, is not refused by [linregress]. *)
Lemma history_from_zero_not_rejected layers dists :
  history_from_zero layers dists → linregress_rejects layers dists = false.
Proof.
  intros (Hlen & rest & -> & Hpos).
  unfold linregress_rejects.
  destruct rest as [|layer rest].
  - by destruct dists as [|d [|d' dists]].
  - apply Forall_cons in Hpos as [Hpos _].
    assert (Hne : (amax (0 :: layer :: rest) =? amin (0 :: layer :: rest))
                  = false).
    { apply Z.eqb_neq. unfold amax, amin. cbn [foldr hd]. lia. }
    rewrite Hne. destruct dists as [|d dists]; [done|].
    injection Hlen as Hlen. cbn [length] in *. rewrite Hlen.
    cbn [Nat.eqb andb orb]. by rewrite Nat.eqb_refl.
Qed.

Lemma regular_initial : regular (initial_state (Circuit:=Circuit)).
Proof.
  split.
  - split; [done|]. exists []. split; [done|constructor].
  - unfold initial_state, depth_ge. simpl. by repeat constructor.
Qed.

(** Popping a regular state gives a depth that is not negative. *)
Lemma regular_pop st top layer fr :
  regular st → pop (frontier st) = Some (top, layer, fr) →
  0 ≤ layer ∧ regular (set_frontier fr st).
Proof.
  intros [Hh Hfr] Hpop.
  destruct (pop_depth_ge _ _ _ _ _ Hfr Hpop) as [Hl Hfr']. done.
Qed.

(** A candidate processed in a regular state: [linregress] does not
    refuse the history, and the state handed on is regular. *)
Lemma eval_successor_regular self layer st c ev fl :
  0 ≤ layer → regular st →
  eval_successor self layer st c = (ev, fl) →
  match fl with
  | Next st' => regular st'
  | Stop o =>
      flt (calc_cost c) (success_threshold self) = true
      ∧ ev = [Debug (SuccessfulSynthesis (layer + 1))]
      ∧ o = Returned c (stored_psols self st)
  end.
Proof.
  intros Hl [Hh Hfr].
  pose proof (history_from_zero_not_rejected _ _ Hh) as Hacc.
  pose proof (history_from_zero_snoc _ _ (layer + 1) (calc_cost c)
                ltac:(lia) Hh) as Hh'.
  eval_successor_cases_with Hs Hnb Hrej Hleap Hmax;
    try done; try congruence;
    (split; [done|]); simpl;
    rewrite ?add_depth_ge; split_and?; try apply clear_depth_ge;
    try done; lia.
Qed.

(** A candidate whose cost is not below the threshold does not end the
    search. *)
Lemma eval_successor_next self layer st c :
  0 ≤ layer → regular st →
  flt (calc_cost c) (success_threshold self) = false →
  ∃ ev st', eval_successor self layer st c = (ev, Next st').
Proof.
  intros Hl Hreg Hs.
  destruct (eval_successor self layer st c) as [ev [st'|o]] eqn:E; [eauto|].
  apply eval_successor_regular in E as (Hs' & _); [congruence|done|done].
Qed.

Lemma eval_successors_regular self layer circuits st ev fl :
  0 ≤ layer → regular st →
  eval_successors self layer circuits st = (ev, fl) →
  match fl with
  | Next st' => regular st'
  | Stop o =>
      ∃ c stored, o = Returned c stored ∧ c ∈ circuits
              ∧ flt (calc_cost c) (success_threshold self) = true
              ∧ last ev = Some (Debug (SuccessfulSynthesis (layer + 1)))
  end.
Proof.
  intros Hl. revert st ev.
  induction circuits as [|c circuits IH]; intros st ev Hreg; simpl.
  { by intros [= <- <-]. }
  destruct (eval_successor self layer st c) as [ev1 [st1|o1]] eqn:E1;
    apply eval_successor_regular in E1; try done.
  - destruct (eval_successors self layer circuits st1) as [ev2 fl2] eqn:E2.
    intros [= <- <-]. specialize (IH _ _ E1 E2).
    destruct fl2 as [st2|o2]; [done|].
    destruct IH as (c' & stored & -> & Hin & Hs & Hlast).
    exists c', stored. split_and?; try done; [by constructor|].
    destruct ev2 as [|e ev2]; [done|]. by rewrite last_app_cons.
  - intros [= <- <-]. destruct E1 as (Hs & -> & ->).
    eexists _, _. split_and?; try done. by constructor.
Qed.

(** A round keeps a regular state regular, and raises nothing but the
    division by zero of the no-progress test. *)
Lemma iteration_regular self st ev fl :
  regular st → empty (frontier st) = false →
  iteration self st = (ev, fl) →
  match fl with
  | Next st' => regular st'
  | Stop (Raised e) =>
      e = ZeroDivisionError ∧ no_progress_layers_allowed self = 0
  | Stop (Returned _ _) => True
  end.
Proof.
  intros Hreg He. unfold iteration.
  destruct (pop (frontier st)) as [[[top layer] fr]|] eqn:Hpop.
  2: { destruct (pop_nonempty _ He) as [x Hx]. congruence. }
  destruct (regular_pop _ _ _ _ Hreg Hpop) as [Hl Hreg'].
  destruct (length (gen_successors top) =? 0)%nat.
  { by intros [= <- <-]. }
  destruct (eval_successors _ _ _ _) as [ev1 [st1|o]] eqn:E1;
    apply eval_successors_regular in E1; try done.
  - unfold warn_no_progress.
    destruct (Z.eqb_spec (no_progress_layers_allowed self) 0);
      [|destruct (_ && _ && _)]; by intros [= <- <-].
  - intros [= <- <-]. by destruct E1 as (c & stored & -> & _).
Qed.

(** From a state with a history as [synthesize] keeps it, the loop
    raises nothing but the division by zero. *)
Lemma while_loop_raises self fuel st e :
  regular st →
  snd (while_loop self fuel st) = Some (Raised e) →
  e = ZeroDivisionError ∧ no_progress_layers_allowed self = 0.
Proof.
  revert st. induction fuel as [|fuel IH]; intros st Hreg; simpl;
    destruct (empty (frontier st)) eqn:He; try done.
  destruct (iteration self st) as [ev [st'|o]] eqn:E;
    apply (iteration_regular _ _ _ _ Hreg He) in E.
  - specialize (IH st' E). by destruct (while_loop self fuel st').
  - simpl. by intros [= ->].
Qed.

(** The three ways a candidate is dealt with: it is returned, being
    below the threshold; or it is a new best and [linregress] refuses
    the history; or the loop goes on, and [psols] is as
    [store_partial_solutions] has it. *)
Lemma eval_successor_outcomes self layer st c ev fl :
  eval_successor self layer st c = (ev, fl) →
  match fl with
  | Stop (Returned c' _) =>
      c' = c ∧ flt (calc_cost c) (success_threshold self) = true
  | Stop (Raised e) =>
      e = ValueError
      ∧ flt (calc_cost c) (success_threshold self) = false
      ∧ linregress_rejects (best_layers st) (best_dists st) = true
  | Next st' =>
      flt (calc_cost c) (success_threshold self) = false
      ∧ psols st'
        = if store_partial_solutions self
          then store_partial self layer c (calc_cost c) (psols st)
          else psols st
  end.
Proof. eval_successor_cases_with Hs Hnb Hrej Hleap Hmax; auto. Qed.

(** C9 (amended).  When [store_partial_solutions] is enabled, every
    candidate evaluated from a node popped at depth [layer] and not
    returned as the successful one (its cost is not below
    [success_threshold]) is appended, paired with its cost, to
    [psols[layer]]: a candidate either is returned, its cost being
    below the threshold, or is appended and the loop goes on, or ends
    the call with the [ValueError] of a refused history, which no call
    of [synthesize] ends with.  Whenever the bucket then holds more than
    [partials_per_depth] entries it is sorted by cost and its last entry
    is removed; when no cost in the bucket is a NaN, the sorted bucket
    ascends and the entry removed is of worst cost.  So, for
    [partials_per_depth >= 0], no bucket holds more than
    [partials_per_depth] entries after a candidate has been processed,
    nor in the [psols] a call stores in the pass data. *)
Theorem partial_solutions_bookkeeping self :
  store_partial_solutions self = true →
  (∀ layer st c ev fl,
     eval_successor self layer st c = (ev, fl) →
     match fl with
     | Stop (Returned c' _) =>
         c' = c ∧ flt (calc_cost c) (success_threshold self) = true
     | Stop (Raised e) =>
         e = ValueError
         ∧ linregress_rejects (best_layers st) (best_dists st) = true
     | Next st' =>
         flt (calc_cost c) (success_threshold self) = false
         ∧ psols st'
           = <[layer := trim_bucket self
                 (default [] (psols st !! layer) ++ [(c, calc_cost c)])]>
               (psols st)
     end)
  ∧ (∀ fuel, snd (synthesize self fuel) ≠ Some (Raised ValueError))
  ∧ (∀ bucket,
       (Z.of_nat (length bucket) ≤ partials_per_depth self →
        trim_bucket self bucket = bucket)
       ∧ (partials_per_depth self < Z.of_nat (length bucket) →
          bucket ≠ [] →
          ∃ worst,
            sort_by_cost bucket = trim_bucket self bucket ++ [worst]
            ∧ bucket ≡ₚ trim_bucket self bucket ++ [worst]
            ∧ (Forall (λ x, isnan x.2 = false) bucket →
               StronglySorted cost_le (sort_by_cost bucket)
               ∧ Forall (λ x, cost_le x worst) (trim_bucket self bucket))))
  ∧ (0 ≤ partials_per_depth self →
     (∀ layer st c ev st',
        buckets_bounded self (psols st) →
        eval_successor self layer st c = (ev, Next st') →
        buckets_bounded self (psols st'))
     ∧ (∀ fuel tr c ps,
          synthesize self fuel = (tr, Some (Returned c (Some ps))) →
          buckets_bounded self ps)).
Proof.
  intros Hstore. split_and?.
  - intros layer st c ev fl E. apply eval_successor_outcomes in E.
    rewrite Hstore in E. destruct fl as [st'|[c' stored|e]]; [done|done|].
    by destruct E as (-> & _ & ?).
  - intros fuel Hr. unfold synthesize in Hr.
    destruct (flt _ _); [done|].
    destruct (while_loop self fuel initial_state) as [ev r] eqn:E.
    simpl in Hr. subst r.
    destruct (while_loop_raises self fuel initial_state ValueError
                regular_initial) as [? _]; [by rewrite E|done].
  - apply trim_bucket_spec.
  - intros Hppd. split.
    + intros layer st c ev st' Hb E.
      apply eval_successor_store in E as [_ ->]. rewrite Hstore.
      by apply store_partial_bounded.
    + intros fuel tr c ps. unfold synthesize.
      destruct (flt _ _); [done|].
      destruct (while_loop self fuel initial_state) as [ev r] eqn:E.
      intros [= <- ->].
      eapply (while_loop_psols self (buckets_bounded self)); [| |exact E].
      * intros layer c0 ps0. by apply store_partial_bounded.
      * intros layer bucket. simpl. by rewrite lookup_empty.
Qed.

End Run.

End LeapRun.

(** ** The replace filter and the checks of [compile] *)

Module CompileProps.

Import PyFloat Compile.

Section Workflow.
Context {Gate : Type} `{!GateCatalog Gate} `{!CircuitGates Gate}.

Implicit Types (model : MachineModel Gate) (c new org : Circuit Gate).
Implicit Types (old : Operation Gate) (g : Gate) (loc : list Z).

(** *** Counting *)

Lemma sum_app l1 l2 : sum (l1 ++ l2) = sum l1 + sum l2.
Proof. induction l1 as [|x l1 IH]; simpl; lia. Qed.

(** Over a duplicate-free list of gates, the operations carrying some
    gate of the list are counted once each. *)
Lemma sum_count_nodup (ops : list (Operation Gate)) (gs : list Gate) :
  NoDup gs →
  sum (map (λ g, Z.of_nat (length (filter (λ op, gate op = g) ops))) gs)
  = Z.of_nat (length (filter (λ op, gate op ∈ gs) ops)).
Proof.
  intros Hnd. induction ops as [|op ops IH]; simpl.
  - induction gs as [|g gs IHg]; simpl; [done|].
    apply NoDup_cons in Hnd as [_ Hnd]. rewrite IHg by done. done.
  - rewrite filter_cons. case_decide as Hin.
    + simpl. rewrite Nat2Z.inj_succ, <- IH. clear IH.
      induction gs as [|g gs IHg]; simpl; [by apply elem_of_nil in Hin|].
      apply NoDup_cons in Hnd as [Hg Hnd].
      rewrite filter_cons. case_decide as Heq.
      * subst g. simpl.
        assert (Hz : ∀ l, gate op ∉ l →
          sum (map (λ g, Z.of_nat (length (filter (λ op0, gate op0 = g)
                                             (op :: ops)))) l)
          = sum (map (λ g, Z.of_nat (length (filter (λ op0, gate op0 = g)
                                             ops))) l)).
        { induction l as [|g l IHl]; simpl; [done|].
          intros [Hne Hl]%not_elem_of_cons.
          rewrite filter_cons. case_decide; [done|]. by rewrite IHl. }
        rewrite Hz by done. lia.
      * apply elem_of_cons in Hin as [?|Hin]; [done|].
        rewrite IHg by done. lia.
    + rewrite <- IH. clear IH. f_equal.
      induction gs as [|g gs IHg]; simpl; [done|].
      apply NoDup_cons in Hnd as [_ Hnd].
      apply not_elem_of_cons in Hin as [Hne Hin].
      rewrite filter_cons. case_decide; [done|]. by rewrite IHg.
Qed.

Lemma filter_ext_elem {A} (P Q : A → Prop) `{!∀ x, Decision (P x)}
    `{!∀ x, Decision (Q x)} (l : list A) :
  (∀ x, x ∈ l → P x ↔ Q x) → filter P l = filter Q l.
Proof.
  induction l as [|x l IH]; intros HPQ; [done|].
  rewrite !filter_cons.
  pose proof (HPQ x (list_elem_of_here _ _)) as Hx.
  rewrite IH by (intros y Hy; apply HPQ; by constructor).
  repeat case_decide; tauto.
Qed.

(** The sums of [_replace_filter] count operations: those whose gate
    satisfies the selecting condition. *)
Lemma sum_count_operations (P : Gate → Prop) `{!∀ g, Decision (P g)} c :
  sum (map (count c) (filter P (gate_set c)))
  = Z.of_nat (length (filter (λ op, P (gate op)) (operations c))).
Proof.
  unfold count, gate_set.
  rewrite sum_count_nodup by (apply NoDup_filter, NoDup_remove_dups).
  f_equal. f_equal. apply filter_ext_elem. intros op Hop.
  rewrite list_elem_of_filter, elem_of_remove_dups.
  split; [tauto|]. intros HP. split; [done|].
  apply list_elem_of_fmap. eauto.
Qed.

Lemma sq_count_operations c :
  sq_count c
  = Z.of_nat (length (filter (λ op, num_qudits (gate op) = 1) (operations c))).
Proof. exact (sum_count_operations (λ g, num_qudits g = 1) c). Qed.

Lemma mq_count_operations c :
  mq_count c
  = Z.of_nat (length (filter (λ op, 2 ≤ num_qudits (gate op)) (operations c))).
Proof. exact (sum_count_operations (λ g, 2 ≤ num_qudits g) c). Qed.

Lemma sq_count_single_qudit_operations c :
  sq_count c = single_qudit_operations c.
Proof. apply sq_count_operations. Qed.

Lemma mq_count_multi_qudit_operations c :
  mq_count c = multi_qudit_operations c.
Proof. apply mq_count_operations. Qed.

(** *** The replace filter *)

Lemma subscript_in_range loc i :
  0 ≤ i < Z.of_nat (length loc) → ∃ x, subscript loc i = Ok x.
Proof.
  intros Hi. unfold subscript.
  destruct (Z.ltb_spec i 0); [lia|].
  destruct (Z.leb_spec 0 i); [|lia].
  destruct (Z.ltb_spec i (Z.of_nat (length loc))); [|lia]. simpl.
  destruct (loc !! Z.to_nat i) as [x|] eqn:E; [eauto|].
  apply lookup_ge_None in E. lia.
Qed.

Lemma map_edge_in_range loc e :
  0 ≤ fst e < Z.of_nat (length loc) ∧ 0 ≤ snd e < Z.of_nat (length loc) →
  ∃ p, map_edge loc e = Ok p.
Proof.
  intros [H1 H2]. unfold map_edge.
  destruct (subscript_in_range _ _ H1) as [a ->].
  destruct (subscript_in_range _ _ H2) as [b ->]. eauto.
Qed.

(** With every endpoint in range, the edge test raises nothing and
    finds an edge mapped outside the coupling graph iff there is one. *)
Lemma any_edge_outside_spec model loc edges :
  location_covers loc edges →
  ∃ answer,
    any_edge_outside model loc edges = Ok answer
    ∧ (answer = true ↔
       ∃ e p, e ∈ edges ∧ map_edge loc e = Ok p
              ∧ in_coupling_graph p (model_coupling_graph model) = false).
Proof.
  induction edges as [|e edges IH]; intros Hcov; simpl.
  - exists false. split; [done|]. split; [done|].
    intros (e & p & He & _). by apply elem_of_nil in He.
  - destruct (map_edge_in_range loc e) as [p Hp].
    { apply Hcov. by constructor. }
    rewrite Hp.
    destruct (in_coupling_graph p _) eqn:Hin; simpl.
    + destruct IH as (answer & -> & Hiff).
      { intros e' He'. apply Hcov. by constructor. }
      exists answer. split; [done|]. rewrite Hiff. split.
      * intros (e' & p' & He' & Hp' & Hout). exists e', p'.
        split_and?; try done. by constructor.
      * intros (e' & p' & He' & Hp' & Hout).
        apply elem_of_cons in He' as [->|He']; [congruence|]. eauto.
    + exists true. split; [done|]. split; [|done]. intros _.
      exists e, p. split_and?; try done. by constructor.
Qed.

Lemma tuple_lt_spec (a b : Z * Z) :
  tuple_lt a b = true ↔ fst a < fst b ∨ (fst a = fst b ∧ snd a < snd b).
Proof.
  unfold tuple_lt. destruct (Z.eqb_spec (fst a) (fst b)).
  - rewrite Z.ltb_lt. lia.
  - rewrite Z.ltb_lt. lia.
Qed.

Lemma non_native_gate_spec model org :
  existsb (λ g, negb (bool_decide (g ∈ model_gate_set model))) (gate_set org)
  = true
  ↔ ∃ g, g ∈ gate_set org ∧ g ∉ model_gate_set model.
Proof.
  rewrite existsb_exists. split; intros (g & Hg & Hn); exists g.
  - apply list_elem_of_In in Hg. split; [done|].
    apply negb_true_iff, bool_decide_eq_false in Hn. done.
  - split; [by apply list_elem_of_In|].
    by apply negb_true_iff, bool_decide_eq_false.
Qed.

(** C6.  The replace filter generated for the standard workflows, on a
    re-synthesised block [new] replacing the operation [old] of body
    [org], accepts if [old.gate] is not a [CircuitGate], or if [org]
    contains a gate outside the gate set of the model, or if some
    two-qudit edge of [org] maps through [old.location] to a pair
    outside the coupling graph of the model.  Otherwise it accepts
    exactly when the pair (number of multi-qudit operations, number of
    single-qudit operations) of [new] is lexicographically strictly
    below that of [org]: ties are rejected, and an accepted replacement
    has strictly fewer multi-qudit operations, or as many of them and
    strictly fewer single-qudit operations.  (From the edge test on,
    [old.location] is assumed to have an entry for every qudit of
    [org].) *)
Theorem replace_filter_spec model new old :
  (as_circuit_gate (gate old) = None →
   _gen_replace_filter model new old = Ok true)
  ∧ (∀ org,
       as_circuit_gate (gate old) = Some org →
       ((∃ g, g ∈ gate_set org ∧ g ∉ model_gate_set model) →
        _gen_replace_filter model new old = Ok true)
       ∧ (location_covers (location old) (coupling_graph org) →
          ((∃ e p, e ∈ coupling_graph org
                   ∧ map_edge (location old) e = Ok p
                   ∧ in_coupling_graph p (model_coupling_graph model) = false) →
           _gen_replace_filter model new old = Ok true)
          ∧ ((∀ g, g ∈ gate_set org → g ∈ model_gate_set model) →
             (∀ e p, e ∈ coupling_graph org →
                     map_edge (location old) e = Ok p →
                     in_coupling_graph p (model_coupling_graph model) = true) →
             (_gen_replace_filter model new old = Ok true
              ∨ _gen_replace_filter model new old = Ok false)
             ∧ (_gen_replace_filter model new old = Ok true ↔
                multi_qudit_operations new < multi_qudit_operations org
                ∨ (multi_qudit_operations new = multi_qudit_operations org
                   ∧ single_qudit_operations new
                     < single_qudit_operations org))
             ∧ (multi_qudit_operations new = multi_qudit_operations org →
                single_qudit_operations new = single_qudit_operations org →
                _gen_replace_filter model new old = Ok false)))).
Proof.
  unfold _gen_replace_filter, _replace_filter. split.
  { by intros ->. }
  intros org ->. split.
  { intros Hg%non_native_gate_spec. by rewrite Hg. }
  intros Hcov.
  destruct (any_edge_outside_spec model _ _ Hcov) as (answer & Hany & Hiff).
  rewrite Hany. split.
  - intros He%Hiff. subst answer. by destruct (existsb _ _).
  - intros Hnative Hinside.
    destruct (existsb _ _) eqn:Hex.
    { apply non_native_gate_spec in Hex as (g & Hg & Hn).
      by apply Hnative in Hg. }
    destruct answer.
    { destruct (proj1 Hiff eq_refl) as (e & p & He & Hp & Hout).
      rewrite (Hinside _ _ He Hp) in Hout. done. }
    rewrite !mq_count_multi_qudit_operations,
      !sq_count_single_qudit_operations.
    split; [destruct (tuple_lt _ _); auto|]. split.
    + pose proof (tuple_lt_spec
        (multi_qudit_operations new, single_qudit_operations new)
        (multi_qudit_operations org, single_qudit_operations org)) as Hlt.
      simpl in Hlt. rewrite <- Hlt.
      split; [by intros [= ->]|by intros ->].
    + intros Hmq Hsq. f_equal. apply not_true_iff_false.
      rewrite tuple_lt_spec. simpl. lia.
Qed.

(** *** The checks of [compile] *)

Lemma no_multi_qudit_gate model :
  (∀ g, g ∈ model_gate_set model → num_qudits g < 2) →
  length (filter (λ g, 2 ≤ num_qudits g) (model_gate_set model)) = 0%nat.
Proof.
  intros Hno. apply length_zero_iff_nil.
  induction (model_gate_set model) as [|g gs IH]; [done|].
  rewrite filter_cons. case_decide as Hg.
  - specialize (Hno g (list_elem_of_here _ _)). lia.
  - apply IH. intros g' Hg'. apply Hno. by constructor.
Qed.

Lemma has_oversized_gate_spec c max_synthesis_size :
  has_oversized_gate c max_synthesis_size = true
  ↔ ∃ g, g ∈ gate_set c ∧ max_synthesis_size < num_qudits g
         ∧ is_measurement_placeholder g = false.
Proof.
  unfold has_oversized_gate. rewrite existsb_exists.
  split; intros (g & Hg & Hw); exists g.
  - apply list_elem_of_In in Hg.
    apply andb_true_iff in Hw as [Hw%Z.ltb_lt Hm%negb_true_iff]. done.
  - destruct Hw as [Hw Hm]. split; [by apply list_elem_of_In|].
    apply andb_true_iff. by rewrite Z.ltb_lt, negb_true_iff.
Qed.

(** C7 (amended).  [compile] raises a [TypeError] for an input that is
    neither a circuit, a unitary nor a pure state, and a [ValueError]
    when (a) the input or the model has a radix other than two, (b) the
    model has fewer qudits than the input, (c) the input circuit
    contains a gate, other than a measurement placeholder, that is wider
    than [max_synthesis_size], or the input unitary or state is itself
    wider, or (d) the model has no multi-qudit gate while the input has
    more than one qudit.  Each is raised before the workflow is built,
    hence before any pass runs. *)
Theorem compile_rejects (input : Input) (model : option (MachineModel Gate))
    (optimization_level max_synthesis_size : Z) :
  let m := chosen_model input model in
  let result := compile input model optimization_level max_synthesis_size in
  (input = InOther → result = Raise TypeError)
  ∧ (input ≠ InOther →
     (all_qubits (input_radixes input) = false
      ∨ all_qubits (model_radixes m) = false → result = Raise ValueError)
     ∧ (model_num_qudits m < input_num_qudits input →
        result = Raise ValueError)
     ∧ (∀ c, input = InCircuit c → circuit_wf c →
          (∃ g, g ∈ gate_set c ∧ max_synthesis_size < num_qudits g
                ∧ is_measurement_placeholder g = false) →
          result = Raise ValueError)
     ∧ (max_synthesis_size < input_num_qudits input →
        (∃ u, input = InUnitary u) ∨ (∃ s, input = InState s) →
        result = Raise ValueError)
     ∧ ((∀ g, g ∈ model_gate_set m → num_qudits g < 2) →
        1 < input_num_qudits input → result = Raise ValueError)).
Proof.
  intros m result. split; [by intros ->|]. intros Hin.
  assert (Hres : result =
    if negb (all_qubits (input_radixes input)) then Raise ValueError else
    if model_num_qudits m <? input_num_qudits input then Raise ValueError else
    if negb (all_qubits (model_radixes m)) then Raise ValueError else
    if Nat.eqb (length (filter (λ g, 2 ≤ num_qudits g) (model_gate_set m))) 0
       && (1 <? input_num_qudits input)
    then Raise ValueError else
    if (optimization_level <? 1) || (4 <? optimization_level)
    then Raise ValueError else
    if max_synthesis_size <? 2 then Raise ValueError else
    match input with
    | InCircuit c =>
        if (max_synthesis_size <? circuit_num_qudits c)
           && has_oversized_gate c max_synthesis_size
        then Raise ValueError
        else Ok (CircuitWorkflow c m)
    | InUnitary utry =>
        if max_synthesis_size <? shape_num_qudits utry then Raise ValueError
        else Ok (UnitaryWorkflow utry m)
    | InState state =>
        if max_synthesis_size <? shape_num_qudits state then Raise ValueError
        else Ok (StateprepWorkflow state m)
    | InOther => Raise TypeError
    end) by by destruct input.
  rewrite Hres. clear Hres. split_and?.
  - intros [Hr|Hr].
    + by rewrite Hr.
    + rewrite Hr. simpl. by repeat case_match.
  - intros Hsize%Z.ltb_lt. rewrite Hsize. by repeat case_match.
  - intros c -> Hwf Hg.
    assert ((max_synthesis_size <? circuit_num_qudits c) = true) as ->.
    { destruct Hg as (g & Hg & Hw & _). apply Hwf in Hg. apply Z.ltb_lt. lia. }
    apply has_oversized_gate_spec in Hg as ->. simpl. by repeat case_match.
  - intros Hw%Z.ltb_lt [[u ->]|[s ->]]; simpl in *; rewrite Hw;
      by repeat case_match.
  - intros Hno%no_multi_qudit_gate Hn%Z.ltb_lt. rewrite Hno, Hn. simpl.
    by repeat case_match.
Qed.

End Workflow.

End CompileProps.

(** ** The sort of the examples *)

Module LeapExampleFacts.

Import PyFloat PyFloatFacts Leap LeapExample.

Section InsertionSort.
Context {Circuit : Type}.

Implicit Types (x : Circuit * float) (bucket : list (Circuit * float)).

Lemma insert_by_cost_perm x bucket : insert_by_cost x bucket ≡ₚ x :: bucket.
Proof.
  induction bucket as [|y bucket IH]; simpl; [done|].
  destruct (flt y.2 x.2); [|done]. rewrite IH. apply Permutation_swap.
Qed.

Lemma insertion_sort_perm bucket : insertion_sort bucket ≡ₚ bucket.
Proof.
  induction bucket as [|x bucket IH]; simpl; [done|].
  by rewrite insert_by_cost_perm, IH.
Qed.

(** The sort never leaves an entry right before a strictly cheaper
    one... *)
Lemma insert_by_cost_sorted x bucket :
  Sorted (λ p q, flt q.2 p.2 = false) bucket →
  Sorted (λ p q, flt q.2 p.2 = false) (insert_by_cost x bucket).
Proof.
  induction 1 as [|y bucket Hs IH Hhd]; simpl; [by repeat constructor|].
  destruct (flt y.2 x.2) eqn:E.
  - constructor; [done|]. destruct Hhd as [|z bucket Hz]; simpl.
    + constructor. by apply flt_asym.
    + destruct (flt z.2 x.2); constructor; [done|]. by apply flt_asym.
  - constructor; [by constructor|]. by constructor.
Qed.

Lemma insertion_sort_sorted bucket :
  Sorted (λ p q, flt q.2 p.2 = false) (insertion_sort bucket).
Proof.
  induction bucket as [|x bucket IH]; simpl; [constructor|].
  by apply insert_by_cost_sorted.
Qed.

(** ... so, costs being numbers, its result ascends by cost. *)
Lemma insertion_sort_ascending bucket :
  Forall (λ x, isnan x.2 = false) bucket →
  StronglySorted (λ a b, fle a.2 b.2 = true) (insertion_sort bucket).
Proof.
  intros Hnum. apply Sorted_StronglySorted.
  { intros a b c. apply fle_trans. }
  assert (Hnum' : Forall (λ x, isnan x.2 = false) (insertion_sort bucket))
    by by rewrite insertion_sort_perm.
  pose proof (insertion_sort_sorted bucket) as Hs.
  induction Hs as [|y l Hs IH Hhd]; [constructor|].
  apply Forall_cons in Hnum' as [Hy Hl].
  constructor; [by apply IH|].
  destruct Hhd as [|z l Hz]; constructor.
  apply Forall_cons in Hl as [Hz' _]. by apply not_flt_fle.
Qed.

(** Entries of equal cost keep their order. *)
Lemma insert_by_cost_stable x bucket d :
  filter (λ y, feq y.2 d = true) (insert_by_cost x bucket)
  = filter (λ y, feq y.2 d = true) (x :: bucket).
Proof.
  induction bucket as [|y bucket IH]; simpl; [done|].
  destruct (flt y.2 x.2) eqn:E; [|done].
  rewrite (filter_cons _ y), IH, !filter_cons.
  destruct (decide (feq y.2 d = true)) as [Hy|Hy],
           (decide (feq x.2 d = true)) as [Hx|Hx]; try done.
  by rewrite (feq_flt_excl _ _ _ Hy Hx) in E.
Qed.

Lemma insertion_sort_stable bucket d :
  filter (λ y, feq y.2 d = true) (insertion_sort bucket)
  = filter (λ y, feq y.2 d = true) bucket.
Proof.
  induction bucket as [|x bucket IH]; simpl; [done|].
  by rewrite insert_by_cost_stable, !filter_cons, IH.
Qed.

End InsertionSort.

(** The examples sort their buckets by insertion. *)
#[export] Instance stable_insertion {Circuit : Type} : ListSort Circuit :=
  {| sort_by_cost := insertion_sort;
     sort_by_cost_perm := insertion_sort_perm;
     sort_by_cost_ascending := insertion_sort_ascending;
     sort_by_cost_stable := λ l d _, insertion_sort_stable l d |}.

End LeapExampleFacts.

(** ** The properties at work on the concrete instances *)

Module LeapWitnesses.

Import PyFloat PyFloatFacts Leap LeapExample LeapExampleFacts.
Import LeapHelpers LeapRun.

(** C2, as stated, fails on the code: on a history without an entry,
    and on one whose layers are all identical, [linregress] raises and
    the call has neither an answer nor appended anything. *)
Lemma check_leap_condition_counterexample :
  check_leap_condition leap 1 (dyadic 1 (-1)) [] [] 0 = Raises ValueError
  ∧ check_leap_condition leap 2 (dyadic 1 (-2)) [1; 1]
      [dyadic 1 0; dyadic 1 (-1)] 0
    = Raises ValueError.
Proof. split; vm_compute; reflexivity. Qed.

(** The amended C2 on four calls: after three bests that halve the
    distance the leap condition holds at layer 3, unless the last prefix
    is too close; with a single point in the history the prediction is
    NaN and the answer is false; a history of identical layers is
    refused. *)
Lemma check_leap_condition_spec_witness :
  (∃ logged,
     check_leap_condition leap 3 (dyadic 1 (-3)) [0; 1; 2]
       [dyadic 1 0; dyadic 1 (-1); dyadic 1 (-2)] 0
     = Returns (true, [0; 1; 2; 3],
                [dyadic 1 0; dyadic 1 (-1); dyadic 1 (-2); dyadic 1 (-3)],
                logged))
  ∧ (∃ logged,
       check_leap_condition leap 3 (dyadic 1 (-3)) [0; 1; 2]
         [dyadic 1 0; dyadic 1 (-1); dyadic 1 (-2)] 1
       = Returns (false, [0; 1; 2; 3],
                  [dyadic 1 0; dyadic 1 (-1); dyadic 1 (-2); dyadic 1 (-3)],
                  logged))
  ∧ (∃ logged,
       check_leap_condition leap 1 (dyadic 1 (-1)) [0] [dyadic 1 0] 0
       = Returns (false, [0; 1], [dyadic 1 0; dyadic 1 (-1)], logged))
  ∧ check_leap_condition leap 2 (dyadic 1 (-2)) [1; 1]
      [dyadic 1 0; dyadic 1 (-1)] 0
    = Raises ValueError.
Proof.
  split; [|split; [|split]].
  - pose proof (check_leap_condition_spec leap 3 (dyadic 1 (-3)) [0; 1; 2]
                  [dyadic 1 0; dyadic 1 (-1); dyadic 1 (-2)] 0) as Hspec.
    destruct (linregress _ _) as [[m y_int]|e] eqn:E;
      [|vm_compute in E; discriminate].
    destruct Hspec as (Hfit & _ & _ & _ & answer & logged & Heq & _ & Hiff).
    vm_compute in Hfit. injection Hfit as -> ->.
    exists logged. rewrite Heq.
    assert (Ha : answer = true).
    { apply Hiff; [vm_compute; reflexivity|].
      split; [vm_compute; reflexivity|simpl; lia]. }
    rewrite Ha. reflexivity.
  - pose proof (check_leap_condition_spec leap 3 (dyadic 1 (-3)) [0; 1; 2]
                  [dyadic 1 0; dyadic 1 (-1); dyadic 1 (-2)] 1) as Hspec.
    destruct (linregress _ _) as [[m y_int]|e] eqn:E;
      [|vm_compute in E; discriminate].
    destruct Hspec as (Hfit & _ & _ & _ & answer & logged & Heq & _ & Hiff).
    vm_compute in Hfit. injection Hfit as -> ->.
    exists logged. rewrite Heq.
    assert (Ha : answer = false).
    { destruct answer; [|reflexivity].
      destruct (proj1 (Hiff ltac:(vm_compute; reflexivity)) eq_refl)
        as [_ Hsize]. simpl in Hsize. lia. }
    rewrite Ha. reflexivity.
  - pose proof (check_leap_condition_spec leap 1 (dyadic 1 (-1)) [0]
                  [dyadic 1 0] 0) as Hspec.
    destruct (linregress _ _) as [[m y_int]|e] eqn:E;
      [|vm_compute in E; discriminate].
    destruct Hspec as (Hfit & _ & _ & _ & answer & logged & Heq & Hnan & _).
    vm_compute in Hfit. injection Hfit as -> ->.
    exists logged. rewrite Heq.
    assert (Ha : answer = false).
    { apply Hnan. left. reflexivity. }
    rewrite Ha. reflexivity.
  - pose proof (check_leap_condition_spec leap 2 (dyadic 1 (-2)) [1; 1]
                  [dyadic 1 0; dyadic 1 (-1)] 0) as Hspec.
    destruct (linregress _ _) as [[m y_int]|e] eqn:E;
      [vm_compute in E; discriminate|].
    exact (proj2 (proj2 Hspec)).
Defined.

(** The third good layer in a row freezes the prefix.  Without a layer
    limit, and with a limit of ten layers, the frontier is re-seeded
    with the new best at depth 3; with a limit of three layers it is
    left empty. *)
Lemma freeze_reseeds_frontier_witness :
  (prefix_freeze_condition leap 2 two_layers_deep [true; true; true] = true
   ∧ max_layer leap = None
   ∧ ∃ ev st',
       eval_successor leap 2 two_layers_deep [true; true; true] = (ev, Next st')
       ∧ AssignLastPrefixLayer 3 ∈ ev
       ∧ last_prefix_layer st' = 3
       ∧ contents (frontier st')
         = [([true; true; true], 3); ([true; true; true], 3)])
  ∧ (prefix_freeze_condition roomy_leap 2 two_layers_deep [true; true; true]
     = true
     ∧ max_layer roomy_leap = Some 10
     ∧ ∃ ev st',
         eval_successor roomy_leap 2 two_layers_deep [true; true; true]
         = (ev, Next st')
         ∧ AssignLastPrefixLayer 3 ∈ ev
         ∧ last_prefix_layer st' = 3
         ∧ contents (frontier st')
           = [([true; true; true], 3); ([true; true; true], 3)])
  ∧ (prefix_freeze_condition capped_leap 2 two_layers_deep [true; true; true]
     = true
     ∧ max_layer capped_leap = Some 3
     ∧ ∃ ev st',
         eval_successor capped_leap 2 two_layers_deep [true; true; true]
         = (ev, Next st')
         ∧ AssignLastPrefixLayer 3 ∈ ev
         ∧ last_prefix_layer st' = 3
         ∧ contents (frontier st') = []).
Proof.
  assert (Hc : prefix_freeze_condition leap 2 two_layers_deep
                 [true; true; true] = true) by (vm_compute; reflexivity).
  assert (Hr : prefix_freeze_condition roomy_leap 2 two_layers_deep
                 [true; true; true] = true) by (vm_compute; reflexivity).
  assert (Hd : prefix_freeze_condition capped_leap 2 two_layers_deep
                 [true; true; true] = true) by (vm_compute; reflexivity).
  split; [|split].
  - split; [exact Hc|]. split; [reflexivity|].
    exact (proj2 (freeze_reseeds_frontier leap 2 two_layers_deep
                    [true; true; true] Hc)).
  - split; [exact Hr|]. split; [reflexivity|].
    exact (proj2 (freeze_reseeds_frontier roomy_leap 2 two_layers_deep
                    [true; true; true] Hr)).
  - split; [exact Hd|]. split; [reflexivity|].
    exact (proj2 (freeze_reseeds_frontier capped_leap 2 two_layers_deep
                    [true; true; true] Hd)).
Defined.

(** In the run of the example the prefix is frozen at layer 3, and the
    node popped two events later sits at depth 3. *)
Lemma prefix_freeze_safety_witness :
  fst (synthesize leap 10)
  = take 19 (fst (synthesize leap 10))
    ++ AssignLastPrefixLayer 3 :: drop 20 (fst (synthesize leap 10))
  ∧ Pop 3 ∈ drop 20 (fst (synthesize leap 10))
  ∧ 3 ≤ 3.
Proof.
  assert (Htr : fst (synthesize leap 10)
    = take 19 (fst (synthesize leap 10))
      ++ AssignLastPrefixLayer 3 :: drop 20 (fst (synthesize leap 10)))
    by (vm_compute; reflexivity).
  assert (Hpop : Pop 3 ∈ drop 20 (fst (synthesize leap 10))).
  { apply (list_elem_of_lookup_2 _ 1%nat). vm_compute. reflexivity. }
  split; [exact Htr|]. split; [exact Hpop|].
  exact (prefix_freeze_safety leap 10 _ 3 _ 3 Htr Hpop).
Defined.

(** The limited pass of the example exhausts its frontier. *)
Lemma frontier_emptied_returns_best_witness :
  (empty (frontier exhausted) = true
   ∧ while_loop leap 5 exhausted
     = ([Warning FrontierEmptied;
         Warning (ReturningBest 2 (dyadic 1 (-2)))],
        Some (Returned [true; true] (Some ∅))))
  ∧ (Warning FrontierEmptied ∈ fst (synthesize shallow_leap 10)
     ∧ ∃ pre c ps bl bd,
         synthesize shallow_leap 10
         = (pre ++ [Warning FrontierEmptied; Warning (ReturningBest bl bd)],
            Some (Returned c ps))
         ∧ bd = calc_cost c
         ∧ last (assigned_best_dists pre) = Some bd
         ∧ (is_Some ps ↔ store_partial_solutions shallow_leap = true)
         ∧ Forall (λ e, is_exit_record e = false) pre).
Proof.
  assert (He : empty (frontier exhausted) = true) by reflexivity.
  assert (Hw : Warning FrontierEmptied ∈ fst (synthesize shallow_leap 10)).
  { apply (list_elem_of_lookup_2 _ 16%nat). vm_compute. reflexivity. }
  split.
  - split; [exact He|].
    exact (proj1 (frontier_emptied_returns_best leap 5) exhausted He).
  - split; [exact Hw|].
    exact (proj2 (frontier_emptied_returns_best shallow_leap 10) Hw).
Defined.

(** C9, as stated, fails on the code: the candidate that ends the run of
    the example, a successor of the node popped at depth 6, is returned
    without being stored ([psols] has no bucket for depth 6); with
    [partials_per_depth = -1] the bucket of a processed candidate, empty
    as it is, holds more than [partials_per_depth] entries; and a bucket
    with a cost that is not a number does not ascend, however it is
    sorted. *)
Lemma partial_solutions_counterexample :
  (store_partial_solutions leap = true
   ∧ Pop 6 ∈ fst (synthesize leap 10)
   ∧ flt (calc_cost (repeat true 7)) (success_threshold leap) = true
   ∧ snd (synthesize leap 10)
     = Some (Returned (repeat true 7)
               (Some (returned_psols (synthesize leap 10))))
   ∧ returned_psols (synthesize leap 10) !! 6 = None)
  ∧ (store_partial_solutions odd_leap = true
     ∧ ∃ ev st',
         eval_successor odd_leap 0 initial_state [true] = (ev, Next st')
         ∧ psols st' !! 0 = Some []
         ∧ ¬ buckets_bounded odd_leap (psols st'))
  ∧ (∀ sorting : ListSort Choices,
       partials_per_depth tight_leap < Z.of_nat (length nan_partials)
       ∧ ¬ StronglySorted cost_le (@sort_by_cost _ sorting nan_partials)).
Proof.
  split; [|split].
  - split; [reflexivity|]. split.
    { apply (list_elem_of_lookup_2 _ 41%nat). vm_compute. reflexivity. }
    split; [vm_compute; reflexivity|].
    split; vm_compute; reflexivity.
  - split; [reflexivity|].
    destruct (eval_successor_next odd_leap 0 initial_state [true])
      as (ev & st' & E); [done|apply regular_initial|vm_compute; reflexivity|].
    exists ev, st'. split; [exact E|].
    assert (Hps : psols st' !! 0 = Some []).
    { apply eval_successor_store in E as [_ ->]. vm_compute. reflexivity. }
    split; [exact Hps|].
    intros Hb. specialize (Hb 0 [] Hps). simpl in Hb. lia.
  - intros sorting. split; [simpl; lia|]. intros Hsorted.
    pose proof (@sort_by_cost_perm _ sorting nan_partials) as Hperm.
    symmetry in Hperm. apply Permutation_length_2_inv in Hperm.
    destruct Hperm as [E|E]; rewrite E in Hsorted;
      apply StronglySorted_inv in Hsorted as [_ Hall];
      apply Forall_cons in Hall as [Hle _]; done.
Qed.

(** The amended C9 on the example with room for one partial solution
    per depth: the first candidate of the run is stored at depth 0 and
    the second one, more expensive, is sorted out of the bucket; a
    bucket of three is sorted and loses its most expensive entry; and
    the partial solutions the run stores respect the bound. *)
Lemma partial_solutions_bookkeeping_witness :
  store_partial_solutions tight_leap = true
  ∧ (∃ ev st' ev' st'',
       eval_successor tight_leap 0 initial_state [true] = (ev, Next st')
       ∧ psols st' = {[ 0 := [([true], dyadic 1 (-1))] ]}
       ∧ eval_successor tight_leap 0 st' [false] = (ev', Next st'')
       ∧ psols st'' = {[ 0 := [([true], dyadic 1 (-1))] ]})
  ∧ snd (synthesize tight_leap 10) ≠ Some (Raised ValueError)
  ∧ (partials_per_depth tight_leap < Z.of_nat (length three_partials)
     ∧ three_partials ≠ []
     ∧ Forall (λ x, isnan x.2 = false) three_partials
     ∧ trim_bucket tight_leap three_partials
       = [([true; true], dyadic 1 (-2)); ([true], dyadic 1 (-1))]
     ∧ ∃ worst,
         sort_by_cost three_partials
         = trim_bucket tight_leap three_partials ++ [worst]
         ∧ StronglySorted cost_le (sort_by_cost three_partials)
         ∧ Forall (λ x, cost_le x worst)
             (trim_bucket tight_leap three_partials))
  ∧ (0 ≤ partials_per_depth tight_leap
     ∧ returned_psols (synthesize tight_leap 10) !! 0
       = Some [([true], dyadic 1 (-1))]
     ∧ buckets_bounded tight_leap (returned_psols (synthesize tight_leap 10))).
Proof.
  assert (Hstore : store_partial_solutions tight_leap = true) by reflexivity.
  assert (Hppd : 0 ≤ partials_per_depth tight_leap) by (simpl; lia).
  assert (Hlong : partials_per_depth tight_leap
                  < Z.of_nat (length three_partials)) by (simpl; lia).
  assert (Hne : three_partials ≠ []) by discriminate.
  assert (Hnum : Forall (λ x, isnan x.2 = false) three_partials)
    by (repeat constructor).
  destruct (partial_solutions_bookkeeping tight_leap Hstore)
    as (Hcandidate & Hnever & Htrim & Hbound).
  split; [exact Hstore|]. split; [|split; [|split]].
  - assert (E : ∃ ev st',
      eval_successor tight_leap 0 initial_state [true] = (ev, Next st'))
      by (eexists _, _; vm_compute; reflexivity).
    destruct E as (ev & st' & E).
    assert (Hreg : regular st').
    { apply (eval_successor_regular tight_leap 0 initial_state [true] ev
               (Next st')); [lia|apply regular_initial|exact E]. }
    destruct (eval_successor_next tight_leap 0 st' [false])
      as (ev' & st'' & E'); [lia|exact Hreg|vm_compute; reflexivity|].
    destruct (Hcandidate _ _ _ _ _ E) as [_ Hps].
    destruct (Hcandidate _ _ _ _ _ E') as [_ Hps'].
    exists ev, st', ev', st''. split; [exact E|].
    assert (Hst' : psols (Circuit:=Choices) st'
                   = {[ 0 := [([true], dyadic 1 (-1))] ]}).
    { etrans; [exact Hps|]. vm_compute. reflexivity. }
    split; [exact Hst'|]. split; [exact E'|].
    etrans; [exact Hps'|]. rewrite Hst'. vm_compute. reflexivity.
  - exact (Hnever 10%nat).
  - split; [exact Hlong|]. split; [exact Hne|]. split; [exact Hnum|].
    split; [vm_compute; reflexivity|].
    destruct (proj2 (Htrim three_partials) Hlong Hne)
      as (worst & Hsort & _ & Hasc).
    exists worst. split; [exact Hsort|]. exact (Hasc Hnum).
  - split; [exact Hppd|]. split; [vm_compute; reflexivity|].
    apply (proj2 (Hbound Hppd) 10%nat (fst (synthesize tight_leap 10))
             (returned_circuit (synthesize tight_leap 10))).
    vm_compute. reflexivity.
Defined.

(** The costs of the example are numbers, so every call of
    [check_new_best] in its run has a [dist] at least the threshold. *)
Lemma check_new_best_in_synthesize_witness :
  (∀ c : Choices, isnan (calc_cost c) = false)
  ∧ isnan (success_threshold leap) = false
  ∧ CallCheckNewBest 1 (dyadic 1 0) 1 (dyadic 1 (-1))
      ∈ fst (synthesize leap 10)
  ∧ flt (dyadic 1 0) (success_threshold leap) = false
  ∧ flt (dyadic 1 0) (success_threshold leap) && (1 <? 1) = false
  ∧ (check_new_best leap 1 (dyadic 1 0) 1 (dyadic 1 (-1)) = true →
     flt (dyadic 1 0) (dyadic 1 (-1)) = true)
  ∧ fge (dyadic 1 0) (success_threshold leap) = true
  ∧ Sorted (λ prev next, flt next prev = true)
      (assigned_best_dists (fst (synthesize leap 10))).
Proof.
  assert (Hcost : ∀ c : Choices, isnan (calc_cost c) = false)
    by (intros c; reflexivity).
  assert (Hthr : isnan (success_threshold leap) = false)
    by (vm_compute; reflexivity).
  assert (Hin : CallCheckNewBest 1 (dyadic 1 0) 1 (dyadic 1 (-1))
                  ∈ fst (synthesize leap 10)).
  { apply (list_elem_of_lookup_2 _ 6%nat). vm_compute. reflexivity. }
  destruct (check_new_best_in_synthesize leap 10) as [Hcalls Hsorted].
  destruct (Hcalls _ _ _ _ Hin) as (H1 & H2 & H3 & H4).
  split; [exact Hcost|]. split; [exact Hthr|]. split; [exact Hin|].
  split; [exact H1|]. split; [exact H2|]. split; [exact H3|].
  split; [exact (H4 Hcost Hthr)|exact Hsorted].
Defined.

End LeapWitnesses.

Module LeapNanWitnesses.

Import PyFloat PyFloatFacts Leap LeapExample LeapExampleFacts.
Import LeapNanExample.

(** C10, as stated, fails on the code: a cost that is not a number is
    not below the threshold, so the candidate is handed to
    [check_new_best], with a [dist] that is not at least the threshold
    either. *)
Lemma check_new_best_nan_counterexample :
  CallCheckNewBest 1 S754_nan 0 (dyadic 1 0)
    ∈ fst (synthesize (Circuit:=Layers) shallow_leap 5)
  ∧ calc_cost (Depth 1) = S754_nan
  ∧ flt S754_nan (success_threshold shallow_leap) = false
  ∧ fge S754_nan (success_threshold shallow_leap) = false.
Proof.
  split.
  { apply (list_elem_of_lookup_2 _ 3%nat). vm_compute. reflexivity. }
  split; [reflexivity|]. split; vm_compute; reflexivity.
Qed.

End LeapNanWitnesses.

Module CompileWitnesses.

Import PyFloat Compile CompileExample CompileProps.

Lemma block0_covered loc :
  (2 ≤ length loc)%nat →
  location_covers loc (coupling_graph cnot_u3_cnot).
Proof.
  intros Hlen e He. vm_compute in He.
  apply list_elem_of_singleton in He as ->. simpl. lia.
Qed.

(** The replace filter on the line model: a plain gate, a block with a
    non-native iSWAP, a block placed across the missing edge (0, 2),
    then a native block on the edge (0, 1) with a replacement of fewer
    CNOTs, with one of as many CNOTs and fewer U3s, and with an equally
    long one. *)
Lemma replace_filter_spec_witness :
  (as_circuit_gate (gate (op CNOT [0; 1])) = None
   ∧ _gen_replace_filter line shorter (op CNOT [0; 1]) = Ok true)
  ∧ (ISwap ∈ gate_set iswap_only
     ∧ (ISwap ∉ model_gate_set line)
     ∧ _gen_replace_filter line shorter (op (Block 1) [0; 1]) = Ok true)
  ∧ (map_edge [0; 2] (0, 1) = Ok (0, 2)
     ∧ in_coupling_graph (0, 2) (model_coupling_graph line) = false
     ∧ _gen_replace_filter line shorter (op (Block 0) [0; 2]) = Ok true)
  ∧ (multi_qudit_operations shorter = 1
     ∧ multi_qudit_operations cnot_u3_cnot = 2
     ∧ _gen_replace_filter line shorter (op (Block 0) [0; 1]) = Ok true)
  ∧ (multi_qudit_operations two_cnots = 2
     ∧ single_qudit_operations two_cnots = 0
     ∧ single_qudit_operations cnot_u3_cnot = 1
     ∧ _gen_replace_filter line two_cnots (op (Block 0) [0; 1]) = Ok true)
  ∧ (multi_qudit_operations same_counts = 2
     ∧ single_qudit_operations same_counts = 1
     ∧ _gen_replace_filter line same_counts (op (Block 0) [0; 1]) = Ok false).
Proof.
  assert (Hplain : as_circuit_gate (gate (op CNOT [0; 1])) = None)
    by reflexivity.
  assert (Hin : ISwap ∈ gate_set iswap_only).
  { apply (list_elem_of_lookup_2 _ 0%nat). reflexivity. }
  assert (Hout : ISwap ∉ model_gate_set line).
  { simpl. rewrite !not_elem_of_cons. split_and?; try done.
    apply not_elem_of_nil. }
  assert (Hnative : ∀ g, g ∈ gate_set cnot_u3_cnot →
                         g ∈ model_gate_set line).
  { intros g Hg. vm_compute in Hg.
    apply elem_of_cons in Hg as [->|Hg];
      [|apply list_elem_of_singleton in Hg as ->]; simpl; repeat constructor. }
  assert (Hinside : ∀ e p,
    e ∈ coupling_graph cnot_u3_cnot →
    map_edge [0; 1] e = Ok p →
    in_coupling_graph p (model_coupling_graph line) = true).
  { intros e p He. vm_compute in He.
    apply list_elem_of_singleton in He as ->. by intros [= <-]. }
  assert (Hb0 : as_circuit_gate (gate (op (Block 0) [0; 1]))
                = Some cnot_u3_cnot) by reflexivity.
  assert (Hcov0 : location_covers [0; 1] (coupling_graph cnot_u3_cnot))
    by (apply block0_covered; simpl; lia).
  split; [|split; [|split; [|split; [|split]]]].
  - split; [exact Hplain|].
    exact (proj1 (replace_filter_spec line shorter (op CNOT [0; 1])) Hplain).
  - split; [exact Hin|]. split; [exact Hout|].
    refine (proj1 (proj2 (replace_filter_spec line shorter
                            (op (Block 1) [0; 1])) iswap_only eq_refl) _).
    exists ISwap. by split.
  - split; [reflexivity|]. split; [reflexivity|].
    refine (proj1 (proj2 (proj2 (replace_filter_spec line shorter
              (op (Block 0) [0; 2])) cnot_u3_cnot eq_refl)
              (block0_covered _ _)) _).
    + simpl. lia.
    + exists (0, 1), (0, 2). split; [|by split].
      apply (list_elem_of_lookup_2 _ 0%nat). reflexivity.
  - destruct (proj2 (proj2 (proj2 (replace_filter_spec line shorter
                (op (Block 0) [0; 1])) cnot_u3_cnot Hb0) Hcov0)
                Hnative Hinside) as (_ & Hiff & _).
    split; [reflexivity|]. split; [reflexivity|].
    apply Hiff. left. vm_compute. reflexivity.
  - destruct (proj2 (proj2 (proj2 (replace_filter_spec line two_cnots
                (op (Block 0) [0; 1])) cnot_u3_cnot Hb0) Hcov0)
                Hnative Hinside) as (_ & Hiff & _).
    split; [reflexivity|]. split; [reflexivity|]. split; [reflexivity|].
    apply Hiff. right. split; vm_compute; reflexivity.
  - destruct (proj2 (proj2 (proj2 (replace_filter_spec line same_counts
                (op (Block 0) [0; 1])) cnot_u3_cnot Hb0) Hcov0)
                Hnative Hinside) as (_ & _ & Htie).
    split; [reflexivity|]. split; [reflexivity|].
    apply Htie; vm_compute; reflexivity.
Defined.

(** C7, as stated, fails on the code: a circuit whose only gate wider
    than [max_synthesis_size] is a measurement placeholder passes every
    check and is handed to the workflow builder. *)
Lemma compile_wide_measurement_counterexample :
  Measure 4 ∈ gate_set measured
  ∧ 3 < num_qudits (Measure 4)
  ∧ compile (InCircuit measured) None 1 3
    = Ok (CircuitWorkflow measured (default_model 4)).
Proof.
  split; [|split].
  - apply (list_elem_of_lookup_2 _ 1%nat). reflexivity.
  - simpl. lia.
  - vm_compute. reflexivity.
Qed.

(** The checks of [compile] on the examples: an input of the wrong kind,
    a model with a qutrit, a model smaller than the circuit, a Toffoli
    wider than [max_synthesis_size = 2], a unitary on three qubits, and a
    model without a multi-qudit gate. *)
Lemma compile_rejects_witness :
  compile InOther (Some line) 1 3 = Raise TypeError
  ∧ (all_qubits (model_radixes with_qutrit) = false
     ∧ compile (InCircuit wide) (Some with_qutrit) 1 3 = Raise ValueError)
  ∧ (model_num_qudits line < input_num_qudits (InCircuit measured)
     ∧ compile (InCircuit measured) (Some line) 1 3 = Raise ValueError)
  ∧ (circuit_wf wide
     ∧ Toffoli ∈ gate_set wide
     ∧ 2 < num_qudits Toffoli
     ∧ compile (InCircuit wide) (Some line) 1 2 = Raise ValueError)
  ∧ (2 < input_num_qudits unitary3
     ∧ compile unitary3 None 1 2 = Raise ValueError)
  ∧ ((∀ g, g ∈ model_gate_set no_entangler → num_qudits g < 2)
     ∧ 1 < input_num_qudits (InCircuit wide)
     ∧ compile (InCircuit wide) (Some no_entangler) 1 3 = Raise ValueError).
Proof.
  assert (Hwf : circuit_wf wide).
  { intros g Hg. vm_compute in Hg.
    apply elem_of_cons in Hg as [->|Hg];
      [|apply list_elem_of_singleton in Hg as ->]; simpl; lia. }
  assert (Htoffoli : Toffoli ∈ gate_set wide).
  { apply (list_elem_of_lookup_2 _ 1%nat). reflexivity. }
  assert (Hsingle : ∀ g, g ∈ model_gate_set no_entangler → num_qudits g < 2).
  { intros g Hg. apply list_elem_of_singleton in Hg as ->. simpl. lia. }
  split; [|split; [|split; [|split; [|split]]]].
  - exact (proj1 (compile_rejects InOther (Some line) 1 3) eq_refl).
  - split; [reflexivity|].
    refine (proj1 (proj2 (compile_rejects (InCircuit wide) (Some with_qutrit)
                            1 3) _) _); [done|].
    right. reflexivity.
  - split; [simpl; lia|].
    refine (proj1 (proj2 (proj2 (compile_rejects (InCircuit measured)
                                   (Some line) 1 3) _)) _); [done|].
    simpl. lia.
  - split; [exact Hwf|]. split; [exact Htoffoli|]. split; [simpl; lia|].
    refine (proj1 (proj2 (proj2 (proj2 (compile_rejects (InCircuit wide)
              (Some line) 1 2) _))) wide eq_refl Hwf _); [done|].
    exists Toffoli. split; [exact Htoffoli|]. split; [simpl; lia|reflexivity].
  - split; [simpl; lia|].
    refine (proj1 (proj2 (proj2 (proj2 (proj2 (compile_rejects
              unitary3 None 1 2) _)))) _ _); [done|simpl; lia|].
    left. eauto.
  - split; [exact Hsingle|]. split; [simpl; lia|].
    refine (proj2 (proj2 (proj2 (proj2 (proj2 (compile_rejects
              (InCircuit wide) (Some no_entangler) 1 3) _)))) Hsingle _);
      [done|simpl; lia].
Defined.

End CompileWitnesses.

(** ** Further properties of [synthesize] *)

Module LeapRunMore.

Import PyFloat PyFloatFacts Leap LeapObservations LeapRun.

(** *** Reading a trace *)

Lemma popped_layers_app tr1 tr2 :
  popped_layers (tr1 ++ tr2) = popped_layers tr1 ++ popped_layers tr2.
Proof. apply omap_app. Qed.

Lemma popped_layers_cons e tr :
  popped_layers (e :: tr)
  = match e with Pop layer => layer :: popped_layers tr
    | _ => popped_layers tr end.
Proof. by destruct e. Qed.

Lemma freeze_layers_app tr1 tr2 :
  freeze_layers (tr1 ++ tr2) = freeze_layers tr1 ++ freeze_layers tr2.
Proof. apply omap_app. Qed.

Lemma freeze_layers_cons e tr :
  freeze_layers (e :: tr)
  = match e with AssignLastPrefixLayer layer => layer :: freeze_layers tr
    | _ => freeze_layers tr end.
Proof. by destruct e. Qed.

Lemma checked_dists_app tr1 tr2 :
  checked_dists (tr1 ++ tr2) = checked_dists tr1 ++ checked_dists tr2.
Proof. apply omap_app. Qed.

Lemma checked_dists_cons e tr :
  checked_dists (e :: tr)
  = match e with CallCheckNewBest _ dist _ _ => dist :: checked_dists tr
    | _ => checked_dists tr end.
Proof. by destruct e. Qed.

Lemma no_progress_warnings_app tr1 tr2 :
  no_progress_warnings (tr1 ++ tr2)
  = no_progress_warnings tr1 ++ no_progress_warnings tr2.
Proof. apply omap_app. Qed.

Lemma no_progress_warnings_cons e tr :
  no_progress_warnings (e :: tr)
  = match e with Warning (NoImprovement n) => n :: no_progress_warnings tr
    | _ => no_progress_warnings tr end.
Proof. destruct e as [m|m| | | |]; try done; by destruct m. Qed.

Lemma successes_app tr1 tr2 :
  successes (tr1 ++ tr2) = successes tr1 ++ successes tr2.
Proof. apply omap_app. Qed.

Lemma successes_cons e tr :
  successes (e :: tr)
  = match e with Debug (SuccessfulSynthesis n) => n :: successes tr
    | _ => successes tr end.
Proof. destruct e as [m|m| | | |]; try done; by destruct m. Qed.

Lemma observations_nil :
  popped_layers [] = [] ∧ freeze_layers [] = [] ∧ checked_dists [] = []
  ∧ no_progress_warnings [] = [] ∧ successes [] = [].
Proof. done. Qed.

(** Reads the observations off a trace built from conses and appends. *)
Ltac observe :=
  repeat (progress rewrite ?popped_layers_app, ?popped_layers_cons,
    ?freeze_layers_app, ?freeze_layers_cons,
    ?checked_dists_app, ?checked_dists_cons,
    ?no_progress_warnings_app, ?no_progress_warnings_cons,
    ?successes_app, ?successes_cons);
  cbv beta iota;
  change (popped_layers []) with (@nil Z);
  change (freeze_layers []) with (@nil Z);
  change (checked_dists []) with (@nil float);
  change (no_progress_warnings []) with (@nil Z);
  change (successes []) with (@nil Z);
  rewrite ?app_nil_r, ?app_nil_l.

Section Run.
Context {Circuit : Type}.
Context `{!CostFunctionGenerator Circuit} `{!LayerGenerator Circuit}.
Context `{!HeuristicFunction Circuit} `{!Instantiater Circuit} `{!Regression}.
Context `{!ListSort Circuit}.

Implicit Types (self : LEAPSynthesisPass) (st : State Circuit).
Implicit Types (layer : Z) (ev tr : list Event) (fl : Flow Circuit).

(** *** Induction over a batch and over the rounds *)

Lemma eval_successors_induction self layer
    (P : State Circuit → list Event → Flow Circuit → Prop) :
  (∀ st, P st [] (Next st)) →
  (∀ st c ev o,
     eval_successor self layer st c = (ev, Stop o) → P st ev (Stop o)) →
  (∀ st c ev st' ev' fl,
     eval_successor self layer st c = (ev, Next st') →
     P st' ev' fl → P st (ev ++ ev') fl) →
  ∀ circuits st,
    P st (fst (eval_successors self layer circuits st))
         (snd (eval_successors self layer circuits st)).
Proof.
  intros Hnil Hstop Hnext circuits.
  induction circuits as [|c circuits IH]; intros st; simpl; [apply Hnil|].
  destruct (eval_successor self layer st c) as [ev [st'|o]] eqn:E.
  - specialize (IH st').
    destruct (eval_successors self layer circuits st') as [ev' fl].
    simpl in *. eapply Hnext; eassumption.
  - simpl. eapply Hstop; eassumption.
Qed.

Lemma while_loop_induction self
    (P : State Circuit → list Event → option (Outcome Circuit) → Prop) :
  (∀ st, empty (frontier st) = true →
         P st (fst (frontier_emptied self st))
              (Some (snd (frontier_emptied self st)))) →
  (∀ st, empty (frontier st) = false → P st [] None) →
  (∀ st ev o, empty (frontier st) = false →
              iteration self st = (ev, Stop o) → P st ev (Some o)) →
  (∀ st ev st' ev' r, empty (frontier st) = false →
                      iteration self st = (ev, Next st') →
                      P st' ev' r → P st (ev ++ ev') r) →
  ∀ fuel st,
    P st (fst (while_loop self fuel st)) (snd (while_loop self fuel st)).
Proof.
  intros Hempty Hfuel Hstop Hnext fuel.
  induction fuel as [|fuel IH]; intros st; simpl;
    destruct (empty (frontier st)) eqn:He; try (by apply Hempty);
    [by apply Hfuel|].
  destruct (iteration self st) as [ev [st'|o]] eqn:E.
  - specialize (IH st'). destruct (while_loop self fuel st') as [ev' r].
    simpl in *. eapply Hnext; eassumption.
  - simpl. by eapply Hstop.
Qed.

(** The ways a round ends: a childless node, a batch that stops, or a
    batch that goes on to the no-progress check. *)
Lemma iteration_cases self st ev fl :
  iteration self st = (ev, fl) →
  (pop (frontier st) = None ∧ ev = [] ∧ fl = Stop (Raised IndexError))
  ∨ ∃ top layer fr,
      pop (frontier st) = Some (top, layer, fr)
      ∧ ((gen_successors top = [] ∧ ev = [Pop layer]
          ∧ fl = Next (set_frontier fr st))
         ∨ (gen_successors top ≠ []
            ∧ ∃ ev1 fl1,
                eval_successors self layer (map instantiate (gen_successors top))
                  (set_frontier fr st) = (ev1, fl1)
                ∧ match fl1 with
                  | Stop o => ev = Pop layer :: ev1 ∧ fl = Stop o
                  | Next st1 =>
                      ∃ ev2, warn_no_progress self layer st1 = (ev2, fl)
                             ∧ ev = Pop layer :: ev1 ++ ev2
                  end)).
Proof.
  unfold iteration.
  destruct (pop (frontier st)) as [[[top layer] fr]|]; [|intros [= <- <-]; auto].
  destruct (Nat.eqb_spec (length (gen_successors top)) 0) as [Hl|Hl].
  { apply length_zero_iff_nil in Hl.
    intros [= <- <-]. right. exists top, layer, fr. auto. }
  assert (gen_successors top ≠ []) by (intros E; by rewrite E in Hl).
  destruct (eval_successors _ _ _ _) as [ev1 [st1|o]] eqn:E1.
  - destruct (warn_no_progress self layer st1) as [ev2 fl2] eqn:E2.
    intros [= <- <-]. right. exists top, layer, fr. split; [done|].
    right. split; [done|]. exists ev1, (Next st1). split; [done|]. eauto.
  - intros [= <- <-]. right. exists top, layer, fr. split; [done|].
    right. split; [done|]. exists ev1, (Stop o). auto.
Qed.

(** A candidate stops the loop by being returned as a success, or,
    being a new best, because [linregress] refuses the history. *)
Lemma eval_successor_stop self layer st c ev o :
  eval_successor self layer st c = (ev, Stop o) →
  (flt (calc_cost c) (success_threshold self) = true
   ∧ ev = [Debug (SuccessfulSynthesis (layer + 1))]
   ∧ o = Returned c (stored_psols self st))
  ∨ (o = Raised ValueError
     ∧ flt (calc_cost c) (success_threshold self) = false
     ∧ linregress_rejects (best_layers st) (best_dists st) = true).
Proof.
  revert ev o. intros ev o.
  eval_successor_cases_with Hs Hnb Hrej Hleap Hmax; auto.
Qed.

(** *** Exceptions *)

Lemma warn_no_progress_cases self layer st ev fl :
  warn_no_progress self layer st = (ev, fl) →
  (no_progress_layers_allowed self = 0 ∧ ev = []
   ∧ fl = Stop (Raised ZeroDivisionError))
  ∨ (no_progress_layers_allowed self ≠ 0
     ∧ ((ev = [] ∧ fl = Next st)
        ∨ (ev = [Warning (NoImprovement (no_progress_layers_allowed self))]
           ∧ (layer ∉ warned_layers st)
           ∧ fl = Next (set_warned_layers (warned_layers st ++ [layer]) st)))).
Proof.
  unfold warn_no_progress.
  destruct (Z.eqb_spec (no_progress_layers_allowed self) 0) as [Hz|Hz].
  { intros [= <- <-]. auto. }
  destruct (_ && _ && _) eqn:Hc; intros [= <- <-]; right; split; auto.
  right. split; [done|]. split; [|done].
  apply andb_true_iff in Hc as [_ Hc%negb_true_iff].
  by apply bool_decide_eq_false in Hc.
Qed.

(** X1.  [synthesize] ends with an exception in one case only: the
    [ZeroDivisionError] of [layer_diff % self.no_progress_layers_allowed]
    when [no_progress_layers_allowed] is zero.  In particular the frontier
    is never popped when empty. *)
Theorem synthesize_raises_only_on_zero_modulus self fuel e :
  snd (synthesize self fuel) = Some (Raised e) →
  e = ZeroDivisionError ∧ no_progress_layers_allowed self = 0.
Proof.
  unfold synthesize. destruct (flt _ _); [done|].
  destruct (while_loop self fuel initial_state) as [ev r] eqn:E.
  intros Hr. simpl in Hr.
  apply (while_loop_raises self fuel initial_state);
    [apply regular_initial|by rewrite E].
Qed.

(** X2.  With [no_progress_layers_allowed = 0], a search whose initial
    layer is not a solution and has successors ends in its first round:
    with a successor of the initial layer that meets the threshold, or
    else with [ZeroDivisionError]. *)
Theorem zero_modulus_ends_first_round self fuel :
  no_progress_layers_allowed self = 0 →
  flt (calc_cost (instantiate gen_initial_layer)) (success_threshold self)
  = false →
  gen_successors (instantiate gen_initial_layer) ≠ [] →
  snd (synthesize self (S fuel)) = Some (Raised ZeroDivisionError)
  ∨ ∃ c ps,
      snd (synthesize self (S fuel)) = Some (Returned c ps)
      ∧ c ∈ map instantiate (gen_successors (instantiate gen_initial_layer))
      ∧ flt (calc_cost c) (success_threshold self) = true.
Proof.
  intros Hz Hs Hsucc. unfold synthesize. simpl best_dist. rewrite Hs.
  simpl while_loop. change (empty (frontier initial_state)) with false.
  cbv iota.
  destruct (iteration self initial_state) as [ev fl] eqn:E.
  apply iteration_cases in E as [(Hpop & _)|(top & layer & fr & Hpop & E)].
  { done. }
  destruct (regular_pop _ _ _ _ regular_initial Hpop) as [Hl Hreg].
  injection Hpop as <- <- <-.
  destruct E as [(Hnil & _)|(_ & ev1 & fl1 & E1 & E)]; [done|].
  apply (eval_successors_regular _ _ _ _ _ _ Hl Hreg) in E1.
  destruct fl1 as [st1|o].
  - destruct E as (ev2 & E2 & _).
    apply warn_no_progress_cases in E2 as [(_ & _ & ->)|(Hnz & _)]; [|done].
    by left.
  - destruct E as [_ ->]. destruct E1 as (c & ps & -> & Hin & Hc & _).
    right. by exists c, ps.
Qed.

(** [synthesize] is the prologue followed by the main loop. *)
Lemma synthesize_unfold self fuel :
  synthesize self fuel
  = let d0 := calc_cost (instantiate gen_initial_layer) in
    if flt d0 (success_threshold self) then
      ([AssignBestDist d0; Debug (SearchStarted d0);
        Debug (SuccessfulSynthesis 0)],
       Some (Returned (instantiate gen_initial_layer) None))
    else
      (AssignBestDist d0 :: Debug (SearchStarted d0)
         :: fst (while_loop self fuel initial_state),
       snd (while_loop self fuel initial_state)).
Proof.
  unfold synthesize. simpl. destruct (flt _ _); [done|].
  by destruct (while_loop self fuel initial_state).
Qed.

(** *** The layer limit *)

Lemma depth_lt_add ml (fr : Frontier Circuit) c layer :
  depth_lt ml (add fr c layer) ↔ depth_lt ml fr ∧ 0 ≤ layer < ml.
Proof.
  unfold depth_lt, add. simpl. by rewrite Forall_app, Forall_singleton.
Qed.

Lemma depth_lt_pop ml (fr fr' : Frontier Circuit) c layer :
  depth_lt ml fr → pop fr = Some (c, layer, fr') →
  0 ≤ layer < ml ∧ depth_lt ml fr'.
Proof.
  unfold depth_lt, pop.
  destruct (pop_min (entries fr)) as [[m rest]|] eqn:E; [|done].
  intros Hfr [= <- <- <-]. simpl.
  rewrite (pop_min_perm _ _ _ E) in Hfr. by apply Forall_cons in Hfr.
Qed.

Lemma below_max_layer_lt self layer ml :
  max_layer self = Some ml → below_max_layer self layer = true → layer < ml.
Proof. unfold below_max_layer. intros ->. apply Z.ltb_lt. Qed.

Lemma eval_successor_depth_lt self ml layer st c ev fl :
  max_layer self = Some ml → 0 ≤ layer < ml →
  depth_lt ml (frontier st) →
  eval_successor self layer st c = (ev, fl) →
  popped_layers ev = []
  ∧ Forall (λ n, 0 ≤ n ≤ ml) (successes ev)
  ∧ match fl with
    | Next st' => depth_lt ml (frontier st')
    | Stop _ => True
    end.
Proof.
  intros Hml Hl Hfr.
  eval_successor_cases Hs Hnb Hleap Hmax;
    try (pose proof (below_max_layer_lt _ _ _ Hml Hmax));
    split_and?; try done; rewrite ?depth_lt_add;
    repeat (first [ split | apply Forall_nil | apply Forall_cons ]);
    try done; lia.
Qed.

Lemma eval_successors_depth_lt self ml layer circuits st ev fl :
  max_layer self = Some ml → 0 ≤ layer < ml →
  depth_lt ml (frontier st) →
  eval_successors self layer circuits st = (ev, fl) →
  popped_layers ev = []
  ∧ Forall (λ n, 0 ≤ n ≤ ml) (successes ev)
  ∧ match fl with
    | Next st' => depth_lt ml (frontier st')
    | Stop _ => True
    end.
Proof.
  intros Hml Hl Hfr E.
  pose proof (eval_successors_induction self layer
    (λ st ev fl,
       depth_lt ml (frontier st) →
       popped_layers ev = []
       ∧ Forall (λ n, 0 ≤ n ≤ ml) (successes ev)
       ∧ match fl with
         | Next st' => depth_lt ml (frontier st')
         | Stop _ => True
         end)) as Hind.
  specialize (Hind ltac:(by intros; split_and?; try constructor)).
  specialize (Hind ltac:(intros ? ? ? ? E1 H1;
    by apply (eval_successor_depth_lt _ _ _ _ _ _ _ Hml Hl H1 E1))).
  assert (Hnext : ∀ st c ev st' ev' fl,
    eval_successor self layer st c = (ev, Next st') →
    (depth_lt ml (frontier st') →
     popped_layers ev' = []
     ∧ Forall (λ n, 0 ≤ n ≤ ml) (successes ev')
     ∧ match fl with
       | Next st'0 => depth_lt ml (frontier st'0)
       | Stop _ => True
       end) →
    depth_lt ml (frontier st) →
    popped_layers (ev ++ ev') = []
    ∧ Forall (λ n, 0 ≤ n ≤ ml) (successes (ev ++ ev'))
    ∧ match fl with
      | Next st'0 => depth_lt ml (frontier st'0)
      | Stop _ => True
      end).
  { intros st0 c ev0 st' ev' fl0 E1 IH H1.
    destruct (eval_successor_depth_lt _ _ _ _ _ _ _ Hml Hl H1 E1)
      as (Hp & Hsucc & Hfr').
    destruct (IH Hfr') as (Hp' & Hsucc' & Hfl).
    observe. rewrite Hp, Hp'.
    split_and?; try done. by apply Forall_app. }
  specialize (Hind Hnext circuits st). rewrite E in Hind. by apply Hind.
Qed.

Lemma while_loop_depth_lt self fuel ml st :
  max_layer self = Some ml →
  depth_lt ml (frontier st) →
  Forall (λ layer, 0 ≤ layer < ml)
    (popped_layers (fst (while_loop self fuel st)))
  ∧ Forall (λ n, 0 ≤ n ≤ ml) (successes (fst (while_loop self fuel st))).
Proof.
  intros Hml.
  apply (while_loop_induction self (λ st tr _,
    depth_lt ml (frontier st) →
    Forall (λ layer, 0 ≤ layer < ml) (popped_layers tr)
    ∧ Forall (λ n, 0 ≤ n ≤ ml) (successes tr))).
  - intros; split; constructor.
  - intros; split; constructor.
  - intros st0 ev o He E Hfr.
    apply iteration_cases in E as [(_ & -> & _)|(top & layer & fr & Hpop & E)].
    { split; constructor. }
    destruct (depth_lt_pop _ _ _ _ _ Hfr Hpop) as [Hl Hfr'].
    destruct E as [(_ & -> & _)|(_ & ev1 & fl1 & E1 & E)].
    { split; repeat constructor; lia. }
    destruct (eval_successors_depth_lt _ _ _ _ (set_frontier fr st0) _ _
                Hml Hl Hfr' E1) as (Hp & Hsucc & _).
    destruct fl1 as [st1|o1]; [destruct E as (ev2 & E2 & ->)|destruct E as [-> _]].
    + apply warn_no_progress_cases in E2
        as [(_ & -> & _)|(_ & [(-> & _)|(-> & _)])];
        observe; rewrite Hp;
        split; repeat constructor; try done; lia.
    + observe. rewrite Hp.
      split; repeat constructor; try done; lia.
  - intros st0 ev st' ev' r He E IH Hfr.
    apply iteration_cases in E as [(_ & _ & [=])|(top & layer & fr & Hpop & E)].
    destruct (depth_lt_pop _ _ _ _ _ Hfr Hpop) as [Hl Hfr'].
    destruct E as [(_ & -> & [= ->])|(_ & ev1 & fl1 & E1 & E)].
    { destruct (IH Hfr') as [IH1 IH2]. observe.
      split; [constructor|]; done. }
    destruct (eval_successors_depth_lt _ _ _ _ (set_frontier fr st0) _ _
                Hml Hl Hfr' E1) as (Hp & Hsucc & Hfr1).
    destruct fl1 as [st1|o1]; [destruct E as (ev2 & E2 & ->)|by destruct E].
    apply warn_no_progress_cases in E2
      as [(_ & _ & [=])|(_ & [(-> & [= ->])|(-> & _ & [= ->])])];
      destruct (IH Hfr1) as [IH1 IH2];
      observe; rewrite Hp;
      (split; [constructor; [lia|done]|]);
      repeat (apply Forall_app; split); done.
Qed.

(** X3.  With [max_layer] set (to a positive number, as the constructor
    demands), every node popped from the frontier sits at a depth below
    [max_layer], and a success is never reported with more than
    [max_layer] layers. *)
Theorem max_layer_bounds_search self fuel ml :
  max_layer self = Some ml → 0 < ml →
  Forall (λ layer, 0 ≤ layer < ml) (popped_layers (fst (synthesize self fuel)))
  ∧ Forall (λ n, 0 ≤ n ≤ ml) (successes (fst (synthesize self fuel))).
Proof.
  intros Hml Hpos.
  rewrite synthesize_unfold. cbv zeta. destruct (flt _ _); cbn [fst]; observe.
  { split; repeat constructor; lia. }
  apply while_loop_depth_lt; [done|].
  apply depth_lt_add. split; [constructor|lia].
Qed.

(** *** A run as a sequence of steps *)

(** To show a property [P] of what remains of a run at the head of the
    main loop, along with a property [Q layer] of what remains of it
    inside the batch of a node popped at depth [layer], it is enough to
    look at each step on its own: the exits, the pop, one candidate, the
    end of a batch and the warning. *)
Lemma run_induction self
    (P : State Circuit → list Event → option (Outcome Circuit) → Prop)
    (Q : Z → State Circuit → list Event → option (Outcome Circuit) → Prop) :
  (∀ st, empty (frontier st) = true →
     P st (fst (frontier_emptied self st))
          (Some (snd (frontier_emptied self st)))) →
  (∀ st, P st [] None) →
  (∀ st top layer fr tr r,
     pop (frontier st) = Some (top, layer, fr) →
     Q layer (set_frontier fr st) tr r → P st (Pop layer :: tr) r) →
  (∀ layer st c ev o,
     eval_successor self layer st c = (ev, Stop o) → Q layer st ev (Some o)) →
  (∀ layer st c ev st' tr r,
     eval_successor self layer st c = (ev, Next st') →
     Q layer st' tr r → Q layer st (ev ++ tr) r) →
  (∀ layer st tr r, P st tr r → Q layer st tr r) →
  (∀ layer st,
     no_progress_layers_allowed self = 0 →
     Q layer st [] (Some (Raised ZeroDivisionError))) →
  (∀ layer st tr r,
     no_progress_layers_allowed self ≠ 0 →
     layer ∉ warned_layers st →
     P (set_warned_layers (warned_layers st ++ [layer]) st) tr r →
     Q layer st (Warning (NoImprovement (no_progress_layers_allowed self)) :: tr)
       r) →
  ∀ fuel st,
    P st (fst (while_loop self fuel st)) (snd (while_loop self fuel st)).
Proof.
  intros Hexh Hfuel Hpop Hsucc Hcand Hend Hzero Hwarn.
  assert (Hbatch : ∀ layer circuits st ev fl tail r,
    eval_successors self layer circuits st = (ev, fl) →
    match fl with
    | Next st' => Q layer st' tail r
    | Stop o => tail = [] ∧ r = Some o
    end →
    Q layer st (ev ++ tail) r).
  { intros layer circuits st ev fl tail r E.
    pose proof (eval_successors_induction self layer
      (λ st ev fl, ∀ tail r,
         match fl with
         | Next st' => Q layer st' tail r
         | Stop o => tail = [] ∧ r = Some o
         end → Q layer st (ev ++ tail) r)) as Hind.
    cbv beta in Hind. specialize (Hind ltac:(done)).
    assert (Hs : ∀ st c ev o,
      eval_successor self layer st c = (ev, Stop o) →
      ∀ tail r, tail = [] ∧ r = Some o → Q layer st (ev ++ tail) r).
    { intros st0 c ev0 o E0 tail0 r0 [-> ->]. rewrite app_nil_r.
      by eapply Hsucc. }
    specialize (Hind Hs).
    assert (Hn : ∀ st c ev st' ev' fl,
      eval_successor self layer st c = (ev, Next st') →
      (∀ tail r,
         match fl with
         | Next st'0 => Q layer st'0 tail r
         | Stop o => tail = [] ∧ r = Some o
         end → Q layer st' (ev' ++ tail) r) →
      ∀ tail r,
        match fl with
        | Next st'0 => Q layer st'0 tail r
        | Stop o => tail = [] ∧ r = Some o
        end → Q layer st ((ev ++ ev') ++ tail) r).
    { intros st0 c ev0 st' ev' fl0 E0 IH tail0 r0 Hc.
      rewrite <- app_assoc. eapply Hcand; [exact E0|]. by apply IH. }
    specialize (Hind Hn circuits st). rewrite E in Hind. apply Hind. }
  apply while_loop_induction.
  - exact Hexh.
  - intros; apply Hfuel.
  - intros st ev o He E.
    apply iteration_cases in E as [(Hp & _)|(top & layer & fr & Hpop' & E)].
    { destruct (pop_nonempty _ He) as [x Hx]. congruence. }
    destruct E as [(_ & _ & [=])|(_ & ev1 & fl1 & E1 & E)].
    destruct fl1 as [st1|o1].
    + destruct E as (ev2 & E2 & ->).
      apply warn_no_progress_cases in E2
        as [(Hz & -> & [= ->])|(_ & [(_ & [=])|(_ & _ & [=])])].
      eapply Hpop; [exact Hpop'|].
      eapply Hbatch; [exact E1|]. by apply Hzero.
    + destruct E as [-> [= ->]].
      eapply Hpop; [exact Hpop'|].
      rewrite <- (app_nil_r ev1). eapply Hbatch; [exact E1|]. done.
  - intros st ev st' ev' r He E IH.
    apply iteration_cases in E as [(_ & _ & [=])|(top & layer & fr & Hpop' & E)].
    destruct E as [(_ & -> & [= ->])|(_ & ev1 & fl1 & E1 & E)].
    { simpl. eapply Hpop; [exact Hpop'|]. by apply Hend. }
    destruct fl1 as [st1|o1]; [|by destruct E].
    destruct E as (ev2 & E2 & ->).
    apply warn_no_progress_cases in E2
      as [(_ & _ & [=])|(Hnz & [(-> & [= ->])|(-> & Hnw & [= ->])])].
    + rewrite app_nil_r. simpl. eapply Hpop; [exact Hpop'|].
      eapply Hbatch; [exact E1|]. by apply Hend.
    + simpl. rewrite <- app_assoc. eapply Hpop; [exact Hpop'|].
      eapply Hbatch; [exact E1|]. simpl. by apply Hwarn.
Qed.

(** The same for a whole call, prologue included. *)
Lemma synthesize_induction self
    (P : State Circuit → list Event → option (Outcome Circuit) → Prop)
    (R : list Event → option (Outcome Circuit) → Prop) :
  (∀ fuel, P initial_state (fst (while_loop self fuel initial_state))
             (snd (while_loop self fuel initial_state))) →
  (let d0 := calc_cost (instantiate gen_initial_layer) in
   flt d0 (success_threshold self) = true →
   R [AssignBestDist d0; Debug (SearchStarted d0);
      Debug (SuccessfulSynthesis 0)]
     (Some (Returned (instantiate gen_initial_layer) None))) →
  (let d0 := calc_cost (instantiate gen_initial_layer) in
   ∀ tr r, flt d0 (success_threshold self) = false →
           P initial_state tr r →
           R (AssignBestDist d0 :: Debug (SearchStarted d0) :: tr) r) →
  ∀ fuel, R (fst (synthesize self fuel)) (snd (synthesize self fuel)).
Proof.
  intros Hloop Hzero Hrun fuel. rewrite synthesize_unfold. cbv zeta.
  destruct (flt _ _) eqn:E; simpl; [by apply Hzero|].
  apply Hrun; [done|apply Hloop].
Qed.

(** *** What is returned *)

Lemma last_cons_Some {A} (x y : A) (l : list A) :
  last l = Some y → last (x :: l) = Some y.
Proof. destruct l; [done|]. by intros <-. Qed.

Lemma last_app_Some {A} (l1 l2 : list A) (y : A) :
  last l2 = Some y → last (l1 ++ l2) = Some y.
Proof.
  intros Hl. induction l1 as [|x l1 IH]; [done|].
  simpl app. by apply last_cons_Some.
Qed.

(** A candidate that does not end the search leaves a recorded best that
    is still the cost of the recorded best circuit and still not below
    the threshold. *)
Lemma eval_successor_best_not_success self layer st c ev st' :
  flt (best_dist st) (success_threshold self) = false →
  best_recorded st →
  eval_successor self layer st c = (ev, Next st') →
  flt (best_dist st') (success_threshold self) = false ∧ best_recorded st'.
Proof.
  unfold best_recorded. intros Hb Hrec. revert ev st'. intros ev st'.
  eval_successor_cases Hs Hnb Hleap Hmax; done.
Qed.

(** X4.  A circuit returned by [synthesize] meets the success threshold
    exactly when the run ends with the record of a successful
    synthesis.  The circuit returned once the frontier has emptied, after
    the warning that announces it, has a cost that is not below the
    threshold. *)
Theorem returned_circuit_and_threshold self fuel c ps :
  snd (synthesize self fuel) = Some (Returned c ps) →
  (flt (calc_cost c) (success_threshold self) = true
   ∧ ∃ n, last (fst (synthesize self fuel))
          = Some (Debug (SuccessfulSynthesis n)))
  ∨ (flt (calc_cost c) (success_threshold self) = false
     ∧ ∃ layers,
         last (fst (synthesize self fuel))
         = Some (Warning (ReturningBest layers (calc_cost c)))).
Proof.
  revert c ps.
  pose (R := λ (tr : list Event) (r : option (Outcome Circuit)),
    ∀ c ps, r = Some (Returned c ps) →
      (flt (calc_cost c) (success_threshold self) = true
       ∧ ∃ n, last tr = Some (Debug (SuccessfulSynthesis n)))
      ∨ (flt (calc_cost c) (success_threshold self) = false
         ∧ ∃ layers,
             last tr = Some (Warning (ReturningBest layers (calc_cost c))))).
  pose (P := λ st tr r,
    flt (best_dist st) (success_threshold self) = false →
    best_recorded st → R tr r).
  assert (Hcons : ∀ e tr r, R tr r → R (e :: tr) r).
  { intros e tr r HR c ps Hr.
    destruct (HR c ps Hr) as [[? [n Hn]]|[? [l Hl]]]; [left|right];
      (split; [done|]); eexists; apply last_cons_Some; eassumption. }
  assert (Happ : ∀ ev tr r, R tr r → R (ev ++ tr) r).
  { intros ev tr r HR. induction ev as [|e ev IH]; [done|]. by apply Hcons. }
  apply (synthesize_induction self P R).
  - intros fuel'. apply (run_induction self P (λ _, P)); unfold P.
    + intros st _ Hb Hrec c ps [= <- <-]. right. unfold best_recorded in Hrec.
      rewrite <- Hrec. split; [done|]. by exists (best_layer st).
    + done.
    + intros st top layer fr tr r _ IH Hb Hrec. apply Hcons. by apply IH.
    + intros layer st c0 ev o E Hb Hrec c ps [= ->]. left.
      apply eval_successor_stop in E as [(Hs & -> & [= -> ->])|([=] & _)].
      split; [done|]. by eexists.
    + intros layer st c0 ev st' tr r E IH Hb Hrec.
      destruct (eval_successor_best_not_success _ _ _ _ _ _ Hb Hrec E)
        as [Hb' Hrec'].
      apply Happ. by apply IH.
    + done.
    + done.
    + intros layer st tr r _ _ IH Hb Hrec. apply Hcons. by apply IH.
  - intros d0 Hs c ps [= <- <-]. left. split; [done|]. by eexists.
  - intros d0 tr r Hs IH. do 2 apply Hcons. by apply IH.
Qed.

(** *** The returned circuit is the cheapest one seen *)

Lemma fle_refl a : isnan a = false → fle a a = true.
Proof.
  intros Ha. apply not_flt_fle; try done.
  destruct (flt a a) eqn:E; [|done]. by rewrite (flt_asym _ _ E) in E.
Qed.

(** With numbers for costs and threshold, a candidate that does not end
    the search leaves a recorded best that is at most the previous one
    and at most the candidate's cost. *)
Lemma eval_successor_best_min self layer st c ev st' :
  isnan (success_threshold self) = false →
  (∀ c', isnan (calc_cost c') = false) →
  flt (best_dist st) (success_threshold self) = false →
  best_recorded st →
  eval_successor self layer st c = (ev, Next st') →
  fle (best_dist st') (best_dist st) = true
  ∧ checked_dists ev = [calc_cost c]
  ∧ fle (best_dist st') (calc_cost c) = true.
Proof.
  intros Ht Hnum Hb Hrec.
  assert (Hbn : isnan (best_dist st) = false) by (rewrite Hrec; apply Hnum).
  pose proof (not_flt_fge _ _ Hbn Ht Hb) as Hge.
  revert ev st'. intros ev st'.
  eval_successor_cases Hs Hnb Hleap Hmax;
    rewrite check_new_best_not_success, Hge, andb_true_r in Hnb by done;
    split_and?; try done;
    first [ by apply flt_fle | by apply fle_refl | by apply not_flt_fle ].
Qed.

(** X5.  When no cost is a NaN, and neither is the threshold, the
    circuit that [synthesize] returns, on success or once the frontier
    has emptied, costs no more than the initial layer and no more than
    any candidate that was handed to [check_new_best]. *)
Theorem returned_circuit_is_cheapest self fuel c ps :
  isnan (success_threshold self) = false →
  (∀ c', isnan (calc_cost c') = false) →
  snd (synthesize self fuel) = Some (Returned c ps) →
  fle (calc_cost c) (calc_cost (instantiate gen_initial_layer)) = true
  ∧ Forall (λ d, fle (calc_cost c) d = true)
      (checked_dists (fst (synthesize self fuel))).
Proof.
  intros Ht Hnum. revert c ps.
  pose (P := λ st tr (r : option (Outcome Circuit)),
    flt (best_dist st) (success_threshold self) = false →
    best_recorded st →
    ∀ c ps, r = Some (Returned c ps) →
      fle (calc_cost c) (best_dist st) = true
      ∧ Forall (λ d, fle (calc_cost c) d = true) (checked_dists tr)).
  pose (R := λ tr (r : option (Outcome Circuit)),
    ∀ c ps, r = Some (Returned c ps) →
      fle (calc_cost c) (calc_cost (instantiate gen_initial_layer)) = true
      ∧ Forall (λ d, fle (calc_cost c) d = true) (checked_dists tr)).
  apply (synthesize_induction self P R).
  - intros fuel'. apply (run_induction self P (λ _, P)); unfold P.
    + intros st _ Hb Hrec c ps [= <- <-]. unfold best_recorded in Hrec.
      rewrite Hrec. split; [by apply fle_refl|]. observe. constructor.
    + done.
    + intros st top layer fr tr r _ IH Hb Hrec c ps Hr. observe.
      by apply (IH Hb Hrec c ps Hr).
    + intros layer st c0 ev o E Hb Hrec c ps [= ->].
      apply eval_successor_stop in E as [(Hs & -> & [= -> ->])|([=] & _)].
      observe. split; [|constructor].
      apply (fle_trans _ (success_threshold self)); [by apply flt_fle|].
      apply not_flt_fle; try done. rewrite Hrec. apply Hnum.
    + intros layer st c0 ev st' tr r E IH Hb Hrec c ps Hr.
      destruct (eval_successor_best_not_success _ _ _ _ _ _ Hb Hrec E)
        as [Hb' Hrec'].
      destruct (eval_successor_best_min _ _ _ _ _ _ Ht Hnum Hb Hrec E)
        as (Hle & Hev & Hle').
      destruct (IH Hb' Hrec' c ps Hr) as [IH1 IH2].
      observe. rewrite Hev. split; [by eapply fle_trans|].
      constructor; [by eapply fle_trans|done].
    + done.
    + done.
    + intros layer st tr r _ _ IH Hb Hrec c ps Hr. observe.
      by apply (IH Hb Hrec c ps Hr).
  - intros d0 Hs c ps [= <- <-]. observe. split; [by apply fle_refl|constructor].
  - intros d0 tr r Hs IH c ps Hr. observe. by apply (IH Hs ltac:(done) c ps Hr).
Qed.

(** *** The spacing of the prefixes *)

Lemma eval_successor_freeze self layer st c ev fl :
  eval_successor self layer st c = (ev, fl) →
  match fl with
  | Stop _ => freeze_layers ev = []
  | Next st' =>
      (freeze_layers ev = [] ∧ last_prefix_layer st' = last_prefix_layer st)
      ∨ (freeze_layers ev = [layer + 1]
         ∧ last_prefix_layer st' = layer + 1
         ∧ last_prefix_layer st + min_prefix_size self ≤ layer + 1)
  end.
Proof.
  eval_successor_cases Hs Hnb Hleap Hmax; try done;
    first [ by left
          | right; apply andb_true_iff in Hleap as [_ Hleap%Z.leb_le];
            split_and?; try done; lia ].
Qed.

Lemma while_loop_spaced self fuel st :
  Sorted (λ a b, a + min_prefix_size self ≤ b)
    (last_prefix_layer st :: freeze_layers (fst (while_loop self fuel st))).
Proof.
  pose (P := λ st tr (r : option (Outcome Circuit)),
    Sorted (λ a b, a + min_prefix_size self ≤ b)
      (last_prefix_layer st :: freeze_layers tr)).
  apply (run_induction self P (λ _, P)); unfold P.
  - intros st0 _. unfold frontier_emptied. cbn [fst]. observe.
    by repeat constructor.
  - intros st0. by repeat constructor.
  - intros st0 top layer fr tr r _ IH. by observe.
  - intros layer st0 c ev o E. apply eval_successor_freeze in E as ->.
    by repeat constructor.
  - intros layer st0 c ev st' tr r E IH. observe.
    apply eval_successor_freeze in E as [[-> <-]|(-> & Hl & Hle)]; [done|].
    rewrite Hl in IH. simpl. constructor; [exact IH|by constructor].
  - done.
  - intros layer st0 _. by repeat constructor.
  - intros layer st0 tr r _ _ IH. by observe.
Qed.

(** X6.  Prefixes are formed at least [min_prefix_size] layers apart:
    the first one at layer [min_prefix_size] or deeper, each later one
    at least [min_prefix_size] layers deeper than the one before. *)
Theorem prefixes_are_spaced self fuel :
  Sorted (λ a b, a + min_prefix_size self ≤ b)
    (0 :: freeze_layers (fst (synthesize self fuel))).
Proof.
  apply (synthesize_induction self
           (λ st tr _, Sorted (λ a b, a + min_prefix_size self ≤ b)
                         (last_prefix_layer st :: freeze_layers tr))
           (λ tr _, Sorted (λ a b, a + min_prefix_size self ≤ b)
                      (0 :: freeze_layers tr))).
  - intros fuel'. apply while_loop_spaced.
  - intros d0 _. by repeat constructor.
  - intros d0 tr r _ IH. by observe.
Qed.

(** *** One warning per depth *)

Lemma eval_successor_quiet self layer st c ev fl :
  eval_successor self layer st c = (ev, fl) →
  popped_layers ev = [] ∧ no_progress_warnings ev = []
  ∧ match fl with
    | Stop _ => True
    | Next st' => warned_layers st' = warned_layers st
    end.
Proof. eval_successor_cases Hs Hnb Hleap Hmax; done. Qed.

(** X7.  The no-progress warning is logged at most once per depth: a run
    logs no more such warnings than there are distinct depths among the
    nodes it popped. *)
Theorem one_warning_per_depth self fuel :
  (length (no_progress_warnings (fst (synthesize self fuel)))
   ≤ length (remove_dups (popped_layers (fst (synthesize self fuel)))))%nat.
Proof.
  pose (Q := λ (seen : list Z) st tr (r : option (Outcome Circuit)),
    NoDup (warned_layers st) →
    ∃ ws, NoDup (warned_layers st ++ ws)
          ∧ ws ⊆ seen ++ popped_layers tr
          ∧ length (no_progress_warnings tr) = length ws).
  assert (Hloop : ∀ fuel',
    Q [] initial_state (fst (while_loop self fuel' initial_state))
      (snd (while_loop self fuel' initial_state))).
  { intros fuel'.
    apply (run_induction self (Q []) (λ layer, Q [layer])); unfold Q.
    - intros st _ Hnd. exists []. rewrite app_nil_r. by split_and?.
    - intros st Hnd. exists []. rewrite app_nil_r. by split_and?.
    - intros st top layer fr tr r _ IH Hnd. observe. by apply IH.
    - intros layer st c ev o E Hnd.
      apply eval_successor_quiet in E as (_ & -> & _).
      exists []. rewrite app_nil_r. split_and?; try done.
      intros x Hx. by apply elem_of_nil in Hx.
    - intros layer st c ev st' tr r E IH Hnd.
      apply eval_successor_quiet in E as (Hp & Hw & Hst). observe.
      rewrite Hp, Hw. simpl. rewrite Hst in IH. by apply IH.
    - intros layer st tr r IH Hnd. destruct (IH Hnd) as (ws & ? & Hsub & ?).
      exists ws. split_and?; try done.
      intros x Hx. apply Hsub in Hx. simpl in *. rewrite elem_of_cons. by right.
    - intros layer st _ Hnd. exists []. rewrite app_nil_r.
      split_and?; [done|apply list_subseteq_nil|done].
    - intros layer st tr r _ Hnw IH Hnd.
      destruct IH as (ws & Hnd' & Hsub & Hlen).
      { apply NoDup_app. split_and?; try done.
        - intros x Hx Hx'%list_elem_of_singleton. by subst.
        - apply NoDup_singleton. }
      exists (layer :: ws). observe. cbn [warned_layers set_warned_layers] in Hnd'.
      rewrite <- app_assoc in Hnd'.
      split_and?; try done.
      + intros x [->|Hx]%elem_of_cons; simpl; rewrite elem_of_cons;
          [by left|].
        apply Hsub in Hx. by right.
      + simpl. by rewrite Hlen. }
  apply (synthesize_induction self (Q [])
           (λ tr _, (length (no_progress_warnings tr)
                     ≤ length (remove_dups (popped_layers tr)))%nat)).
  - exact Hloop.
  - intros d0 _. observe. simpl. lia.
  - intros d0 tr r _ IH. observe.
    destruct (IH ltac:(constructor)) as (ws & Hnd & Hsub & ->).
    apply submseteq_length, NoDup_submseteq.
    + by apply NoDup_app in Hnd as (_ & _ & ?).
    + intros x Hx. apply elem_of_remove_dups. by apply Hsub in Hx.
Qed.

(** *** What [psols] holds *)

Lemma removelast_elem_of {A} (l : list A) x : x ∈ removelast l → x ∈ l.
Proof.
  induction l as [|y l IH]; [done|].
  destruct l as [|z l]; [simpl; intros Hx; by apply elem_of_nil in Hx|].
  change (removelast (y :: z :: l)) with (y :: removelast (z :: l)).
  rewrite (elem_of_cons (removelast (z :: l))), (elem_of_cons (z :: l)).
  intros [->|Hx]; [by left|right]. by apply IH.
Qed.

Lemma trim_bucket_elem_of self (bucket : list (Circuit * float)) x :
  x ∈ trim_bucket self bucket → x ∈ bucket.
Proof.
  unfold trim_bucket. destruct (_ <? _); [|done].
  intros Hx%removelast_elem_of. by rewrite sort_by_cost_perm in Hx.
Qed.

Lemma psols_from_weaken self seen seen' (ps : gmap Z (list (Circuit * float))) :
  seen ⊆ seen' → psols_from self seen ps → psols_from self seen' ps.
Proof.
  intros Hsub Hps layer bucket Hl. destruct (Hps _ _ Hl). split; [|done].
  by apply Hsub.
Qed.

Lemma store_partial_from self seen layer c
    (ps : gmap Z (list (Circuit * float))) :
  layer ∈ seen →
  flt (calc_cost c) (success_threshold self) = false →
  psols_from self seen ps →
  psols_from self seen (store_partial self layer c (calc_cost c) ps).
Proof.
  intros Hin Hs Hps layer' bucket'. unfold store_partial.
  rewrite lookup_insert. case_decide as Hl; [|apply Hps].
  intros [= <-]. subst layer'. split; [done|].
  apply Forall_forall. intros x Hx%trim_bucket_elem_of.
  apply elem_of_app in Hx as [Hx|Hx%list_elem_of_singleton].
  - destruct (ps !! layer) as [bucket|] eqn:E; simpl in Hx.
    + destruct (Hps _ _ E) as [_ Hb]. by eapply Forall_forall in Hb.
    + by apply elem_of_nil in Hx.
  - by subst x.
Qed.

Lemma eval_successor_psols_from self seen layer st c ev st' :
  layer ∈ seen →
  psols_from self seen (psols st) →
  eval_successor self layer st c = (ev, Next st') →
  psols_from self seen (psols st') ∧ popped_layers ev = [].
Proof.
  intros Hin Hps. revert ev st'. intros ev st'.
  eval_successor_cases Hs Hnb Hleap Hmax; split; try done;
    by apply store_partial_from.
Qed.

(** X8.  When a call of [synthesize] ends, it has written
    [data['psols']] exactly when [store_partial_solutions] is set, the
    initial layer is not itself the solution, and the call returns a
    circuit: a call that ends with an exception (the division by zero of
    line 280) has written nothing.  What is written is filed under
    depths of popped nodes only, and every entry pairs a circuit with
    its own cost, which is not below the threshold: the successful
    candidate is never stored. *)
Theorem stored_partial_solutions self fuel o :
  snd (synthesize self fuel) = Some o →
  (is_Some (written_psols o) ↔
     store_partial_solutions self = true
     ∧ flt (calc_cost (instantiate gen_initial_layer)) (success_threshold self)
       = false
     ∧ ∃ c ps, o = Returned c ps)
  ∧ ∀ stored, written_psols o = Some stored →
      psols_from self (popped_layers (fst (synthesize self fuel))) stored.
Proof.
  intros Ho.
  assert (Hreturned : ∀ c ps,
    snd (synthesize self fuel) = Some (Returned c ps) →
    (is_Some ps ↔
       store_partial_solutions self = true
       ∧ flt (calc_cost (instantiate gen_initial_layer))
           (success_threshold self) = false)
    ∧ ∀ stored, ps = Some stored →
        psols_from self (popped_layers (fst (synthesize self fuel))) stored).
  2: { destruct o as [c ps|e]; simpl.
       - destruct (Hreturned c ps Ho) as [Hiff Hfrom]. split; [|done].
         rewrite Hiff. split; [intros [? ?]; eauto|tauto].
       - split; [|done]. split; [by intros [? ?]|].
         by intros (_ & _ & c & ps & ?). }
  clear o Ho.
  pose (Q := λ (cur : list Z) st tr (r : option (Outcome Circuit)),
    ∀ seen, cur ⊆ seen → psols_from self seen (psols st) →
    ∀ c ps, r = Some (Returned c ps) →
      (is_Some ps ↔ store_partial_solutions self = true)
      ∧ ∀ stored, ps = Some stored →
          psols_from self (seen ++ popped_layers tr) stored).
  assert (Hret : ∀ cur st ev c, Q cur st ev
                   (Some (Returned c (stored_psols self st)))).
  { intros cur st ev c seen _ Hps c' ps [= <- <-]. unfold stored_psols.
    destruct (store_partial_solutions self); split.
    - by split; [|eexists].
    - intros stored [= <-]. eapply psols_from_weaken; [|exact Hps].
      intros x Hx. apply elem_of_app. by left.
    - split; [by intros [? ?]|done].
    - done. }
  assert (Hloop : ∀ fuel',
    Q [] initial_state (fst (while_loop self fuel' initial_state))
      (snd (while_loop self fuel' initial_state))).
  { intros fuel'.
    apply (run_induction self (Q []) (λ layer, Q [layer])).
    - intros st _. apply Hret.
    - by intros st seen _ Hps c ps.
    - intros st top layer fr tr r _ IH seen _ Hps c ps Hr. unfold Q in IH.
      destruct (IH (seen ++ [layer])) with (c := c) (ps := ps) as [H1 H2];
        try done.
      + intros x Hx. apply elem_of_app. by right.
      + eapply psols_from_weaken; [|exact Hps].
        intros x Hx. apply elem_of_app. by left.
      + split; [done|]. intros stored Hst. observe.
        specialize (H2 stored Hst). by rewrite <- app_assoc in H2.
    - intros layer st c ev o E.
      apply eval_successor_stop in E as [(_ & _ & ->)|(-> & _)];
        [apply Hret|].
      by intros seen _ Hps c' ps.
    - intros layer st c0 ev st' tr r E IH seen Hcur Hps c ps Hr.
      destruct (eval_successor_psols_from self seen _ _ _ _ _
                  ltac:(apply Hcur; by apply list_elem_of_singleton) Hps E)
        as [Hps' Hp].
      unfold Q in IH. observe. rewrite Hp. simpl. by eapply IH.
    - intros layer st tr r IH seen _ Hps c ps Hr. unfold Q in IH.
      eapply IH; try done. apply list_subseteq_nil.
    - by intros layer st _ seen _ Hps c ps.
    - intros layer st tr r _ _ IH seen _ Hps c ps Hr. unfold Q in IH. observe.
      eapply IH; try done. apply list_subseteq_nil. }
  apply (synthesize_induction self (Q [])
    (λ tr r, ∀ c ps, r = Some (Returned c ps) →
       (is_Some ps ↔
          store_partial_solutions self = true
          ∧ flt (calc_cost (instantiate gen_initial_layer))
              (success_threshold self) = false)
       ∧ ∀ stored, ps = Some stored →
           psols_from self (popped_layers tr) stored)).
  - exact Hloop.
  - intros d0 Hs c ps [= <- <-]. split; [|done].
    split; [by intros [? ?]|]. intros [_ Hs']. unfold d0 in Hs. congruence.
  - intros d0 tr r Hs IH c ps Hr. unfold Q in IH. observe.
    destruct (IH [] ltac:(done)) with (c := c) (ps := ps) as [H1 H2];
      try done.
    split; [|exact H2]. rewrite H1. tauto.
Qed.

(** *** Termination under a layer limit *)

Lemma weight_pos k ml d : (1 ≤ weight k ml d)%nat.
Proof.
  unfold weight. generalize (Z.to_nat (ml - d)). intros n.
  induction n as [|n IH]; simpl; lia.
Qed.

Lemma weight_step k ml d :
  0 ≤ d < ml → weight k ml d = ((k + 2) * weight k ml (d + 1))%nat.
Proof.
  intros Hd. unfold weight.
  replace (Z.to_nat (ml - d)) with (S (Z.to_nat (ml - (d + 1)))) by lia.
  apply Nat.pow_succ_r'.
Qed.

Lemma work_add k ml (fr : Frontier Circuit) c layer :
  work k ml (add fr c layer) = (work k ml fr + weight k ml layer)%nat.
Proof.
  unfold work, add. simpl. rewrite map_app, sum_list_with_app. simpl.
  unfold id. lia.
Qed.

Lemma work_clear k ml (fr : Frontier Circuit) : work k ml (clear fr) = 0%nat.
Proof. done. Qed.

Lemma work_pop k ml (fr fr' : Frontier Circuit) c layer :
  pop fr = Some (c, layer, fr') →
  work k ml fr = (weight k ml layer + work k ml fr')%nat.
Proof.
  unfold work, pop.
  destruct (pop_min (entries fr)) as [[m rest]|] eqn:E; [|done].
  intros [= <- <- <-]. by rewrite (pop_min_perm _ _ _ E).
Qed.

Lemma work_empty k ml (fr : Frontier Circuit) :
  empty fr = false → (1 ≤ work k ml fr)%nat.
Proof.
  unfold empty, work. destruct (entries fr) as [|e l]; [done|]. intros _.
  simpl. pose proof (weight_pos k ml (extra_data e)). lia.
Qed.

(** What a candidate that does not end the search does to the
    frontier: nothing, or it is added, or the frontier becomes the
    candidate alone, held twice, or becomes empty. *)
Lemma eval_successor_frontier self layer st c ev st' :
  eval_successor self layer st c = (ev, Next st') →
  frontier st' = frontier st
  ∨ frontier st' = add (frontier st) c (layer + 1)
  ∨ frontier st' = clear (frontier st)
  ∨ frontier st' = add (add (clear (frontier st)) c (layer + 1)) c (layer + 1).
Proof.
  revert ev st'. intros ev st'.
  eval_successor_cases Hs Hnb Hleap Hmax;
    first [ by left | by right; left | by right; right; left
          | by right; right; right ].
Qed.

Lemma eval_successor_work self k ml layer st c ev st' :
  eval_successor self layer st c = (ev, Next st') →
  (work k ml (frontier st')
   ≤ work k ml (frontier st) + weight k ml (layer + 1)
   ∨ work k ml (frontier st') ≤ 2 * weight k ml (layer + 1))%nat.
Proof.
  intros [-> | [-> | [-> | ->]]]%eval_successor_frontier;
    rewrite ?work_add, ?work_clear; lia.
Qed.

Lemma eval_successors_work self k ml layer circuits st ev st' :
  eval_successors self layer circuits st = (ev, Next st') →
  (work k ml (frontier st')
   ≤ work k ml (frontier st) + length circuits * weight k ml (layer + 1)
   ∨ (circuits ≠ []
      ∧ work k ml (frontier st')
        ≤ (length circuits + 1) * weight k ml (layer + 1)))%nat.
Proof.
  revert st ev. induction circuits as [|c circuits IH]; intros st ev.
  { simpl. intros [= <- <-]. left. lia. }
  simpl. destruct (eval_successor self layer st c) as [ev1 [st1|o]] eqn:E1;
    [|done].
  destruct (eval_successors self layer circuits st1) as [ev2 fl2] eqn:E2.
  intros [= <- ->].
  apply (eval_successor_work _ k ml) in E1.
  apply IH in E2. destruct E2 as [E2|[_ E2]]; [destruct E1 as [E1|E1]|].
  - left. lia.
  - right. split; [done|]. lia.
  - right. split; [done|]. lia.
Qed.

(** A round that goes on leaves a frontier with strictly less work. *)
Lemma iteration_work self k ml st ev st' :
  max_layer self = Some ml →
  (∀ c, (length (gen_successors c) ≤ k)%nat) →
  depth_lt ml (frontier st) →
  iteration self st = (ev, Next st') →
  depth_lt ml (frontier st')
  ∧ (work k ml (frontier st') < work k ml (frontier st))%nat.
Proof.
  intros Hml Hk Hfr E.
  apply iteration_cases in E as [(_ & _ & [=])|(top & layer & fr & Hpop & E)].
  destruct (depth_lt_pop _ _ _ _ _ Hfr Hpop) as [Hl Hfr'].
  rewrite (work_pop k ml _ _ _ _ Hpop), (weight_step k ml layer Hl).
  pose proof (weight_pos k ml (layer + 1)) as HW.
  destruct E as [(_ & _ & [= ->])|(Hne & ev1 & fl1 & E1 & E)].
  { split; [done|]. simpl. nia. }
  destruct fl1 as [st1|o1]; [|by destruct E].
  destruct (eval_successors_depth_lt _ _ _ _ (set_frontier fr st) _ _
              Hml Hl Hfr' E1) as (_ & _ & Hfr1).
  apply (eval_successors_work _ k ml) in E1.
  rewrite length_map in E1. specialize (Hk top).
  assert (Hst : frontier st' = frontier st1).
  { destruct E as (ev2 & E2 & _).
    by apply warn_no_progress_cases in E2
      as [(_ & _ & [=])|(_ & [(_ & [= ->])|(_ & _ & [= ->])])]. }
  rewrite Hst. split; [done|]. simpl in E1.
  destruct E1 as [E1|[_ E1]]; nia.
Qed.

Lemma while_loop_terminates self k ml fuel st :
  max_layer self = Some ml →
  (∀ c, (length (gen_successors c) ≤ k)%nat) →
  depth_lt ml (frontier st) →
  (work k ml (frontier st) ≤ fuel)%nat →
  is_Some (snd (while_loop self fuel st)).
Proof.
  intros Hml Hk. revert st.
  induction fuel as [|fuel IH]; intros st Hfr Hw; simpl;
    destruct (empty (frontier st)) eqn:He; try (by eexists).
  { apply (work_empty k ml) in He. lia. }
  destruct (iteration self st) as [ev [st'|o]] eqn:E; [|by eexists].
  destruct (iteration_work _ _ _ _ _ _ Hml Hk Hfr E) as [Hfr' Hlt].
  specialize (IH st' Hfr' ltac:(lia)).
  by destruct (while_loop self fuel st').
Qed.

(** X9.  With a layer limit [max_layer] and a layer generator that never
    gives a node more than [k] successors, the search ends: within
    [(k + 2) ^ max_layer] rounds of the main loop [synthesize] has
    returned a circuit or raised. *)
Theorem bounded_search_terminates self k ml fuel :
  max_layer self = Some ml → 0 < ml →
  (∀ c, (length (gen_successors c) ≤ k)%nat) →
  ((k + 2) ^ Z.to_nat ml ≤ fuel)%nat →
  is_Some (snd (synthesize self fuel)).
Proof.
  intros Hml Hpos Hk Hfuel. rewrite synthesize_unfold. cbv zeta.
  destruct (flt _ _); [by eexists|]. cbn [snd].
  apply (while_loop_terminates self k ml); try done.
  - apply depth_lt_add. split; [constructor|lia].
  - unfold initial_state. cbn [frontier]. rewrite work_add.
    unfold weight. rewrite Z.sub_0_r. simpl. lia.
Qed.

(** *** [check_new_best] as an order *)

(** X10.  [check_new_best] never prefers a node to itself, and never
    prefers each of two nodes to the other, whatever the floats, NaN
    included. *)
Theorem check_new_best_asymmetric self layer dist best_layer best_dist :
  check_new_best self layer dist layer dist = false
  ∧ check_new_best self layer dist best_layer best_dist
    && check_new_best self best_layer best_dist layer dist = false.
Proof.
  unfold check_new_best. split.
  - assert (Hd : flt dist dist = false).
    { destruct (flt dist dist) eqn:E; [|done]. by rewrite (flt_asym _ _ E) in E. }
    rewrite Hd, Z.ltb_irrefl. simpl. apply andb_false_r.
  - pose proof (flt_asym dist best_dist) as Ha.
    pose proof (flt_asym best_dist dist) as Ha'.
    pose proof (flt_fge_excl dist (success_threshold self)) as Hs.
    pose proof (flt_fge_excl best_dist (success_threshold self)) as Hs'.
    destruct (flt dist best_dist), (flt best_dist dist);
      try (by specialize (Ha eq_refl)); clear Ha Ha';
      destruct (flt dist (success_threshold self)),
               (flt best_dist (success_threshold self));
      try rewrite (Hs eq_refl); try rewrite (Hs' eq_refl); clear Hs Hs';
      destruct (Z.leb_spec layer best_layer), (Z.leb_spec best_layer layer),
               (Z.ltb_spec layer best_layer), (Z.ltb_spec best_layer layer);
      try lia; simpl; rewrite ?orb_true_r, ?orb_false_r, ?andb_false_r;
      simpl; try done;
      destruct (fge _ _); try done; destruct (fge _ _); done.
Qed.

End Run.

End LeapRunMore.

(** ** The further properties on the example *)

Module LeapRunMoreWitnesses.

Import PyFloat PyFloatFacts Leap LeapObservations LeapExample LeapExampleMore.
Import LeapExampleFacts LeapRun LeapRunMore.

(** The first round of the pass with [no_progress_layers_allowed = 0]
    ends in the division by zero. *)
Lemma synthesize_raises_only_on_zero_modulus_witness :
  snd (synthesize zero_leap 5) = Some (Raised ZeroDivisionError)
  ∧ ZeroDivisionError = ZeroDivisionError
  ∧ no_progress_layers_allowed zero_leap = 0.
Proof.
  assert (Hr : snd (synthesize zero_leap 5) = Some (Raised ZeroDivisionError))
    by (vm_compute; reflexivity).
  split; [exact Hr|].
  exact (synthesize_raises_only_on_zero_modulus zero_leap 5 _ Hr).
Defined.

Lemma zero_modulus_ends_first_round_witness :
  no_progress_layers_allowed zero_leap = 0
  ∧ flt (calc_cost (instantiate gen_initial_layer)) (success_threshold zero_leap)
    = false
  ∧ gen_successors (instantiate gen_initial_layer) ≠ []
  ∧ (snd (synthesize zero_leap 1) = Some (Raised ZeroDivisionError)
     ∨ ∃ c ps, snd (synthesize zero_leap 1) = Some (Returned c ps)
         ∧ c ∈ map instantiate (gen_successors (instantiate gen_initial_layer))
         ∧ flt (calc_cost c) (success_threshold zero_leap) = true).
Proof.
  assert (H0 : no_progress_layers_allowed zero_leap = 0) by reflexivity.
  assert (Hs : flt (calc_cost (instantiate gen_initial_layer))
                 (success_threshold zero_leap) = false)
    by (vm_compute; reflexivity).
  assert (Hne : gen_successors (instantiate gen_initial_layer) ≠ [])
    by (vm_compute; discriminate).
  split; [exact H0|]. split; [exact Hs|]. split; [exact Hne|].
  exact (zero_modulus_ends_first_round zero_leap 0 H0 Hs Hne).
Defined.

(** The pass limited to two layers pops at depths 0 and 1 only. *)
Lemma max_layer_bounds_search_witness :
  max_layer shallow_leap = Some 2 ∧ 0 < 2
  ∧ Forall (λ layer, 0 ≤ layer < 2)
      (popped_layers (fst (synthesize shallow_leap 10)))
  ∧ Forall (λ n, 0 ≤ n ≤ 2) (successes (fst (synthesize shallow_leap 10))).
Proof.
  assert (Hml : max_layer shallow_leap = Some 2) by reflexivity.
  assert (Hpos : 0 < 2) by lia.
  split; [exact Hml|]. split; [exact Hpos|].
  exact (max_layer_bounds_search shallow_leap 10 2 Hml Hpos).
Defined.

(** The run of the example returns the circuit of seven good layers,
    which meets the threshold. *)
Lemma returned_circuit_and_threshold_witness :
  snd (synthesize leap 10)
  = Some (Returned (repeat true 7) (Some (returned_psols (synthesize leap 10))))
  ∧ ((flt (calc_cost (repeat true 7)) (success_threshold leap) = true
      ∧ ∃ n, last (fst (synthesize leap 10))
             = Some (Debug (SuccessfulSynthesis n)))
     ∨ (flt (calc_cost (repeat true 7)) (success_threshold leap) = false
        ∧ ∃ layers,
            last (fst (synthesize leap 10))
            = Some (Warning (ReturningBest layers
                               (calc_cost (repeat true 7)))))).
Proof.
  assert (Hr : snd (synthesize leap 10)
    = Some (Returned (repeat true 7)
              (Some (returned_psols (synthesize leap 10)))))
    by (vm_compute; reflexivity).
  split; [exact Hr|].
  exact (returned_circuit_and_threshold leap 10 _ _ Hr).
Defined.

(** The limited pass returns the circuit of two good layers, the
    cheapest it has seen. *)
Lemma returned_circuit_is_cheapest_witness :
  isnan (success_threshold shallow_leap) = false
  ∧ (∀ c : Choices, isnan (calc_cost c) = false)
  ∧ snd (synthesize shallow_leap 10)
    = Some (Returned [true; true]
              (Some (returned_psols (synthesize shallow_leap 10))))
  ∧ fle (calc_cost [true; true]) (calc_cost (instantiate gen_initial_layer))
    = true
  ∧ Forall (λ d, fle (calc_cost [true; true]) d = true)
      (checked_dists (fst (synthesize shallow_leap 10))).
Proof.
  assert (Ht : isnan (success_threshold shallow_leap) = false)
    by (vm_compute; reflexivity).
  assert (Hnum : ∀ c : Choices, isnan (calc_cost c) = false)
    by (intros c; reflexivity).
  assert (Hr : snd (synthesize shallow_leap 10)
    = Some (Returned [true; true]
              (Some (returned_psols (synthesize shallow_leap 10)))))
    by (vm_compute; reflexivity).
  split; [exact Ht|]. split; [exact Hnum|]. split; [exact Hr|].
  exact (returned_circuit_is_cheapest shallow_leap 10 _ _ Ht Hnum Hr).
Defined.

(** The partial solutions of the run of the example, and the run that
    ends in the division by zero, which stores none. *)
Lemma stored_partial_solutions_witness :
  (snd (synthesize leap 10)
   = Some (Returned (repeat true 7)
             (Some (returned_psols (synthesize leap 10))))
   ∧ psols_from leap (popped_layers (fst (synthesize leap 10)))
       (returned_psols (synthesize leap 10)))
  ∧ (snd (synthesize zero_leap 5) = Some (Raised ZeroDivisionError)
     ∧ store_partial_solutions zero_leap = true
     ∧ flt (calc_cost (instantiate gen_initial_layer))
         (success_threshold zero_leap) = false
     ∧ ¬ is_Some (written_psols (Raised (Circuit:=Choices) ZeroDivisionError))).
Proof.
  assert (Hr : snd (synthesize leap 10)
    = Some (Returned (repeat true 7)
              (Some (returned_psols (synthesize leap 10)))))
    by (vm_compute; reflexivity).
  assert (Hz : snd (synthesize zero_leap 5) = Some (Raised ZeroDivisionError))
    by (vm_compute; reflexivity).
  split.
  - split; [exact Hr|].
    exact (proj2 (stored_partial_solutions leap 10 _ Hr) _ eq_refl).
  - split; [exact Hz|]. split; [reflexivity|].
    split; [vm_compute; reflexivity|].
    intros Hsome.
    destruct (proj1 (proj1 (stored_partial_solutions zero_leap 5 _ Hz)) Hsome)
      as (_ & _ & c & ps & Hreturned).
    discriminate Hreturned.
Defined.

(** Two successors per node and two layers: sixteen rounds are
    enough. *)
Lemma bounded_search_terminates_witness :
  max_layer shallow_leap = Some 2 ∧ 0 < 2
  ∧ (∀ c : Choices, (length (gen_successors c) ≤ 2)%nat)
  ∧ ((2 + 2) ^ Z.to_nat 2 ≤ 16)%nat
  ∧ is_Some (snd (synthesize shallow_leap 16)).
Proof.
  assert (Hml : max_layer shallow_leap = Some 2) by reflexivity.
  assert (Hpos : 0 < 2) by lia.
  assert (Hk : ∀ c : Choices, (length (gen_successors c) ≤ 2)%nat)
    by (intros c; simpl; lia).
  assert (Hfuel : ((2 + 2) ^ Z.to_nat 2 ≤ 16)%nat) by (vm_compute; lia).
  split; [exact Hml|]. split; [exact Hpos|]. split; [exact Hk|].
  split; [exact Hfuel|].
  exact (bounded_search_terminates shallow_leap 2 2 16 Hml Hpos Hk Hfuel).
Defined.

End LeapRunMoreWitnesses.

(** ** Further properties of the standard workflow *)

Module CompileMore.

Import PyFloat Compile ReplaceOrder CompileProps.

Section Workflow.
Context {Gate : Type} `{!GateCatalog Gate} `{!CircuitGates Gate}.

Implicit Types (model : MachineModel Gate) (c new org : Circuit Gate).
Implicit Types (old : Operation Gate) (g : Gate) (loc : list Z).

(** *** What [compile] accepts *)

Lemma filter_length_zero (P : Gate → Prop) `{!∀ g, Decision (P g)}
    (l : list Gate) :
  length (filter P l) = 0%nat ↔ ∀ g, g ∈ l → ¬ P g.
Proof.
  rewrite length_zero_iff_nil. split.
  - intros Hnil g Hg HP.
    assert (Hin : g ∈ filter P l) by (by apply list_elem_of_filter).
    rewrite Hnil in Hin. by apply elem_of_nil in Hin.
  - intros Hno. destruct (filter P l) as [|g l'] eqn:E; [done|].
    assert (Hin : g ∈ filter P l) by (rewrite E; by left).
    apply list_elem_of_filter in Hin as [HP Hg]. by destruct (Hno g Hg).
Qed.

Lemma entangler_check model n :
  Nat.eqb (length (filter (λ g, 2 ≤ num_qudits g) (model_gate_set model))) 0
    && (1 <? n) = false
  ↔ n ≤ 1 ∨ ∃ g, g ∈ model_gate_set model ∧ 2 ≤ num_qudits g.
Proof.
  rewrite andb_false_iff, Nat.eqb_neq, Z.ltb_ge, filter_length_zero. split.
  - intros [Hne|Hn]; [right|by left].
    destruct (decide (Exists (λ g, 2 ≤ num_qudits g) (model_gate_set model)))
      as [Hex|Hnex].
    + apply Exists_exists in Hex as (g & Hg & Hw). eauto.
    + destruct Hne. intros g Hg Hw. apply Hnex, Exists_exists. eauto.
  - intros [Hn|(g & Hg & Hw)]; [by right|left].
    intros Hno. by apply (Hno g Hg).
Qed.

Lemma oversized_check c max_synthesis_size :
  (max_synthesis_size <? circuit_num_qudits c)
    && has_oversized_gate c max_synthesis_size = false
  ↔ circuit_num_qudits c ≤ max_synthesis_size
    ∨ ∀ g, g ∈ gate_set c →
        num_qudits g ≤ max_synthesis_size
        ∨ is_measurement_placeholder g = true.
Proof.
  rewrite andb_false_iff, Z.ltb_ge.
  assert (Hov : has_oversized_gate c max_synthesis_size = false
    ↔ ∀ g, g ∈ gate_set c →
        num_qudits g ≤ max_synthesis_size
        ∨ is_measurement_placeholder g = true).
  { rewrite <- not_true_iff_false, has_oversized_gate_spec. split.
    - intros Hno g Hg.
      destruct (Z.le_gt_cases (num_qudits g) max_synthesis_size); [by left|].
      destruct (is_measurement_placeholder g) eqn:Hm; [by right|].
      destruct Hno. exists g. split_and?; try done; lia.
    - intros Hall (g & Hg & Hw & Hm).
      destruct (Hall g Hg); [lia|congruence]. }
  by rewrite Hov.
Qed.

(** The checks that [compile] makes on every kind of input. *)
Lemma compile_checks (input : Input (Gate:=Gate)) (m : MachineModel Gate)
    (optimization_level max_synthesis_size : Z)
    (call : WorkflowCall (Gate:=Gate)) (tail : Res WorkflowCall) :
  (if negb (all_qubits (input_radixes input)) then Raise ValueError else
   if model_num_qudits m <? input_num_qudits input then Raise ValueError else
   if negb (all_qubits (model_radixes m)) then Raise ValueError else
   if Nat.eqb (length (filter (λ g, 2 ≤ num_qudits g) (model_gate_set m))) 0
      && (1 <? input_num_qudits input)
   then Raise ValueError else
   if (optimization_level <? 1) || (4 <? optimization_level)
   then Raise ValueError else
   if max_synthesis_size <? 2 then Raise ValueError else tail) = Ok call
  ↔ all_qubits (input_radixes input) = true
    ∧ input_num_qudits input ≤ model_num_qudits m
    ∧ all_qubits (model_radixes m) = true
    ∧ (input_num_qudits input ≤ 1
       ∨ ∃ g, g ∈ model_gate_set m ∧ 2 ≤ num_qudits g)
    ∧ 1 ≤ optimization_level ≤ 4
    ∧ 2 ≤ max_synthesis_size
    ∧ tail = Ok call.
Proof.
  rewrite <- entangler_check.
  destruct (all_qubits (input_radixes input)); simpl; [|by split; [|intros []]].
  destruct (Z.ltb_spec (model_num_qudits m) (input_num_qudits input));
  [split; [done|intros (_ & ? & _); lia]|].
  destruct (all_qubits (model_radixes m)); simpl;
  [|by split; [|intros (_ & _ & ? & _)]].
  destruct (_ && _); [by split; [|intros (_ & _ & _ & ? & _)]|].
  destruct (Z.ltb_spec optimization_level 1); simpl;
  [split; [done|intros (_ & _ & _ & _ & ? & _); lia]|].
  destruct (Z.ltb_spec 4 optimization_level); simpl;
  [split; [done|intros (_ & _ & _ & _ & ? & _); lia]|].
  destruct (Z.ltb_spec max_synthesis_size 2);
  [split; [done|intros (_ & _ & _ & _ & _ & ? & _); lia]|].
  split; [intros ->; split_and?; try done; lia|].
  by intros (_ & _ & _ & _ & _ & _ & ?).
Qed.

(** X11.  [compile] gets as far as a workflow builder exactly when the
    input is a circuit, a unitary or a state on qubits; the model, the
    default one if none is given, is on qubits, is not smaller than the
    input, and has a gate on two or more qudits unless the input has at
    most one qudit; [optimization_level] is 1, 2, 3 or 4;
    [max_synthesis_size] is 2 or more; and the input, if a unitary or a
    state, is no wider than [max_synthesis_size], if a circuit, is no
    wider or has no gate that is, measurement placeholders aside.  The
    builder is then the one of the kind of input, called with that
    model. *)
Theorem compile_accepts (input : Input) (model : option (MachineModel Gate))
    (optimization_level max_synthesis_size : Z) (call : WorkflowCall) :
  let m := chosen_model input model in
  compile input model optimization_level max_synthesis_size = Ok call
  ↔ all_qubits (input_radixes input) = true
    ∧ input_num_qudits input ≤ model_num_qudits m
    ∧ all_qubits (model_radixes m) = true
    ∧ (input_num_qudits input ≤ 1
       ∨ ∃ g, g ∈ model_gate_set m ∧ 2 ≤ num_qudits g)
    ∧ 1 ≤ optimization_level ≤ 4
    ∧ 2 ≤ max_synthesis_size
    ∧ ((∃ c, input = InCircuit c ∧ call = CircuitWorkflow c m
             ∧ (circuit_num_qudits c ≤ max_synthesis_size
                ∨ ∀ g, g ∈ gate_set c →
                    num_qudits g ≤ max_synthesis_size
                    ∨ is_measurement_placeholder g = true))
       ∨ (∃ u, input = InUnitary u ∧ call = UnitaryWorkflow u m
               ∧ shape_num_qudits u ≤ max_synthesis_size)
       ∨ (∃ s, input = InState s ∧ call = StateprepWorkflow s m
               ∧ shape_num_qudits s ≤ max_synthesis_size)).
Proof.
  intros m.
  pose proof (compile_checks input m optimization_level max_synthesis_size
                call) as Hcommon.
  unfold compile. fold m. destruct input as [c|u|s|].
  - rewrite Hcommon. simpl.
    pose proof (oversized_check c max_synthesis_size) as Hov.
    destruct ((max_synthesis_size <? circuit_num_qudits c)
              && has_oversized_gate c max_synthesis_size) eqn:Hb.
    + split; [by intros (_ & _ & _ & _ & _ & _ & ?)|].
      intros (_ & _ & _ & _ & _ & _ & [(c' & [= <-] & _ & Hok)|[H1|H1]]).
      * apply Hov in Hok. congruence.
      * by destruct H1 as (? & ? & _).
      * by destruct H1 as (? & ? & _).
    + split.
      * intros (? & ? & ? & ? & ? & ? & [= <-]). split_and?; try done; try lia.
        left. exists c. split_and?; try done. by apply Hov.
      * intros (? & ? & ? & ? & ? & ? & [(c' & [= <-] & -> & _)|[H1|H1]]);
          [done| |]; by destruct H1 as (? & ? & _).
  - rewrite Hcommon. simpl.
    destruct (Z.ltb_spec max_synthesis_size (shape_num_qudits u)).
    + split; [by intros (_ & _ & _ & _ & _ & _ & ?)|].
      intros (_ & _ & _ & _ & _ & _ & [H1|[(u' & [= <-] & _ & Hok)|H1]]);
        [by destruct H1 as (? & ? & _)|lia|by destruct H1 as (? & ? & _)].
    + split.
      * intros (? & ? & ? & ? & ? & ? & [= <-]). split_and?; try done; try lia.
        right. left. by exists u.
      * intros (? & ? & ? & ? & ? & ? & [H1|[(u' & [= <-] & -> & _)|H1]]);
          [by destruct H1 as (? & ? & _)|done|by destruct H1 as (? & ? & _)].
  - rewrite Hcommon. simpl.
    destruct (Z.ltb_spec max_synthesis_size (shape_num_qudits s)).
    + split; [by intros (_ & _ & _ & _ & _ & _ & ?)|].
      intros (_ & _ & _ & _ & _ & _ & [H1|[H1|(s' & [= <-] & _ & Hok)]]);
        [by destruct H1 as (? & ? & _)|by destruct H1 as (? & ? & _)|lia].
    + split.
      * intros (? & ? & ? & ? & ? & ? & [= <-]). split_and?; try done; try lia.
        right. right. by exists s.
      * intros (? & ? & ? & ? & ? & ? & [H1|[H1|(s' & [= <-] & -> & _)]]);
          [by destruct H1 as (? & ? & _)|by destruct H1 as (? & ? & _)|done].
  - split; [done|].
    intros (_ & _ & _ & _ & _ & _ & [H1|[H1|H1]]);
      by destruct H1 as (? & ? & _).
Qed.

(** *** Replacements come to an end *)

Lemma replaces_counts model new org :
  replaces model new org →
  tuple_lt (mq_count new, sq_count new) (mq_count org, sq_count org) = true.
Proof.
  intros (old & Hold & Hnative & Hedges & Hf). revert Hf.
  unfold _gen_replace_filter, _replace_filter. rewrite Hold, Hedges.
  destruct (existsb _ _) eqn:Hex.
  - apply non_native_gate_spec in Hex as (g & Hg & Hn).
    by apply Hnative in Hg.
  - by intros [= ->].
Qed.

(** X12.  Among blocks that satisfy the model, replacements accepted by
    the filter cannot go on for ever: there is no infinite sequence of
    circuits each accepted in place of a block whose body is the one
    before. *)
Theorem replacements_well_founded model :
  well_founded (replaces model).
Proof.
  assert (Hacc : ∀ n m c,
    Z.to_nat (mq_count c) = n → Z.to_nat (sq_count c) = m →
    Acc (replaces model) c).
  { induction n as [n IHn] using lt_wf_ind.
    induction m as [m IHm] using lt_wf_ind.
    intros c Hn Hm. constructor. intros new Hr.
    apply replaces_counts, tuple_lt_spec in Hr. simpl in Hr.
    pose proof (mq_count_operations new) as H1.
    pose proof (mq_count_operations c) as H2.
    pose proof (sq_count_operations new) as H3.
    pose proof (sq_count_operations c) as H4.
    destruct Hr as [Hlt|[Heq Hlt]].
    - apply (IHn (Z.to_nat (mq_count new)) ltac:(lia) _ new eq_refl eq_refl).
    - apply (IHm (Z.to_nat (sq_count new)) ltac:(lia) new); [lia|done]. }
  intros c. by eapply Hacc.
Qed.

(** What an accepted call has passed, in short. *)
Lemma compile_ok (input : Input) (model : option (MachineModel Gate))
    (optimization_level max_synthesis_size : Z) (call : WorkflowCall) :
  compile input model optimization_level max_synthesis_size = Ok call →
  let m := chosen_model input model in
  1 ≤ optimization_level ≤ 4
  ∧ (input_num_qudits input ≤ 1
     ∨ ∃ g, g ∈ model_gate_set m ∧ 2 ≤ num_qudits g)
  ∧ match call with
    | CircuitWorkflow c m' => input = InCircuit c ∧ m' = m
    | UnitaryWorkflow u m' => input = InUnitary u ∧ m' = m
    | StateprepWorkflow s m' => input = InState s ∧ m' = m
    end.
Proof.
  intros Hok m. revert Hok. unfold compile. fold m.
  destruct input as [c|u|s|]; [| | |done]; rewrite compile_checks;
    intros (_ & _ & _ & Hent & Hlevel & _ & Htail);
    (split; [done|]); (split; [done|]); revert Htail.
  - destruct (_ && _); [done|]. by intros [= <-].
  - destruct (_ <? _); [done|]. by intros [= <-].
  - destruct (_ <? _); [done|]. by intros [= <-].
Qed.

(** *** When the replace filter raises *)

Lemma subscript_raises loc i e :
  subscript loc i = Raise e →
  e = IndexError
  ∧ ¬ (- Z.of_nat (length loc) ≤ i < Z.of_nat (length loc)).
Proof.
  unfold subscript.
  destruct (Z.ltb_spec i 0) as [Hneg|Hpos].
  - destruct (Z.leb_spec 0 (i + Z.of_nat (length loc)));
      destruct (Z.ltb_spec (i + Z.of_nat (length loc)) (Z.of_nat (length loc)));
      simpl; try (intros [= <-]; split; [done|lia]).
    destruct (loc !! Z.to_nat (i + Z.of_nat (length loc))) as [x|] eqn:E; [done|].
    apply lookup_ge_None in E. lia.
  - destruct (Z.leb_spec 0 i);
      destruct (Z.ltb_spec i (Z.of_nat (length loc)));
      simpl; try (intros [= <-]; split; [done|lia]).
    destruct (loc !! Z.to_nat i) as [x|] eqn:E; [done|].
    apply lookup_ge_None in E. lia.
Qed.

Lemma any_edge_outside_raises model loc edges e :
  any_edge_outside model loc edges = Raise e →
  e = IndexError
  ∧ ∃ ed, ed ∈ edges
          ∧ (¬ (- Z.of_nat (length loc) ≤ fst ed < Z.of_nat (length loc))
             ∨ ¬ (- Z.of_nat (length loc) ≤ snd ed < Z.of_nat (length loc))).
Proof.
  induction edges as [|ed edges IH]; simpl; [done|].
  unfold map_edge.
  destruct (subscript loc (fst ed)) as [a|x] eqn:Ha.
  - destruct (subscript loc (snd ed)) as [b|x] eqn:Hb.
    + destruct (negb _); [done|]. intros Hr.
      destruct (IH Hr) as (-> & ed' & Hin & Hout). split; [done|].
      exists ed'. split; [by right|done].
    + intros [= <-]. apply subscript_raises in Hb as [-> Hb]. split; [done|].
      exists ed. split; [by left|by right].
  - intros [= <-]. apply subscript_raises in Ha as [-> Ha]. split; [done|].
    exists ed. split; [by left|by left].
Qed.

(** X20.  The replace filter raises in one case only: on a block whose
    gates are all native, the [IndexError] of [old.location[...]] for an
    edge of the body with an endpoint that is no index, negative ones
    included, of [old.location]. *)
Theorem replace_filter_raises model new old e :
  _gen_replace_filter model new old = Raise e →
  e = IndexError
  ∧ ∃ org ed,
      as_circuit_gate (gate old) = Some org
      ∧ (∀ g, g ∈ gate_set org → g ∈ model_gate_set model)
      ∧ ed ∈ coupling_graph org
      ∧ (¬ (- Z.of_nat (length (location old)) ≤ fst ed
              < Z.of_nat (length (location old)))
         ∨ ¬ (- Z.of_nat (length (location old)) ≤ snd ed
                < Z.of_nat (length (location old)))).
Proof.
  unfold _gen_replace_filter, _replace_filter.
  destruct (as_circuit_gate (gate old)) as [org|] eqn:Horg; [|done].
  destruct (existsb _ _) eqn:Hex; [done|].
  destruct (any_edge_outside model (location old) (coupling_graph org))
    as [[]|x] eqn:Hany; try done.
  intros [= <-].
  apply any_edge_outside_raises in Hany as (-> & ed & Hin & Hout).
  split; [done|]. exists org, ed. split_and?; try done.
  intros g Hg. destruct (decide (g ∈ model_gate_set model)) as [|Hn]; [done|].
  assert (Hex' : existsb (λ g, negb (bool_decide (g ∈ model_gate_set model)))
                   (gate_set org) = true).
  { apply non_native_gate_spec. eauto. }
  congruence.
Qed.

(** *** The default model *)

Lemma all_qubits_replicate n : all_qubits (replicate n 2) = true.
Proof. induction n as [|n IH]; [done|]. simpl. exact IH. Qed.

(** X21.  When no model is given, the model is never the reason for
    [compile] to raise (CNOT acting on two qudits): a [ValueError] then
    comes from a radix of the input other than two, from
    [optimization_level], or from [max_synthesis_size], which the input
    exceeds or which is below 2. *)
Theorem default_model_not_blamed (input : Input)
    (optimization_level max_synthesis_size : Z) e :
  num_qudits CNOTGate = 2 →
  compile input None optimization_level max_synthesis_size = Raise e →
  (input = InOther ∧ e = TypeError)
  ∨ (e = ValueError
     ∧ (all_qubits (input_radixes input) = false
        ∨ optimization_level < 1 ∨ 4 < optimization_level
        ∨ max_synthesis_size < 2
        ∨ max_synthesis_size < input_num_qudits input)).
Proof.
  intros Hcnot. unfold compile.
  assert (Hent : Nat.eqb
    (length (filter (λ g, 2 ≤ num_qudits g)
               (model_gate_set (chosen_model input None)))) 0 = false).
  { simpl. rewrite filter_cons. case_decide; [done|lia]. }
  assert (Hsize : (model_num_qudits (chosen_model input None)
                   <? input_num_qudits input) = false)
    by (simpl; apply Z.ltb_irrefl).
  assert (Hrad : all_qubits (model_radixes (chosen_model input None)) = true)
    by (simpl; apply all_qubits_replicate).
  destruct input as [c|u|s|]; [| | |intros [= Heq]; subst e; by left];
    rewrite Hent, Hsize, Hrad; clear Hent Hsize Hrad; simpl;
    (destruct (all_qubits _) eqn:Hq; simpl;
       [|intros [= Heq]; subst e; right; split; [done|by left]]);
    (destruct (Z.ltb_spec optimization_level 1); simpl;
       [intros [= Heq]; subst e; right; split; [done|]; right; by left|]);
    (destruct (Z.ltb_spec 4 optimization_level); simpl;
       [intros [= Heq]; subst e; right; split; [done|]; right; right; by left|]);
    (destruct (Z.ltb_spec max_synthesis_size 2);
       [intros [= Heq]; subst e; right; split; [done|]; right; right; right; by left|]).
  - destruct (Z.ltb_spec max_synthesis_size (circuit_num_qudits c)); simpl;
      [|done].
    destruct (has_oversized_gate c max_synthesis_size); [|done].
    intros [= Heq]; subst e. right. split; [done|]. by do 4 right.
  - destruct (Z.ltb_spec max_synthesis_size (shape_num_qudits u)); [|done].
    intros [= Heq]; subst e. right. split; [done|]. by do 4 right.
  - destruct (Z.ltb_spec max_synthesis_size (shape_num_qudits s)); [|done].
    intros [= Heq]; subst e. right. split; [done|]. by do 4 right.
Qed.

End Workflow.

End CompileMore.

(** ** Properties of a constructed LEAP pass *)

Module LeapConstructionProps.

Import Py LeapConstruction.
Import PyFloat PyFloatFacts Leap LeapObservations LeapRun LeapRunMore.
Import (notations) Stdlib.Strings.String.

Section Construction.
Context {Value LayerGen : Type}.

Implicit Types (a : InitArgs Value LayerGen) (self : LEAPObject Value LayerGen).

(** What the constructor has checked when it returns, and what it has
    stored. *)
Lemma init_returns a self :
  __init__ a = Ok self →
  (∀ ml, LeapConstruction.max_layer a = Some ml → 0 < ml)
  ∧ 0 < LeapConstruction.min_prefix_size a
  ∧ Leap.max_layer (self_fields self) = LeapConstruction.max_layer a
  ∧ Leap.min_prefix_size (self_fields self) = LeapConstruction.min_prefix_size a
  ∧ self_instantiate_options self
    = update {[ "cost_fn_gen"%string := cost a ]}
        (LeapConstruction.instantiate_options a).
Proof.
  unfold __init__.
  destruct (LeapConstruction.max_layer a) as [ml|] eqn:Hml.
  - destruct (Z.leb_spec ml 0); [done|].
    destruct (Z.leb_spec (LeapConstruction.min_prefix_size a) 0); [done|].
    intros [= <-]. simpl. split_and?; try done. by intros ? [= <-].
  - destruct (Z.leb_spec (LeapConstruction.min_prefix_size a) 0); [done|].
    by intros [= <-].
Qed.

(** X13.  The options that the calls of [instantiate] of one run
    receive are the caller's [instantiate_options], completed by
    [cost_fn_gen], the cost of the pass, and by [seed], the seed of the
    pass data, where the caller gave none: an entry of the caller is
    never replaced. *)
Theorem effective_instantiate_options a self (seed : Value) :
  __init__ a = Ok self →
  run_instantiate_options self seed
  = LeapConstruction.instantiate_options a
    ∪ {[ "cost_fn_gen"%string := cost a ]}
    ∪ {[ "seed"%string := seed ]}.
Proof.
  intros Hinit. unfold run_instantiate_options. cbv zeta.
  apply init_returns in Hinit as (_ & _ & _ & _ & ->).
  unfold update. case_bool_decide as Hseed.
  - apply not_elem_of_dom in Hseed. by rewrite insert_union_singleton_r.
  - apply elem_of_dom in Hseed as [v Hv].
    apply map_eq. intros k. rewrite (lookup_union _ {[ "seed"%string := seed ]}).
    destruct (decide (k = "seed"%string)) as [->|Hk].
    + by rewrite Hv.
    + rewrite lookup_singleton_ne by done. by destruct (_ !! k).
Qed.

Section Run.
Context {Circuit : Type}.
Context `{!CostFunctionGenerator Circuit} `{!Leap.LayerGenerator Circuit}.
Context `{!Leap.HeuristicFunction Circuit} `{!Instantiater Circuit}.
Context `{!Regression}.
Context `{!ListSort Circuit}.

(** X14.  In a run of a pass that the constructor has accepted, the
    layers at which prefixes are formed go strictly up, so no layer is
    frozen twice, and with a layer limit no node is popped at or beyond
    the limit.  The constructor's two [ValueError]s are what rules the
    contrary out. *)
Theorem constructed_pass_search a self fuel :
  __init__ a = Ok self →
  Sorted Z.lt (0 :: freeze_layers (fst (synthesize (self_fields self) fuel)))
  ∧ ∀ ml, LeapConstruction.max_layer a = Some ml →
      Forall (λ layer, 0 ≤ layer < ml)
        (popped_layers (fst (synthesize (self_fields self) fuel))).
Proof.
  intros (Hml & Hmps & Hml' & Hmps' & _)%init_returns.
  rewrite synthesize_unfold. cbv zeta.
  destruct (flt _ _); cbn [fst]; observe.
  { split; [by repeat constructor|]. intros ml _. constructor. }
  split.
  - apply (Sorted_weaken
             (λ x y, x + Leap.min_prefix_size (self_fields self) ≤ y)).
    { intros x y. lia. }
    apply (while_loop_spaced (self_fields self) fuel initial_state).
  - intros ml Hsome. rewrite <- Hml' in Hsome.
    apply (while_loop_depth_lt (self_fields self) fuel ml); [done|].
    apply depth_lt_add. split; [constructor|].
    rewrite Hml' in Hsome. specialize (Hml ml Hsome). lia.
Qed.

End Run.

End Construction.

End LeapConstructionProps.

(** ** Properties of the workflows *)

Module CompileWorkflowProps.

Import PyFloat Compile Py CompileProps CompileMore CompileWorkflows.
Import (notations) Stdlib.Strings.String.

Section Passes.
Context {Gate : Type} `{!GateCatalog Gate} `{!CircuitGates Gate}.
Context `{!StandardGates Gate} `{!UnitaryCircuits Gate}.

Implicit Types (model : MachineModel Gate) (circuit : Circuit Gate).
Implicit Types (g : Gate) (gates : list Gate).

(** *** Lists of gates *)

Lemma subscript_first {A} (x : A) (l : list A) : subscript (x :: l) 0 = Ok x.
Proof.
  unfold subscript. simpl.
  destruct (Z.ltb_spec 0 (Z.pos (Pos.of_succ_nat (length l)))); [done|lia].
Qed.

Lemma length_one {A} (l : list A) : length l = 1%nat → ∃ x, l = [x].
Proof. destruct l as [|x [|y l]]; try done. eauto. Qed.

Lemma filter_two_or_more gates :
  filter (λ g, num_qudits g = 2) gates ++ filter (λ g, 2 < num_qudits g) gates
  ≡ₚ filter (λ g, 2 ≤ num_qudits g) gates.
Proof.
  induction gates as [|g gates IH]; [done|].
  rewrite !filter_cons. repeat case_decide; try lia; simpl.
  - by rewrite IH.
  - rewrite <- IH. symmetry. apply Permutation_middle.
  - done.
Qed.

Lemma filter_two_only gates :
  filter (λ g, 2 < num_qudits g) gates = [] →
  filter (λ g, 2 ≤ num_qudits g) gates = filter (λ g, num_qudits g = 2) gates.
Proof.
  induction gates as [|g gates IH]; [done|].
  rewrite !filter_cons. repeat case_decide; try lia; try done.
  intros Hnil. by rewrite IH.
Qed.

(** X15.  [_get_layer_gen] raises nothing, ignores the circuit, and
    builds on the gates of the model that act on two or more qudits,
    all of them and no other gate: the four-parameter generator when
    CNOT is the only one, the simple generator when another two-qudit
    gate is the only one, the wide generator on all of them
    otherwise. *)
Theorem get_layer_gen_native circuit model :
  ∃ layer_gen,
    _get_layer_gen circuit model = Ok layer_gen
    ∧ match layer_gen with
      | FourParamGenerator => native_mq_gates model = [CNOTGate]
      | SimpleLayerGenerator g =>
          native_mq_gates model = [g] ∧ num_qudits g = 2 ∧ g ≠ CNOTGate
      | WideLayerGenerator gates =>
          gates ≡ₚ native_mq_gates model
          ∧ ¬ ∃ g, native_mq_gates model = [g] ∧ num_qudits g = 2
      | SingleQuditLayerGenerator _ _ => False
      end.
Proof.
  unfold _get_layer_gen, native_mq_gates. cbv zeta.
  pose proof (filter_two_or_more (model_gate_set model)) as Hperm.
  pose proof (filter_two_only (model_gate_set model)) as Honly.
  destruct (Nat.eqb_spec
              (length (filter (λ g, num_qudits g = 2) (model_gate_set model))) 1)
    as [Htq|Htq];
    [destruct (Nat.eqb_spec
       (length (filter (λ g, 2 < num_qudits g) (model_gate_set model))) 0)
       as [Hmq|Hmq]|]; simpl.
  - apply length_zero_iff_nil in Hmq. rewrite (Honly Hmq).
    destruct (length_one _ Htq) as [g Hg]. rewrite Hg.
    assert (Hw : num_qudits g = 2).
    { assert (Hin : g ∈ filter (λ g, num_qudits g = 2) (model_gate_set model))
        by (rewrite Hg; by left).
      by apply list_elem_of_filter in Hin as [? _]. }
    case_bool_decide as Hc.
    + apply list_elem_of_singleton in Hc. subst g. by eexists.
    + rewrite subscript_first. simpl. eexists. split; [done|]. simpl.
      split_and?; try done. intros ->. apply Hc. by left.
  - eexists. split; [done|]. split; [done|].
    intros (g & Hg & Hw). rewrite Hg in Hperm.
    apply Permutation_length in Hperm. rewrite length_app in Hperm.
    simpl in Hperm. lia.
  - eexists. split; [done|]. split; [done|].
    intros (g & Hg & Hw). rewrite Hg in Hperm.
    assert (Hin : g ∈ filter (λ g, num_qudits g = 2) (model_gate_set model)).
    { apply list_elem_of_filter. split; [done|].
      assert (Hin : g ∈ filter (λ g, 2 ≤ num_qudits g) (model_gate_set model))
        by (rewrite Hg; by left).
      by apply list_elem_of_filter in Hin as [_ ?]. }
    apply Permutation_length in Hperm. rewrite length_app in Hperm.
    simpl in Hperm.
    destruct (filter (λ g, num_qudits g = 2) (model_gate_set model)) as [|x l];
      [by apply elem_of_nil in Hin|].
    simpl in *. destruct l; simpl in *; [done|lia].
Qed.

(** *** The single-qudit rebase *)

(** The pass that [_get_single_qudit_gate_rebase_pass] wraps around the
    core rebase (lines 675-689). *)
Lemma single_qudit_rebase_cases model :
  let sq_gates := filter (λ g, num_qudits g = 1) (model_gate_set model) in
  (sq_gates = [] ∧ _get_single_qudit_gate_rebase_pass model = Ok NOOPPass)
  ∨ (sq_gates ≠ []
     ∧ ∃ core,
         _get_single_qudit_gate_rebase_pass model
         = Ok (PassGroup (Passes [
             IfThenElsePass (NotPredicate SinglePhysicalPredicate)
               (Passes [
                 GroupSingleQuditGatePass;
                 ForEachBlockPass (Passes [
                   IfThenElsePass (NotPredicate SinglePhysicalPredicate)
                     (OnePass core) None
                 ]) None None;
                 UnfoldPass
               ]) None
           ]))
         ∧ ((core = U3Decomposition ∧ sq_gates = [U3Gate])
            ∨ (core = ZXZXZDecomposition
               ∧ (2 ≤ length sq_gates)%nat
               ∧ RZGate ∈ sq_gates ∧ SqrtXGate ∈ sq_gates)
            ∨ (core = QSearchSynthesisPass None
                        (Some (SingleQuditLayerGenerator sq_gates true))
                        (Some DijkstraHeuristic)
                        (Some {[ "method"%string := PyStr "minimization";
                                 "minimizer"%string := ScipyMinimizer;
                                 "cost_fn_gen"%string
                                   := HilbertSchmidtCostGenerator ]})
               ∧ sq_gates ≠ [U3Gate]
               ∧ ¬ ((2 ≤ length sq_gates)%nat
                    ∧ RZGate ∈ sq_gates ∧ SqrtXGate ∈ sq_gates)))).
Proof.
  intros sq_gates. unfold _get_single_qudit_gate_rebase_pass. fold sq_gates.
  cbv zeta. destruct sq_gates as [|g1 [|g2 l]] eqn:Hsq.
  - left. by split.
  - right. split; [done|].
    change ((length [g1] =? 0)%nat) with false.
    change ((length [g1] =? 1)%nat) with true. cbv iota.
    rewrite subscript_first. simpl.
    case_bool_decide as Hu.
    + subst g1. eexists. split; [done|]. by left.
    + eexists. split; [done|]. right. right. split_and?; try done.
      * by intros [= ->].
      * intros [Hlen _]. simpl in Hlen. lia.
  - right. split; [done|].
    change ((length (g1 :: g2 :: l) =? 0)%nat) with false.
    change ((length (g1 :: g2 :: l) =? 1)%nat) with false.
    change ((2 <=? length (g1 :: g2 :: l))%nat) with true. cbv iota.
    destruct (bool_decide (RZGate ∈ g1 :: g2 :: l)) eqn:Hrz;
      [destruct (bool_decide (SqrtXGate ∈ g1 :: g2 :: l)) eqn:Hsx|]; simpl.
    + apply bool_decide_eq_true in Hrz, Hsx.
      eexists. split; [done|]. right. left. split_and?; try done. simpl. lia.
    + apply bool_decide_eq_false in Hsx.
      eexists. split; [done|]. right. right. split_and?; try done.
      by intros (_ & _ & ?).
    + apply bool_decide_eq_false in Hrz.
      eexists. split; [done|]. right. right. split_and?; try done.
      by intros (_ & ? & _).
Qed.

(** X16.  [_get_single_qudit_gate_rebase_pass] raises nothing, and
    works on the native single-qudit gates, the gates of the model that
    act on one qudit.  Without such a gate it gives the pass that does
    nothing.  Otherwise it gives the group that gathers the
    single-qudit gates into blocks and runs a core rebase on each block
    that is not native: the U3 decomposition when U3 is the one native
    single-qudit gate, the ZXZXZ decomposition when there are two
    native single-qudit gates or more and RZ and SqrtX are among them,
    and in the remaining case a QSearch pass whose layer generator is
    given exactly the native single-qudit gates. *)
Theorem single_qudit_rebase_targets_native model :
  let sq_gates := filter (λ g, num_qudits g = 1) (model_gate_set model) in
  (∀ g, g ∈ sq_gates ↔ g ∈ model_gate_set model ∧ num_qudits g = 1)
  ∧ ((sq_gates = [] ∧ _get_single_qudit_gate_rebase_pass model = Ok NOOPPass)
     ∨ (sq_gates ≠ []
        ∧ ∃ core,
            _get_single_qudit_gate_rebase_pass model
            = Ok (PassGroup (Passes [
                IfThenElsePass (NotPredicate SinglePhysicalPredicate)
                  (Passes [
                    GroupSingleQuditGatePass;
                    ForEachBlockPass (Passes [
                      IfThenElsePass (NotPredicate SinglePhysicalPredicate)
                        (OnePass core) None
                    ]) None None;
                    UnfoldPass
                  ]) None
              ]))
            ∧ ((core = U3Decomposition ∧ sq_gates = [U3Gate])
               ∨ (core = ZXZXZDecomposition
                  ∧ (2 ≤ length sq_gates)%nat
                  ∧ RZGate ∈ sq_gates ∧ SqrtXGate ∈ sq_gates)
               ∨ (core = QSearchSynthesisPass None
                           (Some (SingleQuditLayerGenerator sq_gates true))
                           (Some DijkstraHeuristic)
                           (Some {[ "method"%string := PyStr "minimization";
                                    "minimizer"%string := ScipyMinimizer;
                                    "cost_fn_gen"%string
                                      := HilbertSchmidtCostGenerator ]})
                  ∧ sq_gates ≠ [U3Gate]
                  ∧ ¬ ((2 ≤ length sq_gates)%nat
                       ∧ RZGate ∈ sq_gates ∧ SqrtXGate ∈ sq_gates))))).
Proof.
  intros sq_gates.
  assert (Hsq : ∀ g, g ∈ sq_gates ↔ g ∈ model_gate_set model ∧ num_qudits g = 1).
  { intros g. unfold sq_gates. rewrite list_elem_of_filter. tauto. }
  split; [exact Hsq|].
  pose proof (single_qudit_rebase_cases model) as Hcases.
  cbv zeta in Hcases. fold sq_gates in Hcases.
  destruct Hcases as [[Hnil Hr]|(Hne & core & Hr & Hcore)]; [by left|].
  right. split; [done|]. by exists core.
Qed.

(** *** The two-qudit rebase *)


(** *** The builders *)

Lemma get_layer_gen_returns circuit model :
  ∃ layer_gen, _get_layer_gen circuit model = Ok layer_gen.
Proof.
  unfold _get_layer_gen. cbv zeta.
  destruct (Nat.eqb_spec
              (length (filter (λ g, num_qudits g = 2) (model_gate_set model))) 1)
    as [Htq|Htq]; simpl; [|by eexists].
  destruct (_ =? _)%nat; simpl; [|by eexists].
  case_bool_decide; [by eexists|].
  destruct (length_one _ Htq) as [g ->]. rewrite subscript_first.
  by eexists.
Qed.

Lemma single_qudit_rebase_returns model :
  ∃ pass, _get_single_qudit_gate_rebase_pass model = Ok pass.
Proof.
  destruct (single_qudit_rebase_cases model)
    as [[_ ->]|(_ & core & -> & _)]; by eexists.
Qed.

Lemma foldl_min (l : list Z) (n : Z) :
  foldl Z.min n l ∈ n :: l ∧ Forall (λ x, foldl Z.min n l ≤ x) (n :: l).
Proof.
  revert n. induction l as [|x l IH]; intros n; simpl.
  { split; [by left|]. constructor; [lia|constructor]. }
  destruct (IH (Z.min n x)) as [Hin Hle].
  apply Forall_cons in Hle as [Hle1 Hle2]. split.
  - apply elem_of_cons in Hin as [Hin|Hin].
    + rewrite Hin. destruct (Z.min_spec n x) as [[_ ->]|[_ ->]].
      * by left.
      * right. by left.
    + right. by right.
  - repeat constructor; try done; lia.
Qed.

(** [min] raises exactly when every gate of the model acts on one
    qudit; otherwise it gives the least number of qudits of the other
    gates. *)
Lemma smallest_entangler_size_cases model :
  ((∀ g, g ∈ model_gate_set model → num_qudits g = 1)
   ∧ smallest_entangler_size model = Raise ValueError)
  ∨ ∃ n,
      smallest_entangler_size model = Ok n
      ∧ (∃ g, g ∈ model_gate_set model ∧ num_qudits g = n ∧ n ≠ 1)
      ∧ (∀ g, g ∈ model_gate_set model → num_qudits g ≠ 1 → n ≤ num_qudits g).
Proof.
  unfold smallest_entangler_size.
  destruct (filter (λ g, num_qudits g ≠ 1) (model_gate_set model))
    as [|g0 l] eqn:E.
  - left. split; [|done]. intros g Hg.
    destruct (decide (num_qudits g = 1)) as [|Hn]; [done|].
    assert (Hin : g ∈ filter (λ g, num_qudits g ≠ 1) (model_gate_set model))
      by (by apply list_elem_of_filter).
    rewrite E in Hin. by apply elem_of_nil in Hin.
  - right. simpl.
    destruct (foldl_min (map num_qudits l) (num_qudits g0)) as [Hin Hle].
    eexists. split; [done|]. split.
    + change (num_qudits g0 :: map num_qudits l)
        with (map num_qudits (g0 :: l)) in Hin.
      apply list_elem_of_fmap in Hin as (g & Hg & Hgin).
      rewrite <- E in Hgin. apply list_elem_of_filter in Hgin as [Hw Hgin].
      exists g. split; [done|]. split; [by rewrite Hg|]. by rewrite Hg.
    + intros g Hg Hw.
      assert (Hgin : g ∈ g0 :: l) by (rewrite <- E; by apply list_elem_of_filter).
      change (num_qudits g0 :: map num_qudits l)
        with (map num_qudits (g0 :: l)) in Hle.
      rewrite Forall_forall in Hle. apply Hle.
      apply list_elem_of_fmap. eauto.
Qed.

Lemma leap_init_returns (synthesis_epsilon : float)
    (layer_gen : LayerGenerator (Gate:=Gate))
    (min_prefix_size : Z) (inst_ops : Options) :
  0 < min_prefix_size →
  ∃ leap,
    LeapConstruction.__init__
      (leap_arguments synthesis_epsilon layer_gen min_prefix_size inst_ops)
    = Ok leap
    ∧ LeapConstruction.self_fields leap
      = leap_fields synthesis_epsilon min_prefix_size.
Proof.
  intros Hpos. unfold LeapConstruction.__init__, leap_arguments. simpl.
  destruct (Z.leb_spec min_prefix_size 0); [lia|]. by eexists.
Qed.

(** The builder of a level from 1 to 4, and the [min_prefix_size] it
    gives its LEAP pass. *)
Lemma workflow_builder_cases (optimization_level : Z) :
  1 ≤ optimization_level ≤ 4 →
  (optimization_level = 1
   ∧ subscript [_opt1_workflow; _opt2_workflow; _opt3_workflow; _opt4_workflow]
       (optimization_level - 1) = Ok _opt1_workflow)
  ∨ (optimization_level = 2
     ∧ subscript [_opt1_workflow; _opt2_workflow; _opt3_workflow; _opt4_workflow]
         (optimization_level - 1) = Ok _opt2_workflow)
  ∨ (optimization_level = 3
     ∧ subscript [_opt1_workflow; _opt2_workflow; _opt3_workflow; _opt4_workflow]
         (optimization_level - 1) = Ok _opt3_workflow)
  ∨ (optimization_level = 4
     ∧ subscript [_opt1_workflow; _opt2_workflow; _opt3_workflow; _opt4_workflow]
         (optimization_level - 1) = Ok _opt4_workflow).
Proof.
  intros Hl.
  assert (Hcases : optimization_level = 1 ∨ optimization_level = 2
                   ∨ optimization_level = 3 ∨ optimization_level = 4) by lia.
  destruct Hcases as [-> | [-> | [-> | ->]]]; auto 10.
Qed.

(** *** The LEAP passes of a workflow *)

Lemma leap_passes_cons (p : BasePass (Gate:=Gate)) (l : list BasePass) :
  leap_passes (p :: l) = leap_passes [p] ++ leap_passes l.
Proof.
  unfold leap_passes, all_passes. cbn [subpasses_of].
  by rewrite app_nil_r, omap_app.
Qed.

Lemma leap_passes_cons2 (p q : BasePass (Gate:=Gate)) (l : list BasePass) :
  leap_passes (p :: q :: l) = leap_passes [p] ++ leap_passes (q :: l).
Proof. apply leap_passes_cons. Qed.

Lemma leap_passes_app (l1 l2 : list (BasePass (Gate:=Gate))) :
  leap_passes (l1 ++ l2) = leap_passes l1 ++ leap_passes l2.
Proof.
  induction l1 as [|p l1 IH]; [done|].
  by rewrite <- app_comm_cons, leap_passes_cons, IH, (leap_passes_cons p l1),
    app_assoc.
Qed.

(** Reads the outcome of a builder off its four calls that may raise,
    and the LEAP passes off the list it returns. *)
Ltac builder_outcome circuit model synthesis_epsilon mps inst_ops :=
  let layer_gen := fresh "layer_gen" in
  let leap := fresh "leap" in
  let Hleap := fresh "Hleap" in
  let Hfields := fresh "Hfields" in
  let core := fresh "core" in
  let Hcore := fresh "Hcore" in
  let Hall := fresh "Hall" in
  let n := fresh "n" in
  let Hex := fresh "Hex" in
  let g := fresh "g" in
  destruct (get_layer_gen_returns circuit model) as [layer_gen ->];
  destruct (leap_init_returns synthesis_epsilon layer_gen mps inst_ops
              ltac:(lia)) as (leap & Hleap & Hfields);
  cbv beta iota zeta delta [mbind Res_bind]; rewrite Hleap;
  destruct (single_qudit_rebase_cases model)
    as [[_ ->]|(_ & core & -> & Hcore)];
  [|destruct Hcore as [[-> _]|[(-> & _)|(-> & _)]]];
  cbv beta iota;
  (destruct (smallest_entangler_size_cases model)
     as [[Hall ->]|(n & -> & Hex & _)]; [by left|right]);
  cbv beta iota; (eexists; split; [done|]);
  (split; [destruct Hex as (g & ? & ? & ?); exists g; split; congruence|]);
  (split; [done|]); (split; [done|]);
  destruct (non_native_mq circuit model);
  unfold leap_passes, all_passes;
  cbn [subpasses_of subpasses app omap list_omap];
  repeat (constructor; try exact Hfields).

Lemma opt1_outcome circuit model (synthesis_epsilon : float)
    (max_synthesis_size : Z) (error_threshold : option float)
    (error_sim_size : Z) :
  ((∀ g, g ∈ model_gate_set model → num_qudits g = 1)
   ∧ _opt1_workflow circuit model synthesis_epsilon max_synthesis_size
       error_threshold error_sim_size = Raise ValueError)
  ∨ ∃ body,
      _opt1_workflow circuit model synthesis_epsilon max_synthesis_size
        error_threshold error_sim_size = Ok body
      ∧ (∃ g, g ∈ model_gate_set model ∧ num_qudits g ≠ 1)
      ∧ head body = Some (SetModelPass model)
      ∧ last body = Some ApplyPlacement
      ∧ Forall (λ self, LeapConstruction.self_fields self
                        = leap_fields synthesis_epsilon 3)
          (leap_passes body).
Proof.
  unfold _opt1_workflow.
  builder_outcome circuit model synthesis_epsilon 3 (∅ : Options).
Qed.

Lemma opt2_outcome circuit model (synthesis_epsilon : float)
    (max_synthesis_size : Z) (error_threshold : option float)
    (error_sim_size : Z) :
  ((∀ g, g ∈ model_gate_set model → num_qudits g = 1)
   ∧ _opt2_workflow circuit model synthesis_epsilon max_synthesis_size
       error_threshold error_sim_size = Raise ValueError)
  ∨ ∃ body,
      _opt2_workflow circuit model synthesis_epsilon max_synthesis_size
        error_threshold error_sim_size = Ok body
      ∧ (∃ g, g ∈ model_gate_set model ∧ num_qudits g ≠ 1)
      ∧ head body = Some (SetModelPass model)
      ∧ last body = Some ApplyPlacement
      ∧ Forall (λ self, LeapConstruction.self_fields self
                        = leap_fields synthesis_epsilon 5)
          (leap_passes body).
Proof.
  unfold _opt2_workflow.
  builder_outcome circuit model synthesis_epsilon 5
    ({[ "multistarts"%string := PyInt 4;
        "ftol"%string := PyReal (decimal 5 (-12));
        "gtol"%string := PyReal (decimal 1 (-14)) ]} : Options).
Qed.

Lemma opt3_outcome circuit model (synthesis_epsilon : float)
    (max_synthesis_size : Z) (error_threshold : option float)
    (error_sim_size : Z) :
  ((∀ g, g ∈ model_gate_set model → num_qudits g = 1)
   ∧ _opt3_workflow circuit model synthesis_epsilon max_synthesis_size
       error_threshold error_sim_size = Raise ValueError)
  ∨ ∃ body,
      _opt3_workflow circuit model synthesis_epsilon max_synthesis_size
        error_threshold error_sim_size = Ok body
      ∧ (∃ g, g ∈ model_gate_set model ∧ num_qudits g ≠ 1)
      ∧ head body = Some (SetModelPass model)
      ∧ last body = Some ApplyPlacement
      ∧ Forall (λ self, LeapConstruction.self_fields self
                        = leap_fields synthesis_epsilon 7)
          (leap_passes body).
Proof.
  unfold _opt3_workflow.
  builder_outcome circuit model synthesis_epsilon 7
    ({[ "multistarts"%string := PyInt 8;
        "method"%string := PyStr "minimization";
        "ftol"%string := PyReal (decimal 5 (-16));
        "gtol"%string := PyReal (decimal 1 (-15)) ]} : Options).
Qed.


(** *** From the checks to the task *)

(** [_circuit_workflow] at a level that [compile] lets through. *)
Lemma circuit_workflow_outcome circuit model (optimization_level : Z)
    (synthesis_epsilon : float) (max_synthesis_size : Z)
    (error_threshold : option float) (error_sim_size : Z) :
  1 ≤ optimization_level ≤ 4 →
  let result :=
    _circuit_workflow circuit model optimization_level synthesis_epsilon
      max_synthesis_size error_threshold error_sim_size in
  (optimization_level = 4 ∧ result = Raise NotImplementedError)
  ∨ (optimization_level ≤ 3
     ∧ (∀ g, g ∈ model_gate_set model → num_qudits g = 1)
     ∧ result = Raise ValueError)
  ∨ (optimization_level ≤ 3
     ∧ ∃ body,
         result
         = Ok {| task_input := circuit;
                 task_workflow :=
                   UnfoldPass :: ExtractMeasurements
                     :: body ++ [RestoreMeasurements] |}
         ∧ (∃ g, g ∈ model_gate_set model ∧ num_qudits g ≠ 1)
         ∧ head body = Some (SetModelPass model)
         ∧ last body = Some ApplyPlacement
         ∧ Forall (λ self, LeapConstruction.self_fields self
                           = leap_fields synthesis_epsilon
                               (2 * optimization_level + 1))
             (leap_passes body)).
Proof.
  intros Hlevel result. subst result. unfold _circuit_workflow. cbv zeta.
  destruct (workflow_builder_cases optimization_level Hlevel)
    as [[-> ->]|[[-> ->]|[[-> ->]|[-> ->]]]];
    cbv beta iota delta [mbind Res_bind].
  - destruct (opt1_outcome circuit model synthesis_epsilon max_synthesis_size
                error_threshold error_sim_size)
      as [[Hall ->]|(body & -> & Hex & Hhd & Hlast & Hleap)].
    + right. left. split; [lia|]. by split.
    + right. right. split; [lia|]. exists body. by split_and?.
  - destruct (opt2_outcome circuit model synthesis_epsilon max_synthesis_size
                error_threshold error_sim_size)
      as [[Hall ->]|(body & -> & Hex & Hhd & Hlast & Hleap)].
    + right. left. split; [lia|]. by split.
    + right. right. split; [lia|]. exists body. by split_and?.
  - destruct (opt3_outcome circuit model synthesis_epsilon max_synthesis_size
                error_threshold error_sim_size)
      as [[Hall ->]|(body & -> & Hex & Hhd & Hlast & Hleap)].
    + right. left. split; [lia|]. by split.
    + right. right. split; [lia|]. exists body. by split_and?.
  - left. by split.
Qed.

(** X18.  Past its checks, [compile] builds its task as follows.  For a
    state, and at level 4, it ends in [NotImplementedError].  Otherwise,
    the input being a circuit or a unitary and the level at most 3, the
    builder of the level is called, the index into the list of builders
    being in range and never negative, and the builder raises a
    [ValueError], from [min] of no value, exactly when every gate of
    the model acts on one qudit, which the checks allow for an input of
    at most one qudit only.  In all other cases the task is made of the
    input circuit, or of the circuit that wraps the input unitary, and
    of a workflow that starts with [UnfoldPass], [ExtractMeasurements]
    and [SetModelPass] of the model and ends with [ApplyPlacement] and
    [RestoreMeasurements]. *)
Theorem compile_task_outcome (input : Input)
    (model : option (MachineModel Gate))
    (optimization_level max_synthesis_size : Z) (synthesis_epsilon : float)
    (error_threshold : option float) (error_sim_size : Z) :
  let m := chosen_model input model in
  let result :=
    compile_task input model optimization_level max_synthesis_size
      synthesis_epsilon error_threshold error_sim_size in
  match compile input model optimization_level max_synthesis_size with
  | Compile.Raise e => result = of_check (Compile.Raise e)
  | Compile.Ok _ =>
      ((optimization_level = 4 ∨ ∃ s, input = InState s)
       ∧ result = Raise NotImplementedError)
      ∨ (optimization_level ≤ 3
         ∧ ((∃ c, input = InCircuit c) ∨ (∃ u, input = InUnitary u))
         ∧ input_num_qudits input ≤ 1
         ∧ (∀ g, g ∈ model_gate_set m → num_qudits g = 1)
         ∧ result = Raise ValueError)
      ∨ (optimization_level ≤ 3
         ∧ ∃ c body,
             (input = InCircuit c
              ∨ ∃ u, input = InUnitary u ∧ c = from_unitary u)
             ∧ result
               = Ok {| task_input := c;
                       task_workflow :=
                         UnfoldPass :: ExtractMeasurements
                           :: body ++ [RestoreMeasurements] |}
             ∧ (∃ g, g ∈ model_gate_set m ∧ num_qudits g ≠ 1)
             ∧ head body = Some (SetModelPass m)
             ∧ last body = Some ApplyPlacement)
  end.
Proof.
  intros m result. subst result. unfold compile_task.
  destruct (compile input model optimization_level max_synthesis_size)
    as [call|e] eqn:Hc; [|by destruct e].
  apply compile_ok in Hc as (Hlevel & Hent & Hcall). fold m in Hent, Hcall.
  cbv beta iota delta [mbind Res_bind of_check].
  assert (Hcircuit : ∀ c,
    (input = InCircuit c ∨ ∃ u, input = InUnitary u ∧ c = from_unitary u) →
    let result :=
      _circuit_workflow c m optimization_level synthesis_epsilon
        max_synthesis_size error_threshold error_sim_size in
    ((optimization_level = 4 ∨ ∃ s, input = InState s)
     ∧ result = Raise NotImplementedError)
    ∨ (optimization_level ≤ 3
       ∧ ((∃ c, input = InCircuit c) ∨ (∃ u, input = InUnitary u))
       ∧ input_num_qudits input ≤ 1
       ∧ (∀ g, g ∈ model_gate_set m → num_qudits g = 1)
       ∧ result = Raise ValueError)
    ∨ (optimization_level ≤ 3
       ∧ ∃ c' body,
           (input = InCircuit c'
            ∨ ∃ u, input = InUnitary u ∧ c' = from_unitary u)
           ∧ result
             = Ok {| task_input := c';
                     task_workflow :=
                       UnfoldPass :: ExtractMeasurements
                         :: body ++ [RestoreMeasurements] |}
           ∧ (∃ g, g ∈ model_gate_set m ∧ num_qudits g ≠ 1)
           ∧ head body = Some (SetModelPass m)
           ∧ last body = Some ApplyPlacement)).
  { intros c Hin result.
    destruct (circuit_workflow_outcome c m optimization_level synthesis_epsilon
                max_synthesis_size error_threshold error_sim_size Hlevel)
      as [[Hl Hr]|[(Hl & Hall & Hr)|(Hl & body & Hr & Hex & Hhd & Hlast & _)]].
    - left. split; [by left|done].
    - right. left. split_and?; try done.
      + destruct Hin as [->|(u & -> & _)]; eauto.
      + destruct Hent as [|(g & Hg & Hw)]; [done|].
        specialize (Hall g Hg). lia.
    - right. right. split; [done|]. exists c, body. by split_and?. }
  destruct call as [c m'|u m'|s m']; destruct Hcall as [Hin ->].
  - apply Hcircuit. by left.
  - apply Hcircuit. right. by exists u.
  - left. split; [right; by exists s|done].
Qed.

(** *** Multi-qudit operations *)


End Passes.

End CompileWorkflowProps.

(** ** The LEAP passes of the standard workflows *)

Module WorkflowLeapProps.

Import PyFloat Compile Py CompileMore CompileWorkflows CompileWorkflowProps.

Section Passes.
Context {Gate : Type} `{!GateCatalog Gate} `{!CircuitGates Gate}.
Context `{!StandardGates Gate} `{!UnitaryCircuits Gate}.
Context {Template : Type}.
Context `{!Leap.CostFunctionGenerator Template}.
Context `{!Leap.LayerGenerator Template}.
Context `{!Leap.HeuristicFunction Template} `{!Leap.Instantiater Template}.
Context `{!Leap.Regression} `{!Leap.ListSort Template}.

(** A pass with the default [no_progress_layers_allowed] raises
    nothing. *)
Lemma leap_fields_never_raise (synthesis_epsilon : float)
    (min_prefix_size : Z) fuel e :
  snd (Leap.synthesize (leap_fields synthesis_epsilon min_prefix_size) fuel)
  ≠ Some (Leap.Raised e).
Proof.
  intros Hr. rewrite LeapRunMore.synthesize_unfold in Hr. cbv zeta in Hr.
  destruct (flt _ _); [done|]. cbn [snd] in Hr.
  by apply LeapRun.while_loop_raises in Hr as [_ Hz];
    [|apply LeapRun.regular_initial].
Qed.

Lemma leap_passes_task (body : list (BasePass (Gate:=Gate))) :
  leap_passes (UnfoldPass :: ExtractMeasurements :: body ++ [RestoreMeasurements])
  = leap_passes body.
Proof.
  rewrite (leap_passes_cons UnfoldPass), (leap_passes_cons ExtractMeasurements),
    leap_passes_app.
  change (leap_passes [UnfoldPass]) with
    (@nil (LeapConstruction.LEAPObject PyObject (LayerGenerator (Gate:=Gate)))).
  change (leap_passes [ExtractMeasurements]) with
    (@nil (LeapConstruction.LEAPObject PyObject (LayerGenerator (Gate:=Gate)))).
  change (leap_passes [RestoreMeasurements]) with
    (@nil (LeapConstruction.LEAPObject PyObject (LayerGenerator (Gate:=Gate)))).
  by rewrite app_nil_r.
Qed.

(** X19.  Every LEAP pass of a task that [compile] builds has the
    threshold [synthesis_epsilon], no layer limit, the default
    [no_progress_layers_allowed] of 10 and [min_prefix_size] 3, 5 or 7
    at level 1, 2 or 3, and it stores no partial solutions; its
    [synthesize], whatever the cost function, the layer generator, the
    heuristic and the instantiater, raises nothing. *)
Theorem workflow_leap_passes (input : Input)
    (model : option (MachineModel Gate))
    (optimization_level max_synthesis_size : Z) (synthesis_epsilon : float)
    (error_threshold : option float) (error_sim_size : Z)
    (task : CompilationTask) :
  compile_task input model optimization_level max_synthesis_size
    synthesis_epsilon error_threshold error_sim_size = Ok task →
  Forall (λ self,
      LeapConstruction.self_fields self
      = leap_fields synthesis_epsilon (2 * optimization_level + 1)
      ∧ 1 ≤ optimization_level ≤ 3
      ∧ ∀ fuel e,
          snd (Leap.synthesize (LeapConstruction.self_fields self) fuel)
          ≠ Some (Leap.Raised e))
    (leap_passes (task_workflow task)).
Proof.
  unfold compile_task.
  destruct (compile input model optimization_level max_synthesis_size)
    as [call|e] eqn:Hc; [|by destruct e].
  apply compile_ok in Hc as (Hlevel & _ & _).
  cbv beta iota delta [mbind Res_bind of_check].
  assert (Hcircuit : ∀ c m,
    _circuit_workflow c m optimization_level synthesis_epsilon
      max_synthesis_size error_threshold error_sim_size = Ok task →
    Forall (λ self,
        LeapConstruction.self_fields self
        = leap_fields synthesis_epsilon (2 * optimization_level + 1)
        ∧ 1 ≤ optimization_level ≤ 3
        ∧ ∀ fuel e,
            snd (Leap.synthesize (LeapConstruction.self_fields self) fuel)
            ≠ Some (Leap.Raised e))
      (leap_passes (task_workflow task))).
  { intros c m Hr.
    destruct (circuit_workflow_outcome c m optimization_level synthesis_epsilon
                max_synthesis_size error_threshold error_sim_size Hlevel)
      as [[_ Hr']|[(_ & _ & Hr')|(Hl & body & Hr' & _ & _ & _ & Hleap)]];
      cbv zeta in Hr'; rewrite Hr in Hr'; [done|done|].
    injection Hr' as ->. cbn [task_workflow]. rewrite leap_passes_task.
    eapply Forall_impl; [exact Hleap|].
    intros self Hf. cbv beta in Hf. split; [done|]. split; [lia|].
    intros fuel e. rewrite Hf. apply leap_fields_never_raise. }
  destruct call as [c m|u m|s m]; [apply Hcircuit|apply Hcircuit|done].
Qed.

End Passes.

End WorkflowLeapProps.

(** ** The properties of construction and workflows on examples *)

Module WorkflowWitnesses.

Import PyFloat Compile Py CompileProps CompileMore.
Import CompileWorkflows CompileWorkflowProps WorkflowLeapProps.
Import LeapExample LeapExampleFacts WorkflowExample ConstructionExample.
Import (notations) Stdlib.Strings.String.

(** The caller's seed is kept, the cost of the pass is added. *)
Lemma effective_instantiate_options_witness :
  ∃ self,
    LeapConstruction.__init__ seeded_arguments = Ok self
    ∧ LeapConstruction.run_instantiate_options self (PyInt 7)
      = LeapConstruction.instantiate_options seeded_arguments
        ∪ {[ "cost_fn_gen"%string := LeapConstruction.cost seeded_arguments ]}
        ∪ {[ "seed"%string := PyInt 7 ]}.
Proof.
  assert (E : ∃ self, LeapConstruction.__init__ seeded_arguments = Ok self)
    by (eexists; reflexivity).
  destruct E as [self E]. exists self. split; [exact E|].
  exact (LeapConstructionProps.effective_instantiate_options
           seeded_arguments self (PyInt 7) E).
Defined.

(** The pass limited to two layers, as the constructor builds it. *)
Lemma constructed_pass_search_witness :
  ∃ self,
    LeapConstruction.__init__ shallow_arguments = Ok self
    ∧ Sorted Z.lt
        (0 :: LeapObservations.freeze_layers
                (fst (Leap.synthesize (Circuit:=LeapExample.Choices)
                        (LeapConstruction.self_fields self) 10)))
    ∧ ∀ ml, LeapConstruction.max_layer shallow_arguments = Some ml →
        Forall (λ layer, 0 ≤ layer < ml)
          (LeapObservations.popped_layers
             (fst (Leap.synthesize (Circuit:=LeapExample.Choices)
                     (LeapConstruction.self_fields self) 10))).
Proof.
  assert (E : ∃ self, LeapConstruction.__init__ shallow_arguments = Ok self)
    by (eexists; reflexivity).
  destruct E as [self E]. exists self. split; [exact E|].
  exact (LeapConstructionProps.constructed_pass_search
           shallow_arguments self 10 E).
Defined.

(** A Toffoli among CNOTs, compiled at level 3 for a line of three
    qubits with iSWAP, RZ and SqrtX: the task has two LEAP passes, in
    the retargeting and in the resynthesis loop. *)
Lemma workflow_leap_passes_witness :
  ∃ task,
    compile_task (InCircuit toffoli_cx) (Some iswap_rz_sx) 3 3
      (decimal 1 (-10)) None 8 = Ok task
    ∧ length (leap_passes (task_workflow task)) = 2%nat
    ∧ Forall (λ self,
          LeapConstruction.self_fields self
          = leap_fields (decimal 1 (-10)) (2 * 3 + 1)
          ∧ 1 ≤ 3 ≤ 3
          ∧ ∀ fuel e,
              snd (Leap.synthesize (Circuit:=LeapExample.Choices)
                     (LeapConstruction.self_fields self) fuel)
              ≠ Some (Leap.Raised e))
        (leap_passes (task_workflow task)).
Proof.
  assert (E : ∃ task,
    compile_task (InCircuit toffoli_cx) (Some iswap_rz_sx) 3 3
      (decimal 1 (-10)) None 8 = Ok task
    ∧ length (leap_passes (task_workflow task)) = 2%nat)
    by (eexists; split; reflexivity).
  destruct E as (task & E & Hlen). exists task.
  split; [exact E|]. split; [exact Hlen|].
  exact (workflow_leap_passes (Template:=LeapExample.Choices)
           (InCircuit toffoli_cx) (Some iswap_rz_sx) 3 3
           (decimal 1 (-10)) None 8 task E).
Defined.

(** The single-qudit rebase for four models: no single-qudit gate, U3
    alone, RZ with SqrtX, and RZ alone. *)
Lemma single_qudit_rebase_targets_native_witness :
  _get_single_qudit_gate_rebase_pass cx_only = Ok NOOPPass
  ∧ (∃ pass, _get_single_qudit_gate_rebase_pass cx_u3 = Ok pass
             ∧ subpasses pass !! 5%nat = Some U3Decomposition)
  ∧ (∃ pass, _get_single_qudit_gate_rebase_pass iswap_rz_sx = Ok pass
             ∧ subpasses pass !! 5%nat = Some ZXZXZDecomposition)
  ∧ (∃ pass, _get_single_qudit_gate_rebase_pass cx_rz = Ok pass
             ∧ subpasses pass !! 5%nat
               = Some (QSearchSynthesisPass None
                         (Some (SingleQuditLayerGenerator [RZ] true))
                         (Some DijkstraHeuristic)
                         (Some {[ "method"%string := PyStr "minimization";
                                  "minimizer"%string := ScipyMinimizer;
                                  "cost_fn_gen"%string
                                    := HilbertSchmidtCostGenerator ]}))).
Proof.
  split; [|split; [|split]].
  - destruct (proj2 (single_qudit_rebase_targets_native cx_only))
      as [[_ Hr]|[Hne _]]; [exact Hr|].
    exfalso. apply Hne. reflexivity.
  - destruct (proj2 (single_qudit_rebase_targets_native cx_u3))
      as [[Hnil _]|(_ & core & Hr & Hcore)]; [discriminate Hnil|].
    eexists. split; [exact Hr|].
    destruct Hcore as [[-> _]|[(_ & Hlen & _)|(_ & Hu & _)]].
    + reflexivity.
    + exfalso. simpl in Hlen. lia.
    + exfalso. apply Hu. reflexivity.
  - destruct (proj2 (single_qudit_rebase_targets_native iswap_rz_sx))
      as [[Hnil _]|(_ & core & Hr & Hcore)]; [discriminate Hnil|].
    eexists. split; [exact Hr|].
    destruct Hcore as [[_ Hu]|[(-> & _)|(_ & _ & Hno)]].
    + discriminate Hu.
    + reflexivity.
    + exfalso. apply Hno. split; [simpl; lia|].
      split; [apply (list_elem_of_lookup_2 _ 0%nat)
             |apply (list_elem_of_lookup_2 _ 1%nat)]; reflexivity.
  - destruct (proj2 (single_qudit_rebase_targets_native cx_rz))
      as [[Hnil _]|(_ & core & Hr & Hcore)]; [discriminate Hnil|].
    eexists. split; [exact Hr|].
    destruct Hcore as [[_ Hu]|[(_ & Hlen & _)|(-> & _)]].
    + discriminate Hu.
    + exfalso. simpl in Hlen. lia.
    + reflexivity.
Defined.

(** Past the checks: a state on one qubit for a model with U3 alone
    ends in [NotImplementedError], a circuit on one qubit for the same
    model in the [ValueError] of the builder, and a circuit for a model
    with an entangling gate gives a task. *)
Lemma compile_task_outcome_witness :
  compile_task state1 (Some u3_only) 1 3 (decimal 1 (-10)) None 8
  = Raise NotImplementedError
  ∧ compile_task (InCircuit one_u3) (Some u3_only) 1 3 (decimal 1 (-10)) None 8
    = Raise ValueError
  ∧ ∃ body,
      compile_task (InCircuit one_iswap) (Some cx_u3) 1 3 (decimal 1 (-10))
        None 8
      = Ok {| task_input := one_iswap;
              task_workflow :=
                UnfoldPass :: ExtractMeasurements
                  :: body ++ [RestoreMeasurements] |}
      ∧ head body = Some (SetModelPass cx_u3)
      ∧ last body = Some ApplyPlacement.
Proof.
  split; [|split].
  - pose proof (compile_task_outcome state1 (Some u3_only) 1 3
                  (decimal 1 (-10)) None 8) as Hout.
    cbv zeta in Hout.
    destruct (compile state1 (Some u3_only) 1 3) as [call|e] eqn:E;
      [|vm_compute in E; discriminate].
    destruct Hout as [[_ Hr]|[(_ & Hkind & _)|(_ & c & body & Hkind & _)]].
    + exact Hr.
    + exfalso. destruct Hkind as [[c Hc]|[u Hu]]; discriminate.
    + exfalso. destruct Hkind as [Hc|(u & Hu & _)]; discriminate.
  - pose proof (compile_task_outcome (InCircuit one_u3) (Some u3_only) 1 3
                  (decimal 1 (-10)) None 8) as Hout.
    cbv zeta in Hout.
    destruct (compile (InCircuit one_u3) (Some u3_only) 1 3) as [call|e] eqn:E;
      [|vm_compute in E; discriminate].
    destruct Hout as [[Hlevel _]|[(_ & _ & _ & _ & Hr)|(_ & c & body & _ & _ & Hex & _)]].
    + exfalso. destruct Hlevel as [Hl|[sh Hs]]; [lia|discriminate].
    + exact Hr.
    + exfalso. destruct Hex as (g & Hg & Hw).
      apply list_elem_of_singleton in Hg. subst g. apply Hw. reflexivity.
  - pose proof (compile_task_outcome (InCircuit one_iswap) (Some cx_u3) 1 3
                  (decimal 1 (-10)) None 8) as Hout.
    cbv zeta in Hout.
    destruct (compile (InCircuit one_iswap) (Some cx_u3) 1 3) as [call|e] eqn:E;
      [|vm_compute in E; discriminate].
    destruct Hout as [[Hlevel _]|[(_ & _ & Hwide & _)|(_ & c & body & Hkind & Hr & _ & Hhd & Hlast)]].
    + exfalso. destruct Hlevel as [Hl|[sh Hs]]; [lia|discriminate].
    + exfalso. simpl in Hwide. lia.
    + destruct Hkind as [Hc|(u & Hu & _)]; [|discriminate].
      injection Hc as <-. exists body. split; [exact Hr|]. by split.
Defined.

End WorkflowWitnesses.

(** ** The further properties of the checks and of the filter on examples *)

Module CompileMoreWitnesses.

Import PyFloat Compile ReplaceOrder CompileExample CompileProps CompileMore.

(** On the line, the shorter circuit is accepted in place of block 0,
    whose body satisfies the model. *)
Lemma replacements_well_founded_witness :
  replaces line shorter
    cnot_u3_cnot
  ∧ Acc (replaces line) shorter.
Proof.
  split.
  - exists (op (Block 0) [0; 1]).
    split; [reflexivity|]. split; [|split; reflexivity].
    intros g Hg. vm_compute in Hg.
    apply elem_of_cons in Hg as [->|Hg];
      [|apply list_elem_of_singleton in Hg as ->]; simpl; repeat constructor.
  - exact (replacements_well_founded line shorter).
Defined.

(** Block 0 placed on a single qubit: its edge (0, 1) has no second
    entry to look up. *)
Lemma replace_filter_raises_witness :
  _gen_replace_filter line shorter
    (op (Block 0) [0]) = Compile.Raise Compile.IndexError
  ∧ Compile.IndexError = Compile.IndexError
  ∧ ∃ org ed,
      as_circuit_gate (gate (op (Block 0) [0]))
      = Some org
      ∧ (∀ g, g ∈ gate_set org → g ∈ model_gate_set line)
      ∧ ed ∈ coupling_graph org
      ∧ (¬ (- Z.of_nat (length [0]) ≤ fst ed < Z.of_nat (length [0]))
         ∨ ¬ (- Z.of_nat (length [0]) ≤ snd ed < Z.of_nat (length [0]))).
Proof.
  assert (Hr : _gen_replace_filter line shorter
                 (op (Block 0) [0])
               = Compile.Raise Compile.IndexError) by reflexivity.
  split; [exact Hr|].
  exact (replace_filter_raises line shorter
           (op (Block 0) [0]) _ Hr).
Defined.

(** A three-qubit circuit with a Toffoli, no model given and
    [max_synthesis_size = 2]. *)
Lemma default_model_not_blamed_witness :
  num_qudits (Gate:=ExGate) CNOTGate = 2
  ∧ compile (InCircuit wide) None 1 2
    = Compile.Raise Compile.ValueError
  ∧ ((InCircuit wide = InOther
      ∧ Compile.ValueError = Compile.TypeError)
     ∨ (Compile.ValueError = Compile.ValueError
        ∧ (all_qubits (input_radixes (InCircuit wide)) = false
           ∨ 1 < 1 ∨ 4 < 1 ∨ 2 < 2
           ∨ 2 < input_num_qudits (InCircuit wide)))).
Proof.
  assert (Hc : num_qudits (Gate:=ExGate) CNOTGate = 2)
    by reflexivity.
  assert (Hr : compile (InCircuit wide) None 1 2
               = Compile.Raise Compile.ValueError) by reflexivity.
  split; [exact Hc|]. split; [exact Hr|].
  exact (default_model_not_blamed (InCircuit wide) 1 2 _ Hc Hr).
Defined.

End CompileMoreWitnesses.
